(** * Stock synchronisation Manager+ -> Mercado Libre (syncStocksML.js)

    A shallow embedding of the reconciliation engine of [syncStocksML.js],
    of its command line, and of the two [/api/sync/stocks] routes of
    [server.js], with the properties of the engine's specification stated
    and proved over it.

    Conventions of the model.
    - The numbers of the ERP payloads and their sums are IEEE 754 doubles
      ([number]): a balance may be fractional, negative, huge, infinite or
      [NaN], and [+] rounds to nearest.  The quantities the engine
      compares and sends are integers ([Z]): the value of
      [parseInt(stock) || 0] and the [available_quantity] of a listing.
      [parseInt] of a number reads the integer digits of its decimal
      print; where JavaScript prints the number in exponent notation
      (from 10^21 on and below 10^-6) the digits before the exponent are
      left to the runtime ([exponent_head]).  Counters and positions are
      integers.
    - Payloads of the ERP are dynamically inspected by the code
      ([Array.isArray], [typeof], truthiness) and are kept as JSON trees;
      payloads of Mercado Libre are read field by field and are records
      with optional fields.
    - Identifiers (SKUs, item ids, tokens) are strings.
    - [async] functions are computations over an explicit state: the
      module-level variables, the remote world, and the trace of what the
      engine sent out (requests, warnings, pauses, and the progress line
      [processInParallel] writes after each chunk).  The other lines
      written with [console.log] and [console.error] are not traced.
    - The items of a chunk are in flight together; the model runs each of
      them to its end, one after the other, in the order in which the
      world lets them complete, and every statement holds for every such
      order.  The requests of two items of a chunk are therefore not
      interleaved in the trace, and an item reuses the ERP token its
      predecessor fetched: no statement below reads the relative order
      of the requests of different items or counts ERP logins.  A
      processor that rejects ends its chunk in the model; the processor
      the engine hands over catches every exception and never rejects.
    - Loops run on fuel; [NoFuel] is the outcome of a loop that is still
      running when the fuel is spent. *)

From Stdlib Require Import ZArith Lia SpecFloat.
From stdpp Require Import base option list strings pretty.

Set Warnings "-register-all".
Open Scope string_scope.
Open Scope Z_scope.

(** ** JavaScript numbers *)

(** A JavaScript number is an IEEE 754 double: a zero, an infinity,
    [NaN], or a finite [m * 2^e] with its sign. *)
Definition number : Type := spec_float.

(** [x + y] on doubles, rounded to nearest, ties to even. *)
Definition js_add (x y : number) : number := SFadd 53 1024 x y.

(** The number an integer numeral denotes: the double nearest to [n]. *)
Definition num (n : Z) : number := binary_normalize 53 1024 n 0 false.

(** ToBoolean of a number: false for [0], [-0] and [NaN]. *)
Definition truthy_number (x : number) : bool :=
  match x with
  | S754_zero _ | S754_nan => false
  | _ => true
  end.

(** [x || 0]. *)
Definition number_or_0 (x : number) : number :=
  if truthy_number x then x else num 0.


(** The value of a finite number when it is an integer. *)
Definition integer_value (x : number) : option Z :=
  match x with
  | S754_zero _ => Some 0
  | S754_finite s m e =>
      if 0 <=? e then Some (cond_Zopp s (Zpos m * 2 ^ e))
      else if Zpos m mod 2 ^ (- e) =? 0
           then Some (cond_Zopp s (Zpos m / 2 ^ (- e)))
           else None
  | _ => None
  end.

(** What the runtime does with text, left uninterpreted:
    [parseFloat] on a string, and the integer [parseInt] reads off a
    number that prints in exponent notation ([1e+21], [5e-7]): the
    digits before the [.] or the [e], with the sign. *)
Record Runtime : Type := {
  parseFloat_str : string -> number;
  exponent_head : number -> Z
}.

(** ** JSON values as the code inspects them *)

Inductive Json : Type :=
| JNull
| JBool (b : bool)
| JNum (x : number)
| JStr (s : string)
| JArr (items : list Json)
| JObj (fields : list (string * Json)).

(** A property read yields [None] for JavaScript's [undefined]. *)
Fixpoint assoc (k : string) (fields : list (string * Json)) : option Json :=
  match fields with
  | [] => None
  | (k', v) :: rest => if String.eqb k k' then Some v else assoc k rest
  end.

(** [v.k] on a value that is not [null]; only objects carry the named
    fields the engine reads. *)
Definition prop (v : Json) (k : string) : option Json :=
  match v with
  | JObj fields => assoc k fields
  | _ => None
  end.

(** ToBoolean. *)
Definition truthy (v : option Json) : bool :=
  match v with
  | None | Some JNull => false
  | Some (JBool b) => b
  | Some (JNum x) => truthy_number x
  | Some (JStr s) => negb (String.eqb s "")
  | Some (JArr _) | Some (JObj _) => true
  end.

(** [a || b] where [b] is a defined value. *)
Definition js_or (a : option Json) (b : Json) : Json :=
  match a with
  | Some v => if truthy a then v else b
  | None => b
  end.

Definition isArray (v : option Json) : bool :=
  match v with Some (JArr _) => true | _ => false end.

(** [typeof v === 'object'] for a JSON value: arrays, objects and [null]. *)
Definition typeof_object (v : Json) : bool :=
  match v with JNull | JArr _ | JObj _ => true | _ => false end.

Section ParseFloat.

Variable js : Runtime.

(** [parseFloat(v)] reads the numeric prefix of [String(v)].  A number
    prints as a numeral that reads back as the same number ([-0] prints
    as [0]); [true], [false] and [[object Object]] have no numeric
    prefix; an array prints its elements separated by commas, so its
    prefix is that of its first element, empty for [null]. *)
Fixpoint parseFloat (v : Json) : number :=
  match v with
  | JNum (S754_zero _) => num 0
  | JNum x => x
  | JStr s => parseFloat_str js s
  | JArr (JNull :: _) => S754_nan
  | JArr (x :: _) => parseFloat x
  | JArr [] => S754_nan
  | JNull | JBool _ | JObj _ => S754_nan
  end.

(** [parseInt(x)] reads the integer prefix of [String(x)].  From 1 up to
    but not including 10^21 a number prints in positional notation and
    the prefix is its integer part; from 0.000001 up to 1 it prints as
    [0.…]; outside these ranges it prints in exponent notation.
    [Infinity] and [NaN] have no integer prefix. *)
Definition parseInt (x : number) : option Z :=
  match x with
  | S754_nan | S754_infinity _ => None
  | S754_zero _ => Some 0
  | S754_finite s m e =>
      let integer_part := Z.shiftl (Zpos m) e in
      if (1 <=? integer_part) && (integer_part <? 10 ^ 21)
      then Some (cond_Zopp s integer_part)
      else if (integer_part =? 0) && (2 ^ (- e) <=? Zpos m * 10 ^ 6)
      then Some 0
      else Some (exponent_head js x)
  end.

(** [parseInt(x) || 0]: [NaN] and [0] both give [0]. *)
Definition num_or_0 (x : option Z) : Z := default 0 x.

(** [item && typeof item === 'object']. *)
Definition is_record (item : Json) : bool :=
  truthy (Some item) && typeof_object item.

(** [parseFloat(item.saldo || 0) || 0]: what a record adds to [stock]. *)
Definition saldo_of (item : Json) : number :=
  number_or_0 (parseFloat (js_or (prop item "saldo") (JNum (num 0)))).

(** The body of the inner [forEach]. *)
Definition add_item (stock : number) (item : Json) : number :=
  if is_record item then js_add stock (saldo_of item) else stock.

(** The body of the outer [forEach]. *)
Definition add_subArray (stock : number) (subArray : Json) : number :=
  match subArray with
  | JArr items => fold_left add_item items stock
  | _ => stock
  end.

(** [extractStockFromProduct(product)] for a [product] that is not
    [null] (reading [.stock] of [null] throws, see
    [getManagerProductBySKU]). *)
Definition extractStockFromProduct (product : Json) : number :=
  match prop product "stock" with
  | Some (JArr subArrays) =>
      if (0 <? Z.of_nat (length subArrays))
      then fold_left add_subArray subArrays (num 0)
      else num 0
  | _ => num 0
  end.

End ParseFloat.




(** [{ saldo: v }]. *)
Definition balance (v : Json) : Json := JObj [("saldo", v)].





(** ** Payloads of Mercado Libre and results of the engine *)

Record MLAttr : Type := {
  attr_id : option string;
  value_name : option string
}.

(** [GET /items/:id]: the fields of the listing the engine reads. *)
Record MLItem : Type := {
  item_id : string;
  seller_custom_field : option string;
  attributes : option (list MLAttr);
  available_quantity : option Z;
  item_title : option string;
  item_status : option string
}.

(** [GET /users/:id/items/search]: [results] and [paging.total]. *)
Record SearchPage : Type := {
  results : option (list string);
  paging_total : option Z
}.

(** An entry of the catalog index ([productMap.set(sku, {...})]). *)
Record MLProduct : Type := {
  p_sku : string;
  itemId : string;
  currentStock : Z;
  p_title : option string;
  p_status : option string
}.

(** The object returned by [getManagerProductBySKU]. *)
Record ManagerProduct : Type := {
  m_sku : Json;
  nombre : Json;
  stock : number;
  unidad : Json;
  precio : Json;
  rawData : Json
}.

Inductive Action : Type :=
| no_change | would_update | updated | skipped | error_action.

#[global] Instance Action_eq_dec : EqDecision Action.
Proof. solve_decision. Defined.

(** The object returned by [syncProductStock]; an absent property is
    [None]. *)
Record SyncResult : Type := {
  sku : string;
  success : bool;
  action : Action;
  error : option string;
  managerStock : option Z;
  mlStock : option Z;
  newStock : option Z;
  message : option string
}.

(** The summary object of [syncMultipleProducts]. *)
Record RunResult : Type := {
  total : Z;
  updated_count : Z;
  skipped_count : Z;
  errors_count : Z;
  noChange_count : Z;
  details : list SyncResult
}.

Record Options : Type := {
  dryRun : bool;
  forceUpdate : bool;
  concurrency : option Z;
  maxRetries : option Z;
  retryDelay : option Z
}.

(** ** The catalog index: a JavaScript [Map] keeps insertion order *)

Definition Index : Type := list (string * MLProduct).

Fixpoint map_get (k : string) (m : Index) : option MLProduct :=
  match m with
  | [] => None
  | (k', v) :: rest => if String.eqb k k' then Some v else map_get k rest
  end.

Definition map_has (k : string) (m : Index) : bool :=
  match map_get k m with Some _ => true | None => false end.

Fixpoint map_set (k : string) (v : MLProduct) (m : Index) : Index :=
  match m with
  | [] => [(k, v)]
  | (k', v') :: rest =>
      if String.eqb k k' then (k', v) :: rest else (k', v') :: map_set k v rest
  end.

Definition map_keys (m : Index) : list string := map fst m.

(** ** Errors, events and the remote world *)

(** A thrown JavaScript error: its [message] and, for an HTTP failure
    raised by axios, what the handlers read of [error.response]. *)
Record Exn : Type := {
  exn_message : string;
  exn_status : option Z;
  exn_data_message : option string;
  exn_retry_after : option string
}.

Definition Error (msg : string) : Exn :=
  {| exn_message := msg; exn_status := None;
     exn_data_message := None; exn_retry_after := None |}.

Inductive Warning : Type :=
| WarnConcurrencyCapped (requested : Z)
| WarnConcurrencyHigh (requested : Z)
| WarnRateLimitErrors (suggested : Z)
| WarnRateLimitPause
| WarnItemFetchFailed (itemId : string) (msg : string)
| WarnItemsWithoutSKU (n : nat).

(** Everything the engine sends out, in the order it is sent. *)
Inductive Event : Type :=
| EvVerifyAuth
| EvAccessToken
| EvErpAuth
| EvErpProduct (sku : string)
| EvMlSearch (userId : string) (offset : Z)
| EvMlItem (itemId : string)
| EvMlPut (itemId : string) (quantity : Z)
| EvWarn (w : Warning)
| EvSleep (ms : Z)
| EvProgress (processed total : Z).

(** The two remote systems and the collaborators of
    [mercadoLibreAuth.js], as transitions of a world [W]: each call
    answers with a payload or fails with an error.  [now] is the clock
    read by [Date.now()]; [verifyMercadoLibreAuth] answers with the [id]
    of the account; [completion_order] is the order in which the items
    of the chunk in flight complete. *)
Record Remote (W : Type) : Type := {
  now : W -> Z;
  erp_auth : W -> (Exn + option string) * W;
  erp_product : string -> W -> (Exn + Json) * W;
  ml_search : string -> Z -> W -> (Exn + SearchPage) * W;
  ml_item : string -> W -> (Exn + MLItem) * W;
  ml_put : string -> Z -> W -> (Exn + unit) * W;
  getAccessToken : W -> (string + string) * W;
  verifyMercadoLibreAuth : W -> (string + string) * W;
  completion_order : W -> list nat
}.

Arguments now {W}.
Arguments erp_auth {W}.
Arguments erp_product {W}.
Arguments ml_search {W}.
Arguments ml_item {W}.
Arguments ml_put {W}.
Arguments getAccessToken {W}.
Arguments verifyMercadoLibreAuth {W}.
Arguments completion_order {W}.

(** The module-level variables of [syncStocksML.js] together with the
    world and the trace. *)
Record St (W : Type) : Type := {
  world : W;
  trace : list Event;
  erpAuthToken : option string;
  erpTokenExpirationTime : option Z;
  mlProductsCache : option Index
}.

Arguments world {W}.
Arguments trace {W}.
Arguments erpAuthToken {W}.
Arguments erpTokenExpirationTime {W}.
Arguments mlProductsCache {W}.

(** ** Computations: state, exceptions, and loops run on fuel *)

Inductive Outcome (A : Type) : Type :=
| Ok (a : A)
| Throw (e : Exn)
| NoFuel.

Arguments Ok {A}.
Arguments Throw {A}.
Arguments NoFuel {A}.

Definition M (S A : Type) : Type := S -> Outcome A * S.

#[global] Instance M_ret {S} : MRet (M S) := fun A a s => (Ok a, s).

#[global] Instance M_bind {S} : MBind (M S) := fun A B k m s =>
  match m s with
  | (Ok a, s') => k a s'
  | (Throw e, s') => (Throw e, s')
  | (NoFuel, s') => (NoFuel, s')
  end.

Definition throw {S A} (e : Exn) : M S A := fun s => (Throw e, s).

Definition no_fuel {S A} : M S A := fun s => (NoFuel, s).

(** [try { m } catch (error) { h error }]. *)
Definition try_catch {S A} (m : M S A) (h : Exn -> M S A) : M S A := fun s =>
  match m s with
  | (Throw e, s') => h e s'
  | r => r
  end.

Fixpoint foldM {S A B} (f : B -> A -> M S B) (l : list A) (acc : B) : M S B :=
  match l with
  | [] => mret acc
  | x :: rest => acc' ← f acc x; foldM f rest acc'
  end.

(** ** JavaScript library functions *)

(** [hay.includes(needle)]. *)
Fixpoint includes (hay needle : string) : bool :=
  String.prefix needle hay ||
  match hay with
  | EmptyString => false
  | String _ rest => includes rest needle
  end.

(** Truthiness of an optional string property. *)
Definition truthy_str (s : option string) : bool :=
  match s with
  | Some s => negb (String.eqb s "")
  | None => false
  end.

(** Truthiness of an optional number. *)
Definition truthy_num (n : option Z) : bool :=
  match n with
  | Some n => negb (n =? 0)
  | None => false
  end.

(** [array.slice(b, e)]: negative positions count from the end. *)
Definition js_slice {A} (l : list A) (b e : Z) : list A :=
  let len := Z.of_nat (length l) in
  let k := if b <? 0 then Z.max (len + b) 0 else Z.min b len in
  let final := if e <? 0 then Z.max (len + e) 0 else Z.min e len in
  take (Z.to_nat (final - k)) (drop (Z.to_nat k) l).

(** ** Scripted worlds *)

(** An HTTP failure as axios raises it. *)
Definition http_error (status : Z) : Exn :=
  {| exn_message := "Request failed with status code " +:+ pretty status;
     exn_status := Some status;
     exn_data_message := None;
     exn_retry_after := None |}.

(** A world whose state counts the product requests the ERP has
    answered; every other answer is fixed.  Credentials are always
    granted. *)
Definition scripted (erp : nat -> string -> Exn + Json)
    (put : string -> Z -> Exn + unit)
    (search : Z -> Exn + SearchPage)
    (item : string -> Exn + MLItem)
    (order : list nat) : Remote nat :=
  {| now := fun _ => 0;
     erp_auth := fun w => (inr (Some "erp-token"), w);
     erp_product := fun sku w => (erp w sku, S w);
     ml_search := fun _ offset w => (search offset, w);
     ml_item := fun id w => (item id, w);
     ml_put := fun id q w => (put id q, w);
     getAccessToken := fun w => (inr "ml-token", w);
     verifyMercadoLibreAuth := fun w => (inr "seller", w);
     completion_order := fun _ => order |}.

(** The state of a freshly started process, with the catalog index
    possibly loaded already. *)
Definition start (cache : option Index) : St nat :=
  {| world := O; trace := []; erpAuthToken := None;
     erpTokenExpirationTime := None; mlProductsCache := cache |}.

Definition listing (sku id : string) (quantity : Z) : MLProduct :=
  {| p_sku := sku; itemId := id; currentStock := quantity;
     p_title := None; p_status := Some "active" |}.

(** [{ data: [ { stock: [[{saldo: q}]] } ] }]. *)
Definition erp_payload (q : Z) : Json :=
  JObj [("data", JArr [JObj [("stock", JArr [JArr [balance (JNum (num q))]])]])].

(** The catalog index with the one listing of SKU ["A"], 7 units. *)
Definition catalog_A : Index := [("A", listing "A" "MLA1" 7)].

(** The catalog index with the one listing of SKU ["A"], 10^21 units. *)
Definition huge_catalog : Index := [("A", listing "A" "MLA1" (10 ^ 21))].

(** The runtime of the scripted worlds: their payloads hold no numeric
    string, and the one number they hold that prints in exponent
    notation is 10^21, [1e+21]. *)
Definition scripted_runtime : Runtime :=
  {| parseFloat_str := fun _ => S754_nan; exponent_head := fun _ => 1 |}.

(** What [getManagerProductBySKU "A"] returns for [erp_payload q]. *)
Definition product_A (q : Z) : ManagerProduct :=
  {| m_sku := JStr "A"; nombre := JStr ""; stock := num q; unidad := JStr "";
     precio := JNum (num 0);
     rawData := JObj [("stock", JArr [JArr [balance (JNum (num q))]])] |}.

(** The state of a fresh process after its first product lookup. *)
Definition after_lookup : St nat :=
  {| world := 1%nat; trace := [EvErpAuth; EvErpProduct "A"];
     erpAuthToken := Some "erp-token";
     erpTokenExpirationTime := Some 3600000;
     mlProductsCache := None |}.

Definition no_page : SearchPage := {| results := Some []; paging_total := Some 0 |}.

Definition default_options : Options :=
  {| dryRun := false; forceUpdate := false; concurrency := None;
     maxRetries := None; retryDelay := None |}.


Definition dry_run_options : Options :=
  {| dryRun := true; forceUpdate := false; concurrency := None;
     maxRetries := None; retryDelay := None |}.

(** An ERP that always reports [q] units, a sink that accepts every
    update, an empty catalog. *)
Definition steady_world (q : Z) (order : list nat) : Remote nat :=
  scripted (fun _ _ => inr (erp_payload q)) (fun _ _ => inr tt)
    (fun _ => inr no_page) (fun _ => inl (http_error 404)) order.

(** An ERP that throttles its first answer and reports the product as
    missing afterwards. *)
Definition throttled_then_missing : Remote nat :=
  scripted (fun n _ => match n with O => inl (http_error 429) | _ => inl (http_error 404) end)
    (fun _ _ => inr tt) (fun _ => inr no_page) (fun _ => inl (http_error 404)) [].

(** An ERP that throttles its first answer and reports 7 units
    afterwards. *)
Definition throttled_then_found : Remote nat :=
  scripted (fun n _ => match n with O => inl (http_error 429) | _ => inr (erp_payload 7) end)
    (fun _ _ => inr tt) (fun _ => inr no_page) (fun _ => inl (http_error 404)) [].

(** A listing whose SKU is carried by its second attribute. *)
Definition tagged_item : MLItem :=
  {| item_id := "MLA1"; seller_custom_field := None;
     attributes :=
       Some [ {| attr_id := Some "BRAND"; value_name := Some "Acme" |};
              {| attr_id := Some "SELLER_SKU"; value_name := Some "A" |} ];
     available_quantity := Some 7; item_title := Some "Widget";
     item_status := Some "active" |}.

(** A listing whose first SKU attribute is empty and whose second one
    is not. *)
Definition twice_tagged_item : MLItem :=
  {| item_id := "MLA4"; seller_custom_field := Some "";
     attributes :=
       Some [ {| attr_id := Some "BRAND"; value_name := Some "Acme" |};
              {| attr_id := Some "SELLER_SKU"; value_name := None |};
              {| attr_id := Some "SELLER_SKU_ID"; value_name := Some "B" |} ];
     available_quantity := Some 1; item_title := None;
     item_status := Some "active" |}.

(** A listing of SKU ["A"] with 9 units under its custom field. *)
Definition second_item : MLItem :=
  {| item_id := "MLA2"; seller_custom_field := Some "A"; attributes := None;
     available_quantity := Some 9; item_title := None;
     item_status := Some "paused" |}.

(** One page of three listings: two of them carry SKU ["A"], the third
    cannot be fetched.  The ERP reports 10 units and the sink accepts
    every update. *)
Definition catalog_world : Remote nat :=
  scripted (fun _ _ => inr (erp_payload 10)) (fun _ _ => inr tt)
    (fun _ => inr {| results := Some ["MLA1"; "MLA2"; "MLA3"];
                     paging_total := Some 3 |})
    (fun id =>
       if String.eqb id "MLA1" then inr tagged_item
       else if String.eqb id "MLA2" then inr second_item
       else inl (http_error 500))
    [].

(** An ERP that knows no product. *)
Definition missing_world : Remote nat :=
  scripted (fun _ _ => inl (http_error 404)) (fun _ _ => inr tt)
    (fun _ => inr no_page) (fun _ => inl (http_error 404)) [].

(** A sink that throttles every update; the ERP reports 10 units. *)
Definition throttling_sink : Remote nat :=
  scripted (fun _ _ => inr (erp_payload 10)) (fun _ _ => inl (http_error 429))
    (fun _ => inr no_page) (fun _ => inl (http_error 404)) [].

(** Mercado Libre refuses the credentials. *)
Definition locked_out : Remote nat :=
  {| now := fun _ => 0;
     erp_auth := fun w => (inr (Some "erp-token"), w);
     erp_product := fun _ w => (inr (erp_payload 10), S w);
     ml_search := fun _ _ w => (inr no_page, w);
     ml_item := fun _ w => (inl (http_error 404), w);
     ml_put := fun _ _ w => (inr tt, w);
     getAccessToken := fun w => (inl "No hay tokens", w);
     verifyMercadoLibreAuth := fun w => (inl "No autorizado", w);
     completion_order := fun _ => [] |}.

(** The state of a fresh process once it has authenticated with the
    ERP. *)
Definition after_login : St nat :=
  {| world := O; trace := [EvErpAuth]; erpAuthToken := Some "erp-token";
     erpTokenExpirationTime := Some 3600000; mlProductsCache := None |}.

(** A summary after a first pass: ["A"] in step, ["B"] throttled. *)
Definition first_pass_summary : RunResult :=
  {| total := 2; updated_count := 0; skipped_count := 0; errors_count := 1;
     noChange_count := 1;
     details :=
       [ {| sku := "A"; success := true; action := no_change; error := None;
            managerStock := Some 7; mlStock := Some 7; newStock := None;
            message := Some "Stocks ya están sincronizados" |};
         {| sku := "B"; success := false; action := error_action;
            error := Some "Rate limit alcanzado en Manager+ (429). Reduce la concurrencia.";
            managerStock := None; mlStock := None; newStock := None;
            message := None |} ] |}.

(** No argument of the scripted command lines is numeric. *)
Definition no_numbers : string -> option Z := fun _ => None.


(** ** The engine *)

Section Engine.

Context {W : Type}.

(** The runtime, the remote world, and the environment variable
    [MERCADOLIBRE_USER_ID]. *)
Variable js : Runtime.
Variable env : Remote W.
Variable ML_USER_ID : option string.

Abbreviation Comp := (M (St W)).

Definition emit (ev : Event) : Comp unit := fun st =>
  (Ok tt,
   {| world := world st; trace := trace st ++ [ev];
      erpAuthToken := erpAuthToken st;
      erpTokenExpirationTime := erpTokenExpirationTime st;
      mlProductsCache := mlProductsCache st |}).

(** A call to the outside: it is traced, then the world answers. *)
Definition remote {A} (ev : Event) (f : W -> A * W) : Comp A := fun st =>
  let (a, w') := f (world st) in
  (Ok a,
   {| world := w'; trace := trace st ++ [ev];
      erpAuthToken := erpAuthToken st;
      erpTokenExpirationTime := erpTokenExpirationTime st;
      mlProductsCache := mlProductsCache st |}).

(** An axios request: a failed request throws. *)
Definition axios {A} (ev : Event) (f : W -> (Exn + A) * W) : Comp A :=
  r ← remote ev f;
  match r with
  | inl e => throw e
  | inr a => mret a
  end.

(** A collaborator of [mercadoLibreAuth.js]: it returns or throws
    [new Error(message)]. *)
Definition collaborator {A} (ev : Event) (f : W -> (string + A) * W) : Comp A :=
  r ← remote ev f;
  match r with
  | inl msg => throw (Error msg)
  | inr a => mret a
  end.

Definition Date_now : Comp Z := fun st => (Ok (now env (world st)), st).

Definition warn (w : Warning) : Comp unit := emit (EvWarn w).

(** [await new Promise(resolve => setTimeout(resolve, ms))]. *)
Definition sleep (ms : Z) : Comp unit := emit (EvSleep ms).

(** The progress line [processInParallel] writes to the standard output
    after each chunk: [Procesando: processed/total productos...]. *)
Definition progress (processed total : Z) : Comp unit :=
  emit (EvProgress processed total).

Definition set_erp_token (token : option string) (expiration : Z) : Comp unit :=
  fun st =>
  (Ok tt,
   {| world := world st; trace := trace st;
      erpAuthToken := token;
      erpTokenExpirationTime := Some expiration;
      mlProductsCache := mlProductsCache st |}).

Definition set_mlProductsCache (productMap : Index) : Comp unit := fun st =>
  (Ok tt,
   {| world := world st; trace := trace st;
      erpAuthToken := erpAuthToken st;
      erpTokenExpirationTime := erpTokenExpirationTime st;
      mlProductsCache := Some productMap |}).

Definition get_state : Comp (St W) := fun st => (Ok st, st).

(** *** ERP side *)

Definition authenticateWithERP : Comp (option string) :=
  try_catch
    (token ← axios EvErpAuth (erp_auth env);
     t ← Date_now;
     _ ← set_erp_token token (t + 60 * 60 * 1000);
     mret token)
    (fun error =>
       throw (Error ("Error al autenticarse con el ERP: " +:+
                     (if truthy_str (exn_data_message error)
                      then default "" (exn_data_message error)
                      else exn_message error)))).

Definition getERPAuthToken : Comp (option string) :=
  st ← get_state;
  t ← Date_now;
  if truthy_str (erpAuthToken st) && truthy_num (erpTokenExpirationTime st)
     && (t <? default 0 (erpTokenExpirationTime st))
  then mret (erpAuthToken st)
  else authenticateWithERP.

Definition TypeError_null (property : string) : Exn :=
  Error ("Cannot read properties of null (reading '" +:+ property +:+ "')").

Definition getManagerProductBySKU (sku : string) : Comp (option ManagerProduct) :=
  try_catch
    (token ← getERPAuthToken;
     data ← axios (EvErpProduct sku) (erp_product env sku);
     match data with
     | JNull => throw (TypeError_null "data")
     | _ =>
         let productData := js_or (prop data "data") data in
         match productData with
         | JArr [] => mret None
         | _ =>
             if negb (truthy (Some productData)) then mret None
             else
               let product :=
                 match productData with
                 | JArr (first :: _) => first
                 | _ => productData
                 end in
               match product with
               | JNull => throw (TypeError_null "stock")
               | _ =>
                   mret (Some
                     {| m_sku :=
                          js_or (prop product "codigo_prod")
                            (js_or (prop product "cod_producto")
                               (js_or (prop product "codigo") (JStr sku)));
                        nombre :=
                          js_or (prop product "nombre")
                            (js_or (prop product "descripcion")
                               (js_or (prop product "descrip") (JStr "")));
                        stock := extractStockFromProduct js product;
                        unidad :=
                          js_or (prop product "unidadstock")
                            (js_or (prop product "unidad") (JStr ""));
                        precio :=
                          js_or (prop product "precio")
                            (js_or (prop product "precio_unit") (JNum (num 0)));
                        rawData := product |})
               end
         end
     end)
    (fun error =>
       match exn_status error with
       | Some 404 => mret None
       | Some 429 =>
           throw (Error "Rate limit alcanzado en Manager+ (429). Reduce la concurrencia.")
       | Some status =>
           if 500 <=? status
           then throw (Error ("Error del servidor Manager+ (" +:+ pretty status
                              +:+ "). Puede estar sobrecargado."))
           else throw error
       | None => throw error
       end).

(** *** Mercado Libre side *)

Definition is_seller_sku (attr : MLAttr) : bool :=
  match attr_id attr with
  | Some id => String.eqb id "SELLER_SKU" || String.eqb id "SELLER_SKU_ID"
  | None => false
  end.

Definition resolveSkuFromMLItem (item : MLItem) : option string :=
  if truthy_str (seller_custom_field item) then seller_custom_field item
  else
    match attributes item with
    | Some attrs =>
        match List.find is_seller_sku attrs with
        | Some skuAttr =>
            if truthy_str (value_name skuAttr) then value_name skuAttr else None
        | None => None
        end
    | None => None
    end.

(** The page size of the catalog scan. *)
Definition limit : Z := 50.

(** The body of [for (const itemId of itemIds)], with its own
    [try/catch]: a listing that cannot be fetched is skipped. *)
Definition load_item (acc : Index * list (string * option string)) (id : string)
  : Comp (Index * list (string * option string)) :=
  let '(productMap, itemsWithoutSKU) := acc in
  try_catch
    (item ← axios (EvMlItem id) (ml_item env id);
     match resolveSkuFromMLItem item with
     | None =>
         mret (productMap,
               (itemsWithoutSKU ++ [(item_id item, item_title item)])%list)
     | Some sku =>
         if negb (map_has sku productMap)
         then mret (map_set sku
                      {| p_sku := sku;
                         itemId := item_id item;
                         currentStock :=
                           if truthy_num (available_quantity item)
                           then default 0 (available_quantity item) else 0;
                         p_title := item_title item;
                         p_status := item_status item |} productMap,
                    itemsWithoutSKU)
         else mret (productMap, itemsWithoutSKU)
     end)
    (fun error =>
       _ ← warn (WarnItemFetchFailed id (exn_message error));
       mret (productMap, itemsWithoutSKU)).

(** [while (hasMore)]: one page per iteration. *)
Fixpoint load_pages (fuel : nat) (userId : string) (offset : Z)
    (acc : Index * list (string * option string))
  : Comp (Index * list (string * option string)) :=
  match fuel with
  | O => no_fuel
  | S fuel' =>
      page ← axios (EvMlSearch userId offset) (ml_search env userId offset);
      let itemIds := default [] (results page) in
      if Z.of_nat (length itemIds) =? 0 then mret acc
      else
        acc' ← foldM load_item itemIds acc;
        let total :=
          if truthy_num (paging_total page) then default 0 (paging_total page)
          else 0 in
        if (total <=? offset + Z.of_nat (length itemIds))
           || (Z.of_nat (length itemIds) <? limit)
        then mret acc'
        else load_pages fuel' userId (offset + limit) acc'
  end.

Definition loadAllMercadoLibreProducts (fuel : nat) : Comp Index :=
  st ← get_state;
  match mlProductsCache st with
  | Some cached => mret cached
  | None =>
      try_catch
        (token ← collaborator EvAccessToken (getAccessToken env);
         userId ←
           (if truthy_str ML_USER_ID then mret (default "" ML_USER_ID)
            else collaborator EvVerifyAuth (verifyMercadoLibreAuth env));
         '(productMap, itemsWithoutSKU) ← load_pages fuel userId 0 ([], []);
         _ ← set_mlProductsCache productMap;
         _ ← (if 0 <? Z.of_nat (length itemsWithoutSKU)
              then warn (WarnItemsWithoutSKU (length itemsWithoutSKU))
              else mret tt);
         mret productMap)
        (fun error => throw error)
  end.

Definition getMercadoLibreProductStockBySKU (fuel : nat) (sku : string)
    (productsMap : option Index) : Comp (option MLProduct) :=
  try_catch
    (productsMap ←
       match productsMap with
       | None => loadAllMercadoLibreProducts fuel
       | Some m => mret m
       end;
     mret (map_get sku productsMap))
    (fun error => throw error).

Definition updateMercadoLibreStock (itemId : string) (quantity : Z) : Comp unit :=
  try_catch
    (token ← collaborator EvAccessToken (getAccessToken env);
     axios (EvMlPut itemId quantity) (ml_put env itemId quantity))
    (fun error =>
       match exn_status error with
       | Some 429 =>
           throw (Error
             (if truthy_str (exn_retry_after error)
              then "Rate limit de Mercado Libre alcanzado. Espera " +:+
                   default "" (exn_retry_after error) +:+
                   " segundos antes de continuar."
              else "Rate limit de Mercado Libre alcanzado (429). Reduce la concurrencia o espera un momento."))
       | Some status =>
           if 500 <=? status
           then throw (Error ("Error del servidor Mercado Libre (" +:+ pretty status
                              +:+ "). Puede estar sobrecargado."))
           else throw error
       | None => throw error
       end).

(** *** The decision for one SKU *)

Definition error_result (sku : string) (msg : string) : SyncResult :=
  {| sku := sku; success := false; action := error_action; error := Some msg;
     managerStock := None; mlStock := None; newStock := None; message := None |}.

Definition skipped_result (sku : string) (msg : string) : SyncResult :=
  {| sku := sku; success := false; action := skipped; error := Some msg;
     managerStock := None; mlStock := None; newStock := None; message := None |}.

Definition no_change_result (sku : string) (managerStock mlStock : Z) : SyncResult :=
  {| sku := sku; success := true; action := no_change; error := None;
     managerStock := Some managerStock; mlStock := Some mlStock;
     newStock := None; message := Some "Stocks ya están sincronizados" |}.

Definition would_update_result (sku : string) (managerStock mlStock : Z) : SyncResult :=
  {| sku := sku; success := true; action := would_update; error := None;
     managerStock := Some managerStock; mlStock := Some mlStock;
     newStock := Some managerStock;
     message := Some "Dry run: no se realizaron cambios" |}.

Definition updated_result (sku : string) (managerStock mlStock : Z) : SyncResult :=
  {| sku := sku; success := true; action := updated; error := None;
     managerStock := Some managerStock; mlStock := Some mlStock;
     newStock := Some managerStock;
     message := Some "Stock actualizado exitosamente" |}.

(** [try { m } catch (error) { ... }] seen from the code after it: the
    value or the caught error. *)
Definition attempt {A} (m : Comp A) : Comp (Exn + A) :=
  try_catch (a ← m; mret (inr a)) (fun error => mret (inl error)).

(** [parseInt(managerProduct.stock) || 0]: the quantity the decision
    compares, reports as [managerStock] and sends. *)
Definition quantity_of (managerProduct : ManagerProduct) : Z :=
  num_or_0 (parseInt js (stock managerProduct)).

Definition syncProductStock (fuel : nat) (sku : string) (options : Options)
    (mlProductsMap : option Index) : Comp SyncResult :=
  try_catch
    (r ← attempt (getManagerProductBySKU sku);
     match r with
     | inl error => mret (error_result sku (exn_message error))
     | inr None => mret (skipped_result sku "Producto no encontrado en Manager+")
     | inr (Some managerProduct) =>
         mlProduct ← getMercadoLibreProductStockBySKU fuel sku mlProductsMap;
         match mlProduct with
         | None =>
             mret (skipped_result sku "Producto no encontrado en Mercado Libre")
         | Some mlProduct =>
             let managerStock := quantity_of managerProduct in
             let mlStock := currentStock mlProduct in
             if (managerStock =? mlStock) && negb (forceUpdate options)
             then mret (no_change_result sku managerStock mlStock)
             else if dryRun options
             then mret (would_update_result sku managerStock mlStock)
             else
               _ ← updateMercadoLibreStock (itemId mlProduct) managerStock;
               mret (updated_result sku managerStock mlStock)
         end
     end)
    (fun error => mret (error_result sku (exn_message error))).

(** *** Bounded parallel execution *)

(** [Promise.all(chunk.map(processor))].  All items of the chunk are in
    flight together and settle in an order the world decides
    ([completion_order], positions in the chunk); an item the order does
    not name settles after the named ones, and a position named twice
    settles once.  Each item is run to its end in its turn.  The
    resulting array is indexed by position in the chunk, whatever the
    order of settlement.  A rejection rejects the whole chunk, and the
    items that have not had their turn are not run. *)
Definition settle {A} (processor : string -> Comp A) (chunk : list string)
    (slots : list (option A)) (i : nat) : Comp (list (option A)) :=
  match chunk !! i, slots !! i with
  | Some sku, Some None => r ← processor sku; mret (<[i := Some r]> slots)
  | _, _ => mret slots
  end.

Fixpoint await_all {A} (processor : string -> Comp A)
    (pending : list (string * option A)) : Comp (list A) :=
  match pending with
  | [] => mret []
  | (_, Some r) :: rest => rs ← await_all processor rest; mret (r :: rs)
  | (sku, None) :: rest =>
      r ← processor sku; rs ← await_all processor rest; mret (r :: rs)
  end.

Definition Promise_all {A} (processor : string -> Comp A) (chunk : list string)
  : Comp (list A) :=
  st ← get_state;
  slots ← foldM (settle processor chunk) (completion_order env (world st))
          (replicate (length chunk) None);
  await_all processor (zip chunk slots).

Definition is_rate_limit_error (r : SyncResult) : bool :=
  match error r with
  | Some e => truthy_str (Some e) && (includes e "Rate limit" || includes e "429")
  | None => false
  end.

Definition MAX_RATE_LIMIT_ERRORS : Z := 5.

(** The [for (let i = 0; i < array.length; i += concurrency)] loop of
    [processInParallel], from position [i] on. *)
Fixpoint process_chunks (fuel : nat) (array : list string)
    (processor : string -> Comp SyncResult) (concurrency : Z)
    (i : Z) (results : list SyncResult) (rateLimitErrors : Z)
  : Comp (list SyncResult) :=
  if i <? Z.of_nat (length array) then
    match fuel with
    | O => no_fuel
    | S fuel' =>
        let chunk := js_slice array i (i + concurrency) in
        '(results', rateLimitErrors') ←
          try_catch
            (chunkResults ← Promise_all processor chunk;
             let chunkRateLimitErrors :=
               Z.of_nat (length (filter (fun r => is_rate_limit_error r = true)
                                   chunkResults)) in
             _ ← (if MAX_RATE_LIMIT_ERRORS <=? rateLimitErrors + chunkRateLimitErrors
                  then warn (WarnRateLimitErrors (Z.max 1 (concurrency / 2)))
                  else mret tt);
             mret ((results ++ chunkResults)%list,
                   rateLimitErrors + chunkRateLimitErrors))
            (fun error =>
               if truthy_str (Some (exn_message error))
                  && includes (exn_message error) "Rate limit"
               then
                 _ ← warn WarnRateLimitPause;
                 _ ← sleep 2000;
                 mret (results, rateLimitErrors)
               else throw error);
        _ ← progress (Z.min (i + concurrency) (Z.of_nat (length array)))
              (Z.of_nat (length array));
        process_chunks fuel' array processor concurrency (i + concurrency)
          results' rateLimitErrors'
    end
  else mret results.

Definition processInParallel (fuel : nat) (array : list string)
    (processor : string -> Comp SyncResult) (concurrency : Z)
  : Comp (list SyncResult) :=
  process_chunks fuel array processor concurrency 0 [] 0.

(** *** A whole run *)

Definition MAX_RECOMMENDED_CONCURRENCY : Z := 20.
Definition ABSOLUTE_MAX_CONCURRENCY : Z := 50.

(** The first [forEach] over [results.details]. *)
Definition tally (results : RunResult) (result : SyncResult) : RunResult :=
  if success result then
    match action result with
    | updated | would_update =>
        {| total := total results; updated_count := updated_count results + 1;
           skipped_count := skipped_count results;
           errors_count := errors_count results;
           noChange_count := noChange_count results;
           details := details results |}
    | no_change =>
        {| total := total results; updated_count := updated_count results;
           skipped_count := skipped_count results;
           errors_count := errors_count results;
           noChange_count := noChange_count results + 1;
           details := details results |}
    | _ =>
        {| total := total results; updated_count := updated_count results;
           skipped_count := skipped_count results + 1;
           errors_count := errors_count results;
           noChange_count := noChange_count results;
           details := details results |}
    end
  else
    {| total := total results; updated_count := updated_count results;
       skipped_count := skipped_count results;
       errors_count := errors_count results + 1;
       noChange_count := noChange_count results;
       details := details results |}.

(** The filter that selects what is retried. *)
Definition retryable (r : SyncResult) : bool :=
  negb (success r)
  && bool_decide (action r = error_action)
  && truthy_str (error r)
  && negb (includes (default "" (error r)) "no encontrado")
  && negb (includes (default "" (error r)) "skipped").

(** The body of [retryProcessedResults.forEach]: the result of a retry
    replaces the first detail with the same SKU, and the counters move
    when a failed detail is replaced by a successful one. *)
Definition apply_retry (results : RunResult) (retryResult : SyncResult) : RunResult :=
  match list_find (fun r => sku r = sku retryResult) (details results) with
  | Some (originalIndex, originalResult) =>
      let wasError :=
        negb (success originalResult)
        && bool_decide (action originalResult = error_action) in
      let details' := <[originalIndex := retryResult]> (details results) in
      if success retryResult && wasError then
        match action retryResult with
        | updated | would_update =>
            {| total := total results;
               updated_count := updated_count results + 1;
               skipped_count := skipped_count results;
               errors_count := errors_count results - 1;
               noChange_count := noChange_count results;
               details := details' |}
        | no_change =>
            {| total := total results;
               updated_count := updated_count results;
               skipped_count := skipped_count results;
               errors_count := errors_count results - 1;
               noChange_count := noChange_count results + 1;
               details := details' |}
        | skipped =>
            {| total := total results;
               updated_count := updated_count results;
               skipped_count := skipped_count results + 1;
               errors_count := errors_count results - 1;
               noChange_count := noChange_count results;
               details := details' |}
        | error_action =>
            {| total := total results;
               updated_count := updated_count results;
               skipped_count := skipped_count results;
               errors_count := errors_count results - 1;
               noChange_count := noChange_count results;
               details := details' |}
        end
      else
        {| total := total results;
           updated_count := updated_count results;
           skipped_count := skipped_count results;
           errors_count := errors_count results;
           noChange_count := noChange_count results;
           details := details' |}
  | None => results
  end.

(** The processor both passes hand to [processInParallel]. *)
Definition process_sku (fuel : nat) (options : Options) (mlProductsMap : Index)
    (sku : string) : Comp SyncResult :=
  try_catch (syncProductStock fuel sku options (Some mlProductsMap))
    (fun error => mret (error_result sku (exn_message error))).

(** [while (remainingFailures.length > 0 && retryAttempt <= maxRetries)]. *)
Fixpoint retry_loop (fuel : nat) (inner_fuel : nat) (options : Options)
    (mlProductsMap : Index) (concurrency maxRetries retryDelay : Z)
    (retryAttempt : Z) (remainingFailures : list SyncResult)
    (results : RunResult) : Comp RunResult :=
  if (0 <? Z.of_nat (length remainingFailures)) && (retryAttempt <=? maxRetries) then
    match fuel with
    | O => no_fuel
    | S fuel' =>
        let retryConcurrency := Z.max 2 (concurrency / 2) in
        let failedSkus := map sku remainingFailures in
        retryProcessedResults ←
          processInParallel inner_fuel failedSkus
            (process_sku inner_fuel options mlProductsMap) retryConcurrency;
        let results' := fold_left apply_retry retryProcessedResults results in
        let remainingFailures' :=
          filter (fun r => retryable r = true) retryProcessedResults in
        _ ← (if (0 <? Z.of_nat (length remainingFailures'))
                && (retryAttempt <? maxRetries)
             then sleep retryDelay else mret tt);
        retry_loop fuel' inner_fuel options mlProductsMap concurrency maxRetries
          retryDelay (retryAttempt + 1) remainingFailures' results'
    end
  else mret results.

(** [options.concurrency || 5]. *)
Definition requested_concurrency (options : Options) : Z :=
  if truthy_num (concurrency options) then default 0 (concurrency options) else 5.

(** "Validar y limitar concurrencia": the value used and the warning
    printed, if any. *)
Definition limit_concurrency (requested : Z) : Z * option Warning :=
  if ABSOLUTE_MAX_CONCURRENCY <? requested
  then (ABSOLUTE_MAX_CONCURRENCY, Some (WarnConcurrencyCapped requested))
  else if MAX_RECOMMENDED_CONCURRENCY <? requested
  then (requested, Some (WarnConcurrencyHigh requested))
  else (requested, None).

Definition syncMultipleProducts (fuel : nat) (skus : list string)
    (options : Options) : Comp RunResult :=
  let results :=
    {| total := Z.of_nat (length skus); updated_count := 0; skipped_count := 0;
       errors_count := 0; noChange_count := 0; details := [] |} in
  let '(concurrency, warning) := limit_concurrency (requested_concurrency options) in
  _ ← match warning with Some w => warn w | None => mret tt end;
  try_catch
    (_ ← collaborator EvVerifyAuth (verifyMercadoLibreAuth env);
     mlProductsMap ← loadAllMercadoLibreProducts fuel;
     processedResults ←
       processInParallel fuel skus (process_sku fuel options mlProductsMap)
         concurrency;
     let results :=
       {| total := total results; updated_count := updated_count results;
          skipped_count := skipped_count results;
          errors_count := errors_count results;
          noChange_count := noChange_count results;
          details := processedResults |} in
     let results := fold_left tally (details results) results in
     let failedProducts :=
       filter (fun r => retryable r = true) (details results) in
     if (0 <? Z.of_nat (length failedProducts)) && negb (dryRun options) then
       let maxRetries := default 3 (maxRetries options) in
       let retryDelay := default 2000 (retryDelay options) in
       _ ← sleep retryDelay;
       retry_loop fuel fuel options mlProductsMap concurrency maxRetries
         retryDelay 1 failedProducts results
     else mret results)
    (fun error => throw error).

Definition no_listing_message : string :=
  "No hay publicaciones con SKU configurado en Mercado Libre. Configura seller_custom_field o el atributo SELLER_SKU para cada publicación.".

Definition syncAllProducts (fuel : nat) (options : Options) : Comp RunResult :=
  try_catch
    (mlProductsMap ← loadAllMercadoLibreProducts fuel;
     let skus := map_keys mlProductsMap in
     if Z.of_nat (length skus) =? 0
     then throw (Error no_listing_message)
     else syncMultipleProducts fuel skus options)
    (fun error => throw error).

(** *** The batch guard of [POST /api/sync/stocks] ([server.js]) *)

(** [req.body.skus] when it is not an array. *)
Inductive NonArray : Type :=
| NUndefined | NNull | NBool (b : bool) | NNum (n : Z) | NStr (s : string)
| NObject.

Inductive BatchArg : Type :=
| NotAnArray (v : NonArray)
| SkuArray (skus : list string).

Definition batch_truthy (skus : BatchArg) : bool :=
  match skus with
  | NotAnArray NUndefined | NotAnArray NNull => false
  | NotAnArray (NBool b) => b
  | NotAnArray (NNum n) => negb (n =? 0)
  | NotAnArray (NStr s) => negb (String.eqb s "")
  | NotAnArray NObject | SkuArray _ => true
  end.

Definition batch_isArray (skus : BatchArg) : bool :=
  match skus with SkuArray _ => true | NotAnArray _ => false end.

Definition batch_items (skus : BatchArg) : list string :=
  match skus with SkuArray l => l | NotAnArray _ => [] end.

Record HttpReply : Type := {
  http_status : Z;
  reply_success : bool;
  reply_error : option string;
  reply_results : option RunResult
}.

Definition bad_request : HttpReply :=
  {| http_status := 400; reply_success := false;
     reply_error := Some "Se requiere un array de SKUs en el body";
     reply_results := None |}.

Definition post_sync_stocks (fuel : nat) (skus : BatchArg) (dryRun : bool)
  : Comp HttpReply :=
  try_catch
    (if negb (batch_truthy skus) || negb (batch_isArray skus)
        || (Z.of_nat (length (batch_items skus)) =? 0)
     then mret bad_request
     else
       results ← syncMultipleProducts fuel (batch_items skus)
                   {| dryRun := dryRun; forceUpdate := false;
                      concurrency := None; maxRetries := None;
                      retryDelay := None |};
       mret {| http_status := 200; reply_success := true;
               reply_error := None; reply_results := Some results |})
    (fun error =>
       mret {| http_status := 500; reply_success := false;
               reply_error := Some (exn_message error);
               reply_results := None |}).

(** *** Reading the trace *)

(** The sink updates sent, oldest first. *)
Definition puts (t : list Event) : list (string * Z) :=
  omap (fun ev => match ev with EvMlPut id q => Some (id, q) | _ => None end) t.

Definition is_put (ev : Event) : Prop :=
  match ev with EvMlPut _ _ => True | _ => False end.

Definition not_put (ev : Event) : Prop := ~ is_put ev.

(** [st'] is [st] after more events, all of them satisfying [P]. *)
Definition extends (P : Event -> Prop) (st st' : St W) : Prop :=
  exists t, trace st' = (trace st ++ t)%list /\ Forall P t.

(** Whatever the outcome, [m] only adds events satisfying [P]. *)
Definition keeps {A} (P : Event -> Prop) (m : Comp A) : Prop :=
  forall st, extends P st (m st).2.

(** [m] does not throw, and a value it returns satisfies [Q]. *)
Definition yields {A} (m : Comp A) (Q : A -> Prop) : Prop :=
  forall st,
    match (m st).1 with
    | Ok a => Q a
    | Throw _ => False
    | NoFuel => True
    end.

(** A value [m] returns satisfies [Q]. *)
Definition returns {A} (m : Comp A) (Q : A -> Prop) : Prop :=
  forall st,
    match (m st).1 with
    | Ok a => Q a
    | _ => True
    end.

(** What every result of [syncProductStock sku] looks like. *)
Definition result_for (s : string) (r : SyncResult) : Prop :=
  sku r = s /\
  (success r = true -> action r <> skipped /\ action r <> error_action).

(** The invariant of the summary of a run over [skus]. *)
Definition consistent (skus : list string) (results : RunResult) : Prop :=
  total results = Z.of_nat (length skus)
  /\ sku <$> details results = skus
  /\ updated_count results + noChange_count results
     + skipped_count results + errors_count results = total results.

(** The steps of [syncProductStock] after both lookups have answered
    (points 3 and 4 of its body), spelled out on outcomes; see
    [syncProductStock_found]. *)
Definition decide_found (sku : string) (options : Options)
    (mp : ManagerProduct) (mlp : MLProduct) (st2 : St W)
  : Outcome SyncResult * St W :=
  if (quantity_of mp =? currentStock mlp) && negb (forceUpdate options)
  then (Ok (no_change_result sku (quantity_of mp) (currentStock mlp)), st2)
  else if dryRun options
  then (Ok (would_update_result sku (quantity_of mp) (currentStock mlp)), st2)
  else
    match updateMercadoLibreStock (itemId mlp) (quantity_of mp) st2 with
    | (Ok _, st3) =>
        (Ok (updated_result sku (quantity_of mp) (currentStock mlp)), st3)
    | (Throw error, st3) => (Ok (error_result sku (exn_message error)), st3)
    | (NoFuel, st3) => (NoFuel, st3)
    end.

(** A slot of [Promise_all] is empty or holds a result for the SKU at
    its position. *)
Definition slot_ok {A} (Q : string -> A -> Prop) (s : string)
    (slot : option A) : Prop :=
  match slot with Some r => Q s r | None => True end.

(** The sum of the four counters. *)
Definition counted (results : RunResult) : Z :=
  updated_count results + noChange_count results
  + skipped_count results + errors_count results.

Definition any_event (ev : Event) : Prop := True.

Definition empty_summary : RunResult :=
  {| total := 0; updated_count := 0; skipped_count := 0; errors_count := 0;
     noChange_count := 0; details := [] |}.

(** [m] sends at most [n] updates to the sink. *)
Definition adds {A} (n : nat) (m : Comp A) : Prop :=
  forall st,
    (length (puts (trace (m st).2)) <= length (puts (trace st)) + n)%nat.

(** The slots of [Promise_all] that are still empty. *)
Fixpoint free {A} (slots : list (option A)) : nat :=
  match slots with
  | [] => O
  | None :: rest => S (free rest)
  | Some _ :: rest => free rest
  end.

(** [m] does not stop for lack of fuel. *)
Definition finishes {A} (m : Comp A) : Prop :=
  forall st, (m st).1 <> NoFuel.

(** An index as the scan builds it: no SKU twice, every entry stored
    under its own SKU, no empty SKU. *)
Definition index_ok (m : Index) : Prop :=
  NoDup (map_keys m)
  /\ Forall (fun kv => p_sku kv.2 = kv.1 /\ kv.1 <> "") m.

(** [m] is [m0] with entries added: what [m0] holds is still there, and
    a well-formed [m0] gives a well-formed [m]. *)
Definition index_extends (m0 m : Index) : Prop :=
  (index_ok m0 -> index_ok m)
  /\ (forall k v, map_get k m0 = Some v -> map_get k m = Some v).


(** The state once the world has answered the request [ev]. *)
Definition answered (ev : Event) (w' : W) (st : St W) : St W :=
  {| world := w'; trace := trace st ++ [ev];
     erpAuthToken := erpAuthToken st;
     erpTokenExpirationTime := erpTokenExpirationTime st;
     mlProductsCache := mlProductsCache st |}.


(** A result whose success flag and action agree. *)
Definition settled (r : SyncResult) : Prop :=
  success r = true -> action r <> skipped /\ action r <> error_action.


(** *** [GET /api/sync/stocks] ([server.js]) *)

(** The reply of the GET route; a query parameter is modelled as given
    at most once, so it is absent or a string. *)
Record GetReply : Type := {
  get_status : Z;
  get_success : bool;
  get_error : option string;
  get_dryRun : option bool;
  get_results : option RunResult;
  get_result : option SyncResult
}.

(** [v === 'true' || v === true] on a query string. *)
Definition query_is_true (v : option string) : bool :=
  match v with Some s => String.eqb s "true" | None => false end.

(** The double quote character, for messages that quote a name. *)
Definition dquote : string := String (Ascii.ascii_of_nat 34) EmptyString.

Definition missing_parameter : GetReply :=
  {| get_status := 400; get_success := false;
     get_error :=
       Some ("Se requiere el parámetro " +:+ dquote +:+ "sku" +:+ dquote
             +:+ " o " +:+ dquote +:+ "all=true" +:+ dquote);
     get_dryRun := None; get_results := None; get_result := None |}.

Definition get_sync_stocks (fuel : nat) (sku all dryRun : option string)
  : Comp GetReply :=
  let isDryRun := query_is_true dryRun in
  let options :=
    {| dryRun := isDryRun; forceUpdate := false; concurrency := None;
       maxRetries := None; retryDelay := None |} in
  try_catch
    (if query_is_true all then
       results ← syncAllProducts fuel options;
       mret {| get_status := 200; get_success := true; get_error := None;
               get_dryRun := Some isDryRun; get_results := Some results;
               get_result := None |}
     else if truthy_str sku then
       result ← syncProductStock fuel (default "" sku) options None;
       mret {| get_status := 200; get_success := success result;
               get_error := None; get_dryRun := Some isDryRun;
               get_results := None; get_result := Some result |}
     else mret missing_parameter)
    (fun error =>
       mret {| get_status := 500; get_success := false;
               get_error := Some (exn_message error);
               get_dryRun := None; get_results := None; get_result := None |}).


(** *** Kinds of events *)

(** The requests of the ERP lookup for [sku]. *)
Definition erp_event (sku : string) (ev : Event) : Prop :=
  ev = EvErpAuth \/ ev = EvErpProduct sku.

(** What the catalog scan sends: credential requests, searches, reads of
    listings and warnings. *)
Definition scan_event (ev : Event) : Prop :=
  match ev with
  | EvAccessToken | EvVerifyAuth | EvMlSearch _ _ | EvMlItem _ | EvWarn _ => True
  | _ => False
  end.

Definition is_update (ev : Event) : bool :=
  match ev with EvMlPut _ _ => true | _ => false end.

Definition is_erp_product (ev : Event) : bool :=
  match ev with EvErpProduct _ => true | _ => false end.

Definition is_pause (ev : Event) : bool :=
  match ev with EvSleep _ => true | _ => false end.

(** The number of events of [t] that [f] selects. *)
Definition count_events (f : Event -> bool) (t : list Event) : nat :=
  length (List.filter f t).

(** [m] adds at most [n] events that [f] selects. *)
Definition sends {A} (f : Event -> bool) (n : nat) (m : Comp A) : Prop :=
  forall st,
    (count_events f (trace (m st).2) <= count_events f (trace st) + n)%nat.


(** *** The command line ([require.main === module]) *)

(** [arg.startsWith(p)]. *)
Definition startsWith (arg p : string) : bool := String.prefix p arg.

(** [s.split(sep)] for a separator of one character. *)
Fixpoint split_on (sep : Ascii.ascii) (s : string) : list string :=
  match s with
  | EmptyString => [EmptyString]
  | String c rest =>
      if Ascii.eqb c sep then EmptyString :: split_on sep rest
      else
        match split_on sep rest with
        | first :: others => String c first :: others
        | [] => [String c EmptyString]
        end
  end.

(** The character [=]. *)
Definition equals_sign : Ascii.ascii := Ascii.ascii_of_nat 61.

(** [args.includes(flag)]. *)
Definition has_flag (flag : string) (args : list string) : bool :=
  bool_decide (flag ∈ args).

(** [parseInt(args.find(arg => arg.startsWith(name)).split('=')[1])],
    [None] when no argument starts with [name] or the value is [NaN];
    [parseInt_str] is [parseInt] on strings, [None] being [NaN]. *)
Definition numeric_flag (parseInt_str : string -> option Z) (name : string)
    (args : list string) : option Z :=
  match List.find (fun arg => startsWith arg name) args with
  | Some arg =>
      match split_on equals_sign arg !! 1%nat with
      | Some value => parseInt_str value
      | None => None
      end
  | None => None
  end.

(** A parsed value is kept when [accept] holds of it. *)
Definition checked (accept : Z -> bool) (v : option Z) : option Z :=
  match v with
  | Some n => if accept n then Some n else None
  | None => None
  end.

(** The options the engine reads off the object the command line builds.
    That object has the keys [dryRun], [force], [all] and, when given and
    valid, [concurrency], [maxRetries] and [retryDelay]; it has no key
    [forceUpdate], the one [syncProductStock] reads. *)
Definition cli_options (parseInt_str : string -> option Z)
    (args : list string) : Options :=
  {| dryRun := has_flag "--dry-run" args;
     forceUpdate := false;
     concurrency :=
       checked (fun n => 0 <? n)
         (numeric_flag parseInt_str "--concurrency=" args);
     maxRetries :=
       if has_flag "--no-retry" args then Some 0
       else checked (fun n => 0 <=? n)
              (numeric_flag parseInt_str "--max-retries=" args);
     retryDelay :=
       checked (fun n => 0 <? n)
         (numeric_flag parseInt_str "--retry-delay=" args) |}.

(** [args.length === 0 || (args.length === 1 && args[0].startsWith('--'))]. *)
Definition only_options (args : list string) : bool :=
  match args with
  | [] => true
  | [arg] => startsWith arg "--"
  | _ => false
  end.

(** [args.filter(arg => !arg.startsWith('--'))]. *)
Definition cli_skus (args : list string) : list string :=
  filter (fun arg => startsWith arg "--" = false) args.

(** A run of the script on [process.argv.slice(2)]; the value is the exit
    code of the process. *)
Definition cli (parseInt_str : string -> option Z) (fuel : nat)
    (args : list string) : Comp Z :=
  let options := cli_options parseInt_str args in
  if only_options args && negb (has_flag "--all" args) then mret 0
  else
    try_catch
      (if has_flag "--all" args then
         _ ← syncAllProducts fuel options; mret 0
       else
         let skus := cli_skus args in
         if Z.of_nat (length skus) =? 0 then mret 1
         else _ ← syncMultipleProducts fuel skus options; mret 0)
      (fun error => mret 1).


(** *** Progress lines *)





(** The progress lines of a trace. *)
Definition progress_lines (t : list Event) : list (Z * Z) :=
  omap (fun ev => match ev with EvProgress p n => Some (p, n) | _ => None end) t.


(** *** Updates of one listing *)

Definition is_update_of (id : string) (ev : Event) : bool :=
  match ev with EvMlPut id' _ => String.eqb id' id | _ => false end.

(** What the entries of [l] add up to when an entry [s] counts for
    [w s]. *)
Definition total_weight (w : string -> nat) (l : list string) : nat :=
  foldr (fun s n => (w s + n)%nat) O l.

(** What the items of a chunk that have not settled yet add up to. *)
Fixpoint owed {A} (w : string -> nat) (pending : list (string * option A))
  : nat :=
  match pending with
  | [] => O
  | (s, None) :: rest => (w s + owed w rest)%nat
  | (_, Some _) :: rest => owed w rest
  end.

(** 1 for a SKU whose entry in [index] is the listing [id], 0 for any
    other SKU. *)
Definition updates_listing (index : Index) (id : string) (s : string) : nat :=
  match map_get s index with
  | Some mlp => if String.eqb (itemId mlp) id then 1%nat else O
  | None => O
  end.


(** [m] leaves the cached index alone. *)
Definition keeps_cache {A} (m : Comp A) : Prop :=
  forall st, mlProductsCache (m st).2 = mlProductsCache st.


(** ** Rules for the five judgements *)

Lemma bind_run {A B} (m : Comp A) (k : A -> Comp B) (st : St W) :
  (m ≫= k) st =
  match m st with
  | (Ok a, st') => k a st'
  | (Throw e, st') => (Throw e, st')
  | (NoFuel, st') => (NoFuel, st')
  end.
Proof. reflexivity. Qed.

Lemma extends_refl (P : Event -> Prop) (st : St W) : extends P st st.
Proof. exists []. split; [by rewrite app_nil_r | constructor]. Qed.

Lemma extends_trans (P : Event -> Prop) (st1 st2 st3 : St W) :
  extends P st1 st2 -> extends P st2 st3 -> extends P st1 st3.
Proof.
  intros (t1 & E1 & F1) (t2 & E2 & F2). exists (t1 ++ t2)%list. split.
  - by rewrite E2, E1, app_assoc.
  - by apply Forall_app.
Qed.

Lemma extends_weaken (P P' : Event -> Prop) (st st' : St W) :
  (forall ev, P ev -> P' ev) -> extends P st st' -> extends P' st st'.
Proof.
  intros HP (t & E & F). exists t. split; [done|].
  eapply Forall_impl; eauto.
Qed.

Lemma extends_puts (st st' : St W) :
  extends (fun ev => ~ is_put ev) st st' -> puts (trace st') = puts (trace st).
Proof.
  intros (t & -> & F). unfold puts. rewrite omap_app.
  assert (E : omap (fun ev => match ev with EvMlPut id q => Some (id, q) | _ => None end) t = []).
  { induction F as [|ev t Hev _ IH]; [done|]. simpl.
    destruct ev; simpl; try exact IH. by destruct Hev. }
  rewrite E. by rewrite app_nil_r.
Qed.

Section Keeps.

Variable P : Event -> Prop.

Lemma keeps_ret {A} (a : A) : keeps P (mret a).
Proof. intros st. apply extends_refl. Qed.

Lemma keeps_throw {A} (e : Exn) : keeps P (throw e : Comp A).
Proof. intros st. apply extends_refl. Qed.

Lemma keeps_no_fuel {A} : keeps P (no_fuel : Comp A).
Proof. intros st. apply extends_refl. Qed.

Lemma keeps_get_state : keeps P get_state.
Proof. intros st. apply extends_refl. Qed.

Lemma keeps_Date_now : keeps P Date_now.
Proof. intros st. apply extends_refl. Qed.

Lemma keeps_set_erp_token token expiration :
  keeps P (set_erp_token token expiration).
Proof. intros st. exists []. split; [by rewrite app_nil_r | constructor]. Qed.

Lemma keeps_set_mlProductsCache productMap :
  keeps P (set_mlProductsCache productMap).
Proof. intros st. exists []. split; [by rewrite app_nil_r | constructor]. Qed.

Lemma keeps_emit ev : P ev -> keeps P (emit ev).
Proof. intros Hev st. exists [ev]. split; [done | by constructor]. Qed.

Lemma keeps_remote {A} ev (f : W -> A * W) : P ev -> keeps P (remote ev f).
Proof.
  intros Hev st. unfold remote. destruct (f (world st)) as [a w'].
  exists [ev]. split; [done | by constructor].
Qed.

Lemma keeps_bind {A B} (m : Comp A) (k : A -> Comp B) :
  keeps P m -> (forall a, keeps P (k a)) -> keeps P (m ≫= k).
Proof.
  intros Hm Hk st. rewrite bind_run. specialize (Hm st).
  destruct (m st) as [[a|e|] st1]; simpl in *; try done.
  eapply extends_trans; [exact Hm | apply Hk].
Qed.

Lemma keeps_try_catch {A} (m : Comp A) (h : Exn -> Comp A) :
  keeps P m -> (forall e, keeps P (h e)) -> keeps P (try_catch m h).
Proof.
  intros Hm Hh st. unfold try_catch. specialize (Hm st).
  destruct (m st) as [[a|e|] st1]; simpl in *; try done.
  eapply extends_trans; [exact Hm | apply Hh].
Qed.

Lemma keeps_foldM {A B} (f : B -> A -> Comp B) (l : list A) (acc : B) :
  (forall acc x, keeps P (f acc x)) -> keeps P (foldM f l acc).
Proof.
  intros Hf. revert acc. induction l as [|x l IH]; intros acc; simpl.
  - apply keeps_ret.
  - apply keeps_bind; [apply Hf | intros acc'; apply IH].
Qed.

Lemma keeps_axios {A} ev (f : W -> (Exn + A) * W) : P ev -> keeps P (axios ev f).
Proof.
  intros Hev. apply keeps_bind; [by apply keeps_remote|].
  intros [e|a]; [apply keeps_throw | apply keeps_ret].
Qed.

Lemma keeps_collaborator {A} ev (f : W -> (string + A) * W) :
  P ev -> keeps P (collaborator ev f).
Proof.
  intros Hev. apply keeps_bind; [by apply keeps_remote|].
  intros [e|a]; [apply keeps_throw | apply keeps_ret].
Qed.

End Keeps.

Lemma keeps_weaken {A} (P P' : Event -> Prop) (m : Comp A) :
  (forall ev, P ev -> P' ev) -> keeps P m -> keeps P' m.
Proof. intros HP Hm st. eapply extends_weaken; eauto. Qed.

(** Breaks a computation down along its syntax; what is left are the
    side conditions on the events and the calls to other functions. *)
Ltac frame :=
  repeat first
    [ apply keeps_axios | apply keeps_collaborator | apply keeps_emit
    | apply keeps_remote
    | apply keeps_ret | apply keeps_throw | apply keeps_no_fuel
    | apply keeps_get_state | apply keeps_Date_now
    | apply keeps_set_erp_token | apply keeps_set_mlProductsCache
    | apply keeps_bind; [|intros]
    | apply keeps_try_catch; [|intros]
    | apply keeps_foldM; intros
    | match goal with
      | |- keeps _ (match ?x with _ => _ end) => destruct x
      | |- keeps _ (let '(_, _) := ?x in _) => destruct x
      end ].

Lemma getERPAuthToken_reads : keeps not_put getERPAuthToken.
Proof.
  unfold getERPAuthToken, authenticateWithERP. frame; unfold not_put; simpl; tauto.
Qed.

Lemma getManagerProductBySKU_reads sku : keeps not_put (getManagerProductBySKU sku).
Proof.
  unfold getManagerProductBySKU. apply keeps_try_catch.
  - apply keeps_bind; [apply getERPAuthToken_reads|]. intros token.
    frame; unfold not_put; simpl; tauto.
  - intros e. frame.
Qed.

Lemma load_item_reads acc id : keeps not_put (load_item acc id).
Proof.
  unfold load_item, warn. frame; unfold not_put; simpl; tauto.
Qed.

Lemma load_pages_reads fuel userId offset acc :
  keeps not_put (load_pages fuel userId offset acc).
Proof.
  revert offset acc. induction fuel as [|fuel IH]; intros offset acc; simpl.
  - apply keeps_no_fuel.
  - apply keeps_bind; [apply keeps_axios; unfold not_put; simpl; tauto|].
    intros page. destruct (_ =? 0); [apply keeps_ret|].
    apply keeps_bind; [apply keeps_foldM; intros; apply load_item_reads|].
    intros acc'. destruct (_ || _); [apply keeps_ret | apply IH].
Qed.

Lemma loadAllMercadoLibreProducts_reads fuel :
  keeps not_put (loadAllMercadoLibreProducts fuel).
Proof.
  unfold loadAllMercadoLibreProducts, warn.
  apply keeps_bind; [apply keeps_get_state|]. intros st.
  destruct (mlProductsCache st); [apply keeps_ret|].
  apply keeps_try_catch; [|intros; apply keeps_throw].
  apply keeps_bind; [apply keeps_collaborator; unfold not_put; simpl; tauto|].
  intros token. apply keeps_bind.
  { destruct (truthy_str ML_USER_ID); [apply keeps_ret|].
    apply keeps_collaborator; unfold not_put; simpl; tauto. }
  intros userId. apply keeps_bind; [apply load_pages_reads|].
  intros [productMap itemsWithoutSKU]. frame; unfold not_put; simpl; tauto.
Qed.

Lemma getMercadoLibreProductStockBySKU_reads fuel sku productsMap :
  keeps not_put (getMercadoLibreProductStockBySKU fuel sku productsMap).
Proof.
  unfold getMercadoLibreProductStockBySKU.
  apply keeps_try_catch; [|intros; apply keeps_throw].
  apply keeps_bind; [|intros; apply keeps_ret].
  destruct productsMap; [apply keeps_ret | apply loadAllMercadoLibreProducts_reads].
Qed.

(** ** The decision function *)

(** What an update sends: the credential request and, when the
    credential is granted, one PUT. *)
Lemma updateMercadoLibreStock_trace itemId quantity st :
  let r := updateMercadoLibreStock itemId quantity st in
  (trace r.2 = (trace st ++ [EvAccessToken])%list /\ r.1 <> Ok tt)
  \/ trace r.2 = (trace st ++ [EvAccessToken; EvMlPut itemId quantity])%list.
Proof.
  unfold updateMercadoLibreStock, try_catch, collaborator, axios, remote.
  rewrite !bind_run. simpl.
  destruct (getAccessToken env (world st)) as [[msg|token] w1]; simpl.
  - left. split; [done | discriminate].
  - rewrite !bind_run. simpl.
    destruct (ml_put env itemId quantity w1) as [[e|[]] w2]; simpl.
    + right. rewrite <- app_assoc.
      destruct (exn_status e) as [status|]; [|done].
      destruct status as [|p|p]; try done;
        repeat (destruct p as [p|p|]; try done);
        try (destruct (500 <=? _); done).
    + right. by rewrite <- app_assoc.
Qed.

Lemma syncProductStock_run fuel sku options mlProductsMap st :
  syncProductStock fuel sku options mlProductsMap st =
  match getManagerProductBySKU sku st with
  | (Throw error, st1) => (Ok (error_result sku (exn_message error)), st1)
  | (NoFuel, st1) => (NoFuel, st1)
  | (Ok None, st1) =>
      (Ok (skipped_result sku "Producto no encontrado en Manager+"), st1)
  | (Ok (Some mp), st1) =>
      match getMercadoLibreProductStockBySKU fuel sku mlProductsMap st1 with
      | (Throw error, st2) => (Ok (error_result sku (exn_message error)), st2)
      | (NoFuel, st2) => (NoFuel, st2)
      | (Ok None, st2) =>
          (Ok (skipped_result sku "Producto no encontrado en Mercado Libre"), st2)
      | (Ok (Some mlp), st2) => decide_found sku options mp mlp st2
      end
  end.
Proof.
  unfold syncProductStock, attempt, try_catch. rewrite !bind_run.
  destruct (getManagerProductBySKU sku st) as [[[mp|]|e|] st1];
    unfold mret, M_ret; cbv beta iota; try done.
  rewrite bind_run.
  destruct (getMercadoLibreProductStockBySKU fuel sku mlProductsMap st1)
    as [[[mlp|]|e|] st2]; cbv beta iota; try done.
  unfold decide_found.
  destruct ((quantity_of mp =? currentStock mlp) && negb (forceUpdate options));
    [done|].
  destruct (dryRun options); [done|].
  rewrite bind_run.
  by destruct (updateMercadoLibreStock (itemId mlp) (quantity_of mp) st2)
    as [[[]|e|] st3].
Qed.

Lemma syncProductStock_found fuel sku options mlProductsMap st mp st1 mlp st2 :
  getManagerProductBySKU sku st = (Ok (Some mp), st1) ->
  getMercadoLibreProductStockBySKU fuel sku mlProductsMap st1 = (Ok (Some mlp), st2) ->
  syncProductStock fuel sku options mlProductsMap st
  = decide_found sku options mp mlp st2.
Proof. intros H1 H2. by rewrite syncProductStock_run, H1, H2. Qed.

Lemma lookups_read fuel sku mlProductsMap st st1 st2 o1 o2 :
  getManagerProductBySKU sku st = (o1, st1) ->
  getMercadoLibreProductStockBySKU fuel sku mlProductsMap st1 = (o2, st2) ->
  puts (trace st2) = puts (trace st).
Proof.
  intros H1 H2.
  pose proof (getManagerProductBySKU_reads sku st) as E1.
  pose proof (getMercadoLibreProductStockBySKU_reads fuel sku mlProductsMap st1) as E2.
  rewrite H1 in E1. rewrite H2 in E2. simpl in *.
  apply extends_puts. eapply extends_trans; eauto.
Qed.

(** A stock that is an integer below 10^21 in absolute value is read
    back unchanged by [parseInt]. *)
Lemma quantity_of_integer mp q :
  integer_value (stock mp) = Some q -> Z.abs q < 10 ^ 21 -> quantity_of mp = q.
Proof.
  unfold quantity_of, parseInt, integer_value.
  destruct (stock mp) as [s|s| |s m e]; try done.
  { by intros [= <-] _. }
  assert (Hread : forall t, 1 <= t -> Z.abs (cond_Zopp s t) < 10 ^ 21 ->
            Z.shiftl (Z.pos m) e = t ->
            num_or_0
              (if (1 <=? Z.shiftl (Z.pos m) e) && (Z.shiftl (Z.pos m) e <? 10 ^ 21)
               then Some (cond_Zopp s (Z.shiftl (Z.pos m) e))
               else if (Z.shiftl (Z.pos m) e =? 0)
                       && (2 ^ (- e) <=? Z.pos m * 10 ^ 6)
                    then Some 0
                    else Some (exponent_head js (S754_finite s m e)))
            = cond_Zopp s t).
  { intros t Ht Hq ->.
    assert (Habs : Z.abs (cond_Zopp s t) = t) by (destruct s; simpl; lia).
    destruct (Z.leb_spec 1 t); [|lia].
    destruct (Z.ltb_spec t (10 ^ 21)); [done | lia]. }
  destruct (Z.leb_spec 0 e) as [He|He].
  - intros [= <-] Hq. apply Hread; [|done|by apply Z.shiftl_mul_pow2].
    pose proof (Z.pow_pos_nonneg 2 e). nia.
  - destruct (Z.eqb_spec (Z.pos m mod 2 ^ (- e)) 0) as [Hmod|]; [|done].
    intros [= <-] Hq.
    assert (Hpow : 0 < 2 ^ (- e)) by (apply Z.pow_pos_nonneg; lia).
    apply Hread; [|done|].
    + pose proof (Z.div_mod (Z.pos m) (2 ^ (- e)) ltac:(lia)) as Hdiv.
      rewrite Hmod in Hdiv.
      destruct (Z.le_gt_cases 1 (Z.pos m / 2 ^ (- e))); [done | nia].
    + replace e with (- - e) at 1 by lia. rewrite Z.shiftl_opp_r.
      apply Z.shiftr_div_pow2. lia.
Qed.

(** C1, as the code has it: an identifier found in both systems with
    equal quantities, with [forceUpdate] off, gets the [no_change]
    decision, and no update is sent to the sink.  The quantity of the
    source is the one the engine reads, [parseInt(stock) || 0]; it is
    the stock itself when the stock is an integer below 10^21 in
    absolute value. *)
Theorem equal_quantities_no_change fuel sku options mlProductsMap st mp st1 mlp st2 :
  forceUpdate options = false ->
  getManagerProductBySKU sku st = (Ok (Some mp), st1) ->
  getMercadoLibreProductStockBySKU fuel sku mlProductsMap st1 = (Ok (Some mlp), st2) ->
  quantity_of mp = currentStock mlp
  \/ (integer_value (stock mp) = Some (currentStock mlp)
      /\ Z.abs (currentStock mlp) < 10 ^ 21) ->
  syncProductStock fuel sku options mlProductsMap st
  = (Ok (no_change_result sku (currentStock mlp) (currentStock mlp)), st2)
  /\ action (no_change_result sku (currentStock mlp) (currentStock mlp))
     = no_change
  /\ puts (trace st2) = puts (trace st).
Proof.
  intros Hforce H1 H2 Hsame.
  assert (Heq : quantity_of mp = currentStock mlp).
  { destruct Hsame as [Heq|[Hint Hrange]]; [done|].
    by apply quantity_of_integer. }
  rewrite (syncProductStock_found _ _ _ _ _ _ _ _ _ H1 H2). unfold decide_found.
  rewrite Hforce, Heq, Z.eqb_refl. simpl.
  split; [done|]. split; [done|]. eapply lookups_read; eauto.
Qed.

(** Each call sends at most one update, and sends it only outside a dry
    run, for a product found in both systems whose quantities differ or
    whose update is forced. *)
Lemma syncProductStock_puts fuel sku options mlProductsMap st :
  let r := syncProductStock fuel sku options mlProductsMap st in
  puts (trace r.2) = puts (trace st)
  \/ (dryRun options = false
      /\ exists mp st1 mlp st2,
           getManagerProductBySKU sku st = (Ok (Some mp), st1)
           /\ getMercadoLibreProductStockBySKU fuel sku mlProductsMap st1
              = (Ok (Some mlp), st2)
           /\ (quantity_of mp <> currentStock mlp \/ forceUpdate options = true)
           /\ puts (trace r.2)
              = (puts (trace st) ++ [(itemId mlp, quantity_of mp)])%list).
Proof.
  cbv zeta. rewrite syncProductStock_run.
  pose proof (getManagerProductBySKU_reads sku st) as E1.
  destruct (getManagerProductBySKU sku st) as [[[mp|]|e|] st1] eqn:H1;
    simpl in E1; try (left; by apply extends_puts).
  pose proof (getMercadoLibreProductStockBySKU_reads fuel sku mlProductsMap st1) as E2.
  destruct (getMercadoLibreProductStockBySKU fuel sku mlProductsMap st1)
    as [[[mlp|]|e|] st2] eqn:H2;
    simpl in E2;
    try (left; apply extends_puts; eapply extends_trans; by eauto).
  assert (E : puts (trace st2) = puts (trace st)).
  { apply extends_puts. eapply extends_trans; eauto. }
  unfold decide_found.
  destruct ((quantity_of mp =? currentStock mlp) && negb (forceUpdate options)) eqn:Hsame;
    [by left|].
  destruct (dryRun options) eqn:Hdry; [by left|].
  pose proof (updateMercadoLibreStock_trace (itemId mlp) (quantity_of mp) st2) as Hput.
  cbv zeta in Hput.
  destruct (updateMercadoLibreStock (itemId mlp) (quantity_of mp) st2) as [[[]|e|] st3];
    simpl in *.
  all: destruct Hput as [[Ht _]|Ht]; rewrite Ht;
    [left; unfold puts; rewrite omap_app; simpl; by rewrite app_nil_r|].
  all: right; split; [done|]; exists mp, st1, mlp, st2;
    split; [done|]; split; [done|]; split;
    [ apply andb_false_iff in Hsame as [Hne|Hf];
      [left; by apply Z.eqb_neq | right; by destruct (forceUpdate options)]
    | unfold puts in *; rewrite omap_app; simpl; by rewrite E ].
Qed.

(** ** Results of the bounded parallel executor *)

Lemma yields_ret {A} (a : A) (Q : A -> Prop) : Q a -> yields (mret a) Q.
Proof. intros H st. exact H. Qed.

Lemma yields_bind {A B} (m : Comp A) (k : A -> Comp B) (Q1 : A -> Prop)
    (Q : B -> Prop) :
  yields m Q1 -> (forall a, Q1 a -> yields (k a) Q) -> yields (m ≫= k) Q.
Proof.
  intros Hm Hk st. rewrite bind_run. specialize (Hm st).
  destruct (m st) as [[a|e|] st1]; simpl in *; try done.
  by apply Hk.
Qed.

Lemma yields_try {A} (m : Comp A) (h : Exn -> Comp A) (Q : A -> Prop) :
  yields m Q -> yields (try_catch m h) Q.
Proof.
  intros Hm st. unfold try_catch. specialize (Hm st).
  by destruct (m st) as [[a|e|] st1].
Qed.

Lemma yields_weaken {A} (m : Comp A) (Q Q' : A -> Prop) :
  (forall a, Q a -> Q' a) -> yields m Q -> yields m Q'.
Proof.
  intros HQ Hm st. specialize (Hm st).
  destruct (m st) as [[a|e|] st1]; simpl in *; auto.
Qed.

Lemma yields_foldM {A B} (f : B -> A -> Comp B) (l : list A) (acc : B)
    (I : B -> Prop) :
  I acc -> (forall acc x, I acc -> yields (f acc x) I) -> yields (foldM f l acc) I.
Proof.
  intros Hacc Hf. revert acc Hacc.
  induction l as [|x l IH]; intros acc Hacc; simpl.
  - by apply yields_ret.
  - eapply yields_bind; [by apply Hf|]. intros acc' Hacc'. by apply IH.
Qed.

Lemma yields_returns {A} (m : Comp A) (Q : A -> Prop) : yields m Q -> returns m Q.
Proof.
  intros Hm st. specialize (Hm st). by destruct (m st) as [[a|e|] st1].
Qed.

Lemma returns_bind {A B} (m : Comp A) (k : A -> Comp B) (Q1 : A -> Prop)
    (Q : B -> Prop) :
  returns m Q1 -> (forall a, Q1 a -> returns (k a) Q) -> returns (m ≫= k) Q.
Proof.
  intros Hm Hk st. rewrite bind_run. specialize (Hm st).
  destruct (m st) as [[a|e|] st1]; simpl in *; try done. by apply Hk.
Qed.

Lemma returns_any {A} (m : Comp A) : returns m (fun _ => True).
Proof. intros st. by destruct (m st) as [[a|e|] st1]. Qed.

Lemma returns_try {A} (m : Comp A) (Q : A -> Prop) :
  returns m Q -> returns (try_catch m (fun error => throw error)) Q.
Proof.
  intros Hm st. unfold try_catch. specialize (Hm st).
  by destruct (m st) as [[a|e|] st1].
Qed.

(** Every result of the processor is a result for the SKU it was
    given, and the processor does not throw. *)
Lemma process_sku_result fuel options mlProductsMap s :
  yields (process_sku fuel options mlProductsMap s) (result_for s).
Proof.
  intros st. unfold process_sku, try_catch. rewrite syncProductStock_run.
  assert (Hres : forall r, sku r = s ->
            (success r = false \/ action r = updated \/ action r = would_update
             \/ action r = no_change) -> result_for s r).
  { intros r Hs Hr. split; [done|]. intros Hok.
    destruct Hr as [Hr|[Hr|[Hr|Hr]]]; rewrite Hr in *; by split. }
  destruct (getManagerProductBySKU s st) as [[[mp|]|e|] st1];
    cbv beta iota delta [fst mret M_ret]; try done; try (apply Hres; simpl; by auto).
  destruct (getMercadoLibreProductStockBySKU fuel s (Some mlProductsMap) st1)
    as [[[mlp|]|e|] st2];
    cbv beta iota delta [fst mret M_ret]; try done; try (apply Hres; simpl; by auto).
  unfold decide_found.
  destruct ((quantity_of mp =? currentStock mlp) && negb (forceUpdate options));
    cbv beta iota delta [fst]; [apply Hres; simpl; by auto|].
  destruct (dryRun options); cbv beta iota delta [fst]; [apply Hres; simpl; by auto|].
  destruct (updateMercadoLibreStock (itemId mlp) (quantity_of mp) st2) as [[[]|e|] st3];
    cbv beta iota delta [fst mret M_ret]; try done; apply Hres; simpl; by auto.
Qed.

Section PromiseAll.

Context {A : Type}.
Variable processor : string -> Comp A.
Variable Q : string -> A -> Prop.
Hypothesis processor_ok : forall s, yields (processor s) (Q s).

Lemma settle_ok chunk slots i :
  Forall2 (slot_ok Q) chunk slots ->
  yields (settle processor chunk slots i) (Forall2 (slot_ok Q) chunk).
Proof.
  intros H. unfold settle.
  destruct (chunk !! i) as [s|] eqn:Hs; [|by apply yields_ret].
  destruct (slots !! i) as [[r|]|] eqn:Hslot; try by apply yields_ret.
  eapply yields_bind; [apply processor_ok|]. intros r Hr.
  apply yields_ret.
  rewrite <- (list_insert_id chunk i s Hs).
  by apply Forall2_insert.
Qed.

Lemma await_all_ok chunk slots :
  Forall2 (slot_ok Q) chunk slots ->
  yields (await_all processor (zip chunk slots)) (Forall2 Q chunk).
Proof.
  induction 1 as [|s slot chunk slots Hs _ IH]; simpl.
  - apply yields_ret. constructor.
  - destruct slot as [r|].
    + eapply yields_bind; [exact IH|]. intros rs Hrs.
      apply yields_ret. by constructor.
    + eapply yields_bind; [apply processor_ok|]. intros r Hr.
      eapply yields_bind; [exact IH|]. intros rs Hrs.
      apply yields_ret. by constructor.
Qed.

(** The array [Promise.all] resolves to is indexed like the chunk,
    whatever order the items settle in. *)
Lemma Promise_all_ok chunk :
  yields (Promise_all processor chunk) (Forall2 Q chunk).
Proof.
  unfold Promise_all.
  eapply yields_bind with (Q1 := fun _ => True); [done|]. intros st _.
  eapply yields_bind.
  - apply yields_foldM with (I := Forall2 (slot_ok Q) chunk).
    + clear. induction chunk as [|s chunk IH]; simpl; by constructor.
    + intros slots i Hslots. by apply settle_ok.
  - intros slots Hslots. by apply await_all_ok.
Qed.

End PromiseAll.

Lemma js_slice_chunk {A} (l : list A) (i c : Z) :
  0 <= i -> 0 < c ->
  js_slice l i (i + c) = take (Z.to_nat c) (drop (Z.to_nat i) l).
Proof.
  intros Hi Hc. unfold js_slice.
  destruct (Z.ltb_spec i 0); [lia|]. destruct (Z.ltb_spec (i + c) 0); [lia|].
  destruct (Z.le_gt_cases (Z.of_nat (length l)) i) as [Hge|Hlt].
  - rewrite !drop_ge by lia. by rewrite !take_nil.
  - rewrite (Z.min_l i) by lia.
    destruct (Z.le_gt_cases (i + c) (Z.of_nat (length l))) as [Hin|Hout].
    + rewrite Z.min_l by lia. f_equal. lia.
    + rewrite Z.min_r by lia.
      rewrite !take_ge; [done | rewrite length_drop; lia | rewrite length_drop; lia].
Qed.

Section Chunks.

Variable processor : string -> Comp SyncResult.
Variable Q : string -> SyncResult -> Prop.
Hypothesis processor_ok : forall s, yields (processor s) (Q s).

Lemma yields_emit ev : yields (emit ev) (fun _ => True).
Proof. by intros st. Qed.

(** With a positive step the loop returns one result per element, in
    the order of the array. *)
Lemma process_chunks_ok fuel array c i results rateLimitErrors :
  0 < c -> 0 <= i ->
  Forall2 Q (take (Z.to_nat i) array) results ->
  yields (process_chunks fuel array processor c i results rateLimitErrors)
         (Forall2 Q array).
Proof.
  intros Hc. revert i results rateLimitErrors.
  induction fuel as [|fuel IH]; intros i results rle Hi Hres; simpl;
    destruct (Z.ltb_spec i (Z.of_nat (length array))) as [Hlt|Hge];
    try (apply yields_ret; rewrite take_ge in Hres by lia; exact Hres).
  - by intros st.
  - eapply yields_bind
      with (Q1 := fun p => Forall2 Q (take (Z.to_nat (i + c)) array) p.1).
    + apply yields_try.
      eapply yields_bind; [by apply Promise_all_ok with (Q := Q)|].
      intros chunkResults Hchunk.
      eapply yields_bind with (Q1 := fun _ => True).
      { destruct (_ <=? _); [apply yields_emit | by apply yields_ret]. }
      intros _ _. apply yields_ret. simpl.
      rewrite js_slice_chunk in Hchunk by lia.
      replace (Z.to_nat (i + c)) with (Z.to_nat i + Z.to_nat c)%nat by lia.
      rewrite <- take_take_drop. by apply Forall2_app.
    + intros [results' rle'] Hres'.
      eapply yields_bind with (Q1 := fun _ => True); [apply yields_emit|].
      intros _ _. apply IH; [lia | exact Hres'].
Qed.

(** With a step that is not positive the loop never leaves a
    non-empty array. *)
Lemma process_chunks_stuck fuel array c i results rateLimitErrors :
  c <= 0 -> i <= 0 -> array <> [] ->
  yields (process_chunks fuel array processor c i results rateLimitErrors)
         (fun _ => False).
Proof.
  intros Hc. revert i results rateLimitErrors.
  induction fuel as [|fuel IH]; intros i results rle Hi Hne; simpl;
    destruct (Z.ltb_spec i (Z.of_nat (length array))) as [Hlt|Hge];
    try (destruct array; [done | simpl in Hge; lia]).
  - by intros st.
  - eapply yields_bind with (Q1 := fun _ => True).
    + apply yields_try.
      eapply yields_bind; [by apply Promise_all_ok with (Q := Q)|].
      intros chunkResults Hchunk.
      eapply yields_bind with (Q1 := fun _ => True).
      { destruct (_ <=? _); [apply yields_emit | by apply yields_ret]. }
      intros _ _. by apply yields_ret.
    + intros [results' rle'] _.
      eapply yields_bind with (Q1 := fun _ => True); [apply yields_emit|].
      intros _ _. apply IH; [lia | exact Hne].
Qed.

Lemma processInParallel_ok fuel array c :
  yields (processInParallel fuel array processor c) (Forall2 Q array).
Proof.
  unfold processInParallel.
  destruct (Z.lt_ge_cases 0 c) as [Hc|Hc].
  - apply process_chunks_ok; [done | done | constructor].
  - destruct array as [|s array].
    + destruct fuel; simpl; apply yields_ret; constructor.
    + eapply yields_weaken; [|apply process_chunks_stuck; try done; lia].
      by intros a [].
Qed.

End Chunks.

(** ** The summary of a run *)

Lemma results_skus (skus : list string) (rs : list SyncResult) :
  Forall2 result_for skus rs -> sku <$> rs = skus.
Proof.
  induction 1 as [|s r skus rs [Hs _] _ IH]; [done|].
  rewrite fmap_cons. by rewrite Hs, IH.
Qed.

Lemma results_good (skus : list string) (rs : list SyncResult) :
  Forall2 result_for skus rs ->
  Forall (fun r => success r = true ->
                   action r <> skipped /\ action r <> error_action) rs.
Proof.
  induction 1 as [|s r skus rs [_ Hr] _ IH]; constructor; auto.
Qed.

Lemma tally_counts results result :
  total (tally results result) = total results
  /\ details (tally results result) = details results
  /\ counted (tally results result) = counted results + 1.
Proof.
  unfold tally, counted.
  destruct (success result); [destruct (action result)|]; simpl;
    repeat split; lia.
Qed.

Lemma fold_tally_counts (l : list SyncResult) results :
  total (fold_left tally l results) = total results
  /\ details (fold_left tally l results) = details results
  /\ counted (fold_left tally l results) = counted results + Z.of_nat (length l).
Proof.
  revert results. induction l as [|r l IH]; intros results; simpl.
  - repeat split; lia.
  - destruct (IH (tally results r)) as (Ht & Hd & Hc).
    destruct (tally_counts results r) as (Ht' & Hd' & Hc').
    rewrite Ht, Hd, Hc, Ht', Hd', Hc'. repeat split; lia.
Qed.

(** Splicing a retried result in keeps the order of the identifiers and
    the balance of the counters. *)
Lemma apply_retry_consistent skus results retryResult :
  (success retryResult = true ->
   action retryResult <> skipped /\ action retryResult <> error_action) ->
  consistent skus results -> consistent skus (apply_retry results retryResult).
Proof.
  intros Hgood (Htotal & Hskus & Hsum). unfold apply_retry.
  destruct (list_find _ _) as [[originalIndex originalResult]|] eqn:Hfind;
    [|done].
  apply list_find_Some in Hfind as (Hlookup & Hsame & _).
  assert (Horder : sku <$> <[originalIndex:=retryResult]> (details results) = skus).
  { rewrite list_fmap_insert, list_insert_id; [done|].
    by rewrite list_lookup_fmap, Hlookup, <- Hsame. }
  destruct (success retryResult && _) eqn:Hflip.
  - apply andb_true_iff in Hflip as [Hok _].
    destruct (Hgood Hok) as [Hns Hne].
    destruct (action retryResult); try done;
      (split; [done|]; split; [done|]; simpl in *; lia).
  - by repeat split.
Qed.

(** What one spliced result does to the summary: the detail found by
    SKU is replaced, and the counters move only when a failed detail is
    replaced by a successful result. *)
Lemma apply_retry_counters results retryResult originalIndex originalResult :
  list_find (fun r => sku r = sku retryResult) (details results)
  = Some (originalIndex, originalResult) ->
  details (apply_retry results retryResult)
  = <[originalIndex:=retryResult]> (details results)
  /\ (success retryResult = false
      \/ success originalResult = true
      \/ action originalResult <> error_action ->
      updated_count (apply_retry results retryResult) = updated_count results
      /\ noChange_count (apply_retry results retryResult) = noChange_count results
      /\ skipped_count (apply_retry results retryResult) = skipped_count results
      /\ errors_count (apply_retry results retryResult) = errors_count results)
  /\ (success retryResult = true ->
      success originalResult = false ->
      action originalResult = error_action ->
      errors_count (apply_retry results retryResult) = errors_count results - 1).
Proof.
  intros Hfind. unfold apply_retry. rewrite Hfind.
  destruct (success retryResult), (success originalResult);
    destruct (bool_decide_reflect (action originalResult = error_action));
    simpl; try destruct (action retryResult); simpl;
    (split; [done|]); (split; [intros [?|[?|?]]; done | intros; done]).
Qed.

Lemma fold_apply_retry_consistent skus (retried : list SyncResult) results :
  Forall (fun r => success r = true ->
                   action r <> skipped /\ action r <> error_action) retried ->
  consistent skus results ->
  consistent skus (fold_left apply_retry retried results).
Proof.
  intros H. revert results.
  induction H as [|r retried Hr _ IH]; intros results Hres; simpl; [done|].
  apply IH. by apply apply_retry_consistent.
Qed.

Lemma retry_loop_consistent skus fuel inner_fuel options mlProductsMap
    concurrency maxRetries retryDelay retryAttempt remainingFailures results :
  consistent skus results ->
  yields (retry_loop fuel inner_fuel options mlProductsMap concurrency maxRetries
            retryDelay retryAttempt remainingFailures results)
         (consistent skus).
Proof.
  revert retryAttempt remainingFailures results.
  induction fuel as [|fuel IH]; intros retryAttempt remaining results Hres; simpl;
    destruct (_ && _); try (by apply yields_ret); [by intros st|].
  eapply yields_bind.
  { apply processInParallel_ok with (Q := result_for).
    intros s. apply process_sku_result. }
  intros retried Hretried.
  eapply yields_bind with (Q1 := fun _ => True).
  { destruct (_ && _); [apply yields_emit | by apply yields_ret]. }
  intros _ _. apply IH.
  apply fold_apply_retry_consistent; [|done].
  eapply results_good; eauto.
Qed.

(** The summary of every run that returns lists the requested
    identifiers in their order, and its counters add up to their
    number. *)
Lemma syncMultipleProducts_consistent fuel skus options :
  returns (syncMultipleProducts fuel skus options) (consistent skus).
Proof.
  unfold syncMultipleProducts.
  destruct (limit_concurrency _) as [c warning].
  eapply returns_bind; [apply returns_any|]. intros _ _.
  apply returns_try.
  eapply returns_bind; [apply returns_any|]. intros _ _.
  eapply returns_bind; [apply returns_any|]. intros mlProductsMap _.
  eapply returns_bind.
  { apply yields_returns. apply processInParallel_ok with (Q := result_for).
    intros s. apply process_sku_result. }
  intros processedResults Hprocessed. cbv zeta. cbn [details total].
  match goal with
  | |- context [fold_left tally processedResults ?r0] =>
      pose proof (fold_tally_counts processedResults r0) as (Ht & Hd & Hc);
      set (tallied := fold_left tally processedResults r0) in *
  end.
  assert (Hcons : consistent skus tallied).
  { split; [by rewrite Ht|]. split; [rewrite Hd; by apply results_skus|].
    fold (counted tallied). rewrite Hc, Ht. unfold counted. simpl.
    apply Forall2_length in Hprocessed. lia. }
  destruct (_ && _).
  - eapply returns_bind; [apply returns_any|]. intros _ _.
    apply yields_returns. by apply retry_loop_consistent.
  - intros st. exact Hcons.
Qed.

(** C4: the details of a returned summary have the length of the
    requested sequence and list its identifiers in the same order,
    whatever order the items of a chunk complete in, after the first
    pass and after every retry has been spliced in. *)
Theorem details_follow_input_order fuel skus options st results st' :
  syncMultipleProducts fuel skus options st = (Ok results, st') ->
  length (details results) = length skus
  /\ sku <$> details results = skus.
Proof.
  intros Hrun. pose proof (syncMultipleProducts_consistent fuel skus options st) as H.
  rewrite Hrun in H. destruct H as (_ & Hskus & _).
  split; [|done]. rewrite <- Hskus. by rewrite length_fmap.
Qed.

(** C5: in a returned summary the four counters add up to [total], the
    number of requested identifiers, retries included. *)
Theorem counters_sum_to_total fuel skus options st results st' :
  syncMultipleProducts fuel skus options st = (Ok results, st') ->
  updated_count results + noChange_count results
  + skipped_count results + errors_count results = total results
  /\ total results = Z.of_nat (length skus).
Proof.
  intros Hrun. pose proof (syncMultipleProducts_consistent fuel skus options st) as H.
  rewrite Hrun in H. by destruct H as (Ht & _ & Hsum).
Qed.

(** ** Events are only ever added *)

Lemma reads_grow {A} (m : Comp A) : keeps not_put m -> keeps any_event m.
Proof. apply keeps_weaken. by intros ev _. Qed.

Lemma updateMercadoLibreStock_grows itemId quantity :
  keeps any_event (updateMercadoLibreStock itemId quantity).
Proof. unfold updateMercadoLibreStock. frame; done. Qed.

(** The decision for one SKU adds events of kind [P] when its lookups
    do and the update, if it can be reached, does. *)
Lemma syncProductStock_keeps (P : Event -> Prop) fuel sku options mlProductsMap :
  (forall ev, not_put ev -> P ev) ->
  (dryRun options = false ->
   forall itemId quantity, keeps P (updateMercadoLibreStock itemId quantity)) ->
  keeps P (syncProductStock fuel sku options mlProductsMap).
Proof.
  intros HP Hupdate. unfold syncProductStock, attempt.
  apply keeps_try_catch; [|intros; apply keeps_ret].
  apply keeps_bind.
  { apply keeps_try_catch; [|intros; apply keeps_ret].
    apply keeps_bind; [|intros; apply keeps_ret].
    eapply keeps_weaken; [exact HP | apply getManagerProductBySKU_reads]. }
  intros [e|[mp|]]; try apply keeps_ret.
  apply keeps_bind;
    [eapply keeps_weaken;
       [exact HP | apply getMercadoLibreProductStockBySKU_reads]|].
  intros [mlp|]; [|apply keeps_ret].
  destruct (_ && _); [apply keeps_ret|].
  destruct (dryRun options); [apply keeps_ret|].
  apply keeps_bind; [by apply Hupdate | intros; apply keeps_ret].
Qed.

Lemma process_sku_grows fuel options mlProductsMap sku :
  keeps any_event (process_sku fuel options mlProductsMap sku).
Proof.
  apply keeps_try_catch; [|intros; apply keeps_ret].
  apply syncProductStock_keeps; [done|].
  intros _ itemId quantity. apply updateMercadoLibreStock_grows.
Qed.

Lemma process_sku_dry_reads fuel options mlProductsMap sku :
  dryRun options = true ->
  keeps not_put (process_sku fuel options mlProductsMap sku).
Proof.
  intros Hdry. apply keeps_try_catch; [|intros; apply keeps_ret].
  apply syncProductStock_keeps; [done | congruence].
Qed.

Section Passes.

Variable P : Event -> Prop.
Hypothesis P_reads : forall ev, not_put ev -> P ev.

Lemma P_warn w : P (EvWarn w).
Proof. apply P_reads. unfold not_put. simpl. tauto. Qed.

Lemma P_sleep ms : P (EvSleep ms).
Proof. apply P_reads. unfold not_put. simpl. tauto. Qed.

Lemma Promise_all_keeps {A} (processor : string -> Comp A) chunk :
  (forall s, keeps P (processor s)) ->
  keeps P (Promise_all processor chunk).
Proof.
  intros Hp. unfold Promise_all.
  apply keeps_bind; [apply keeps_get_state|]. intros st.
  apply keeps_bind.
  - apply keeps_foldM. intros slots i. unfold settle.
    destruct (chunk !! i); [|apply keeps_ret].
    destruct (slots !! i) as [[r|]|]; try apply keeps_ret.
    apply keeps_bind; [apply Hp | intros; apply keeps_ret].
  - intros slots. generalize (zip chunk slots). intros pending.
    induction pending as [|[s [r|]] pending IH]; simpl.
    + apply keeps_ret.
    + apply keeps_bind; [exact IH | intros; apply keeps_ret].
    + apply keeps_bind; [apply Hp|]. intros r.
      apply keeps_bind; [exact IH | intros; apply keeps_ret].
Qed.

Lemma process_chunks_keeps fuel array processor c i results rateLimitErrors :
  (forall s, keeps P (processor s)) ->
  keeps P (process_chunks fuel array processor c i results rateLimitErrors).
Proof.
  intros Hp. revert i results rateLimitErrors.
  induction fuel as [|fuel IH]; intros i results rle; simpl;
    destruct (_ <? _); try apply keeps_ret; [apply keeps_no_fuel|].
  apply keeps_bind;
    [|intros [results' rle']; apply keeps_bind;
        [apply keeps_emit, P_reads; unfold not_put; simpl; tauto
        | intros; apply IH]].
  apply keeps_try_catch.
  - apply keeps_bind; [by apply Promise_all_keeps|]. intros chunkResults.
    apply keeps_bind; [|intros; apply keeps_ret].
    destruct (_ <=? _); [apply keeps_emit, P_warn | apply keeps_ret].
  - intros e. destruct (_ && _); [|apply keeps_throw].
    apply keeps_bind; [apply keeps_emit, P_warn|]. intros _.
    apply keeps_bind; [apply keeps_emit, P_sleep | intros; apply keeps_ret].
Qed.

Variable fuel : nat.
Variable options : Options.
Hypothesis P_sku :
  forall mlProductsMap s, keeps P (process_sku fuel options mlProductsMap s).

Lemma retry_loop_keeps n mlProductsMap concurrency maxRetries retryDelay
    retryAttempt remainingFailures results :
  keeps P
    (retry_loop n fuel options mlProductsMap concurrency maxRetries
       retryDelay retryAttempt remainingFailures results).
Proof.
  revert retryAttempt remainingFailures results.
  induction n as [|n IH]; intros retryAttempt remaining results; simpl;
    destruct (_ && _); try apply keeps_ret; [apply keeps_no_fuel|].
  apply keeps_bind.
  { apply process_chunks_keeps. intros s. apply P_sku. }
  intros retried. apply keeps_bind; [|intros; apply IH].
  destruct (_ && _); [apply keeps_emit, P_sleep | apply keeps_ret].
Qed.

(** What follows the authentication check in [syncMultipleProducts]. *)
Lemma passes_keep skus c (results0 : RunResult) :
  keeps P
    (mlProductsMap ← loadAllMercadoLibreProducts fuel;
     processedResults ←
       processInParallel fuel skus (process_sku fuel options mlProductsMap) c;
     let results :=
       {| total := total results0; updated_count := updated_count results0;
          skipped_count := skipped_count results0;
          errors_count := errors_count results0;
          noChange_count := noChange_count results0;
          details := processedResults |} in
     let results := fold_left tally (details results) results in
     let failedProducts :=
       filter (fun r => retryable r = true) (details results) in
     if (0 <? Z.of_nat (length failedProducts)) && negb (dryRun options) then
       let maxRetries := default 3 (maxRetries options) in
       let retryDelay := default 2000 (retryDelay options) in
       _ ← sleep retryDelay;
       retry_loop fuel fuel options mlProductsMap c maxRetries
         retryDelay 1 failedProducts results
     else mret results).
Proof.
  apply keeps_bind;
    [eapply keeps_weaken; [exact P_reads | apply loadAllMercadoLibreProducts_reads]|].
  intros mlProductsMap. apply keeps_bind.
  { apply process_chunks_keeps. intros s. apply P_sku. }
  intros processed. cbv zeta. destruct (_ && _); [|apply keeps_ret].
  apply keeps_bind; [apply keeps_emit, P_sleep|].
  intros _. apply retry_loop_keeps.
Qed.

Lemma syncMultipleProducts_keeps skus :
  keeps P (syncMultipleProducts fuel skus options).
Proof.
  unfold syncMultipleProducts. destruct (limit_concurrency _) as [c warning].
  apply keeps_bind.
  { destruct warning; [apply keeps_emit, P_warn | apply keeps_ret]. }
  intros _. apply keeps_try_catch; [|intros; apply keeps_throw].
  apply keeps_bind.
  { apply keeps_collaborator, P_reads. unfold not_put. simpl. tauto. }
  intros _. apply passes_keep with
    (results0 := {| total := Z.of_nat (length skus); updated_count := 0;
                    skipped_count := 0; errors_count := 0;
                    noChange_count := 0; details := [] |}).
Qed.

End Passes.

(** A dry run, retries and all, sends nothing to the sink. *)
Lemma dry_run_reads fuel skus options :
  dryRun options = true ->
  keeps not_put (syncMultipleProducts fuel skus options).
Proof.
  intros Hdry. apply syncMultipleProducts_keeps; [done|].
  intros mlProductsMap s. by apply process_sku_dry_reads.
Qed.

(** ** Updates sent in one pass *)

Lemma adds_weaken {A} (n n' : nat) (m : Comp A) :
  (n <= n')%nat -> adds n m -> adds n' m.
Proof. intros Hn Hm st. specialize (Hm st). lia. Qed.

Lemma adds_reads {A} (m : Comp A) : keeps not_put m -> adds 0 m.
Proof.
  intros Hm st. rewrite (extends_puts _ _ (Hm st)). lia.
Qed.

Lemma adds_ret {A} (a : A) : adds 0 (mret a).
Proof. intros st. simpl. lia. Qed.

Lemma adds_bind {A B} (n n' : nat) (m : Comp A) (k : A -> Comp B) :
  adds n m -> (forall a, adds n' (k a)) -> adds (n + n') (m ≫= k).
Proof.
  intros Hm Hk st. rewrite bind_run. specialize (Hm st).
  destruct (m st) as [[a|e|] st1]; simpl in *; try lia.
  specialize (Hk a st1). lia.
Qed.

Lemma adds_try_catch {A} (n n' : nat) (m : Comp A) (h : Exn -> Comp A) :
  adds n m -> (forall e, adds n' (h e)) -> adds (n + n') (try_catch m h).
Proof.
  intros Hm Hh st. unfold try_catch. specialize (Hm st).
  destruct (m st) as [[a|e|] st1]; simpl in *; try lia.
  specialize (Hh e st1). lia.
Qed.

(** One identifier, one update at most. *)
Lemma process_sku_adds fuel options mlProductsMap s :
  adds 1 (process_sku fuel options mlProductsMap s).
Proof.
  intros st. unfold process_sku, try_catch.
  pose proof (syncProductStock_puts fuel s options (Some mlProductsMap) st) as H.
  cbv zeta in H.
  destruct (syncProductStock fuel s options (Some mlProductsMap) st)
    as [[r|e|] st1]; simpl in *;
    (destruct H as [->|(_ & mp & st1' & mlp & st2 & _ & _ & _ & ->)];
     [lia | rewrite length_app; simpl; lia]).
Qed.

Section PassUpdates.

Context {A : Type}.
Variable processor : string -> Comp A.
Hypothesis processor_adds : forall s, adds 1 (processor s).

Lemma free_replicate (n : nat) : free (replicate n (@None A)) = n.
Proof. induction n as [|n IH]; simpl; [done | by rewrite IH]. Qed.

Lemma free_settled (slots : list (option A)) (i : nat) (r : A) :
  slots !! i = Some None -> S (free (<[i:=Some r]> slots)) = free slots.
Proof.
  revert i. induction slots as [|slot slots IH]; intros i Hi; [done|].
  destruct i as [|i]; simpl in *.
  - by injection Hi as ->.
  - destruct slot; simpl; by rewrite <- (IH i Hi).
Qed.

Lemma free_pending (slots : list (option A)) (i : nat) :
  slots !! i = Some None -> (1 <= free slots)%nat.
Proof.
  revert i. induction slots as [|slot slots IH]; intros i Hi; [done|].
  destruct i as [|i]; simpl in *.
  - injection Hi as ->. simpl. lia.
  - specialize (IH i Hi). destruct slot; simpl; lia.
Qed.

Lemma free_zip (chunk : list string) (slots : list (option A)) :
  (free (zip chunk slots).*2 <= free slots)%nat.
Proof.
  revert slots. induction chunk as [|s chunk IH]; intros [|slot slots];
    try (simpl; lia).
  change (free (slot :: (zip chunk slots).*2) <= free (slot :: slots))%nat.
  specialize (IH slots). destruct slot; simpl; lia.
Qed.

Lemma await_all_adds (pending : list (string * option A)) :
  adds (free pending.*2) (await_all processor pending).
Proof.
  induction pending as [|[s [r|]] pending IH];
    [apply adds_ret | rewrite fmap_cons; cbn [free snd await_all] ..].
  - eapply adds_weaken; cycle 1.
    + apply adds_bind; [exact IH | intros; apply adds_ret].
    + lia.
  - eapply adds_weaken; cycle 1.
    + apply adds_bind; [apply processor_adds|]. intros r.
      apply adds_bind; [exact IH | intros; apply adds_ret].
    + lia.
Qed.

(** Settling in any order and then awaiting what is left runs the
    processor once for each empty slot at most. *)
Lemma settle_then_await_adds chunk (order : list nat) (slots : list (option A)) :
  adds (free slots)
    (slots' ← foldM (settle processor chunk) order slots;
     await_all processor (zip chunk slots')).
Proof.
  revert slots. induction order as [|i order IH]; intros slots.
  - intros st. simpl. rewrite bind_run. simpl.
    pose proof (await_all_adds (zip chunk slots) st).
    pose proof (free_zip chunk slots). lia.
  - intros st. rewrite bind_run. simpl. rewrite bind_run. unfold settle at 1.
    destruct (chunk !! i) as [s|];
      [destruct (slots !! i) as [[r|]|] eqn:Hslot|];
      try (specialize (IH slots st); rewrite bind_run in IH; exact IH).
    rewrite bind_run. pose proof (processor_adds s st) as Hs.
    pose proof (free_pending slots i Hslot) as Hfree.
    destruct (processor s st) as [[r|e|] st1]; simpl in *; try lia.
    specialize (IH (<[i:=Some r]> slots) st1). rewrite bind_run in IH.
    pose proof (free_settled slots i r Hslot). lia.
Qed.

Lemma Promise_all_adds chunk : adds (length chunk) (Promise_all processor chunk).
Proof.
  intros st. unfold Promise_all. rewrite bind_run. simpl.
  pose proof (settle_then_await_adds chunk (completion_order env (world st))
                (replicate (length chunk) None) st) as H.
  by rewrite free_replicate in H.
Qed.

End PassUpdates.

Lemma adds_emit_warn_sleep ev : not_put ev -> adds 0 (emit ev).
Proof. intros Hev. apply adds_reads. by apply keeps_emit. Qed.

Lemma process_chunks_adds fuel array processor c i results rateLimitErrors :
  (forall s, adds 1 (processor s)) ->
  0 < c -> 0 <= i ->
  adds (length array - Z.to_nat i)
       (process_chunks fuel array processor c i results rateLimitErrors).
Proof.
  intros Hp Hc. revert i results rateLimitErrors.
  induction fuel as [|fuel IH]; intros i results rle Hi; simpl;
    destruct (Z.ltb_spec i (Z.of_nat (length array))) as [Hlt|Hge];
    try (eapply adds_weaken; [|apply adds_ret]; lia).
  - intros st. simpl. lia.
  - eapply adds_weaken; [|apply adds_bind
      with (n := length (js_slice array i (i + c)))
           (n' := (length array - Z.to_nat (i + c))%nat)].
    + rewrite js_slice_chunk by lia. rewrite length_take, length_drop. lia.
    + replace (length (js_slice array i (i + c)))
        with (length (js_slice array i (i + c)) + 0 + 0)%nat by lia.
      apply adds_try_catch.
      * apply adds_bind; [by apply Promise_all_adds|]. intros chunkResults.
        replace O with (0 + 0)%nat by lia.
        apply adds_bind; [|intros; apply adds_ret].
        destruct (_ <=? _); [|apply adds_ret].
        apply adds_emit_warn_sleep. unfold not_put. simpl. tauto.
      * intros e. destruct (_ && _); [|intros st; simpl; lia].
        apply adds_reads. unfold warn, sleep. frame; unfold not_put; simpl; tauto.
    + intros [results' rle'].
      apply (adds_bind O (length array - Z.to_nat (i + c))).
      * apply adds_emit_warn_sleep. unfold not_put. simpl. tauto.
      * intros _. apply IH. lia.
Qed.

(** A pass over [array] with a positive concurrency sends at most one
    update for each of its elements. *)
Lemma processInParallel_adds fuel inner options mlProductsMap array c :
  0 < c ->
  adds (length array)
       (processInParallel fuel array (process_sku inner options mlProductsMap) c).
Proof.
  intros Hc. unfold processInParallel.
  eapply adds_weaken; [|apply process_chunks_adds; try done].
  - simpl. lia.
  - intros s. apply process_sku_adds.
Qed.



(** ** Concurrency limits *)

(** ** Two calls in sequence *)

Lemma lookup_in_given_index fuel sku index st :
  getMercadoLibreProductStockBySKU fuel sku (Some index) st
  = (Ok (map_get sku index), st).
Proof. reflexivity. Qed.

(** C7, as the code has it: when [syncProductStock] has updated an
    identifier, a second call with the same prebuilt index, the source
    still reporting the same quantity and the sink accepting the
    update, returns the same [updated] result again and not
    [no_change]: the index keeps the quantity it was built with. *)
Theorem repeated_sync_updates_again fuel sku options index st result1 st1
    mp st2 mlp st3 :
  syncProductStock fuel sku options (Some index) st = (Ok result1, st1) ->
  action result1 = updated ->
  getManagerProductBySKU sku st1 = (Ok (Some mp), st2) ->
  managerStock result1 = Some (quantity_of mp) ->
  map_get sku index = Some mlp ->
  updateMercadoLibreStock (itemId mlp) (quantity_of mp) st2 = (Ok tt, st3) ->
  syncProductStock fuel sku options (Some index) st1 = (Ok result1, st3)
  /\ action result1 <> no_change.
Proof.
  intros Hfirst Hupdated Hsource Hsame Hindex Hput.
  split; [|by rewrite Hupdated].
  rewrite syncProductStock_run in Hfirst.
  destruct (getManagerProductBySKU sku st) as [[[mp1|]|e|] st1'];
    try (injection Hfirst as <- _; discriminate); try discriminate.
  rewrite lookup_in_given_index, Hindex in Hfirst. unfold decide_found in Hfirst.
  destruct ((quantity_of mp1 =? currentStock mlp) && negb (forceUpdate options)) eqn:Hcond;
    [injection Hfirst as <- _; discriminate|].
  destruct (dryRun options) eqn:Hdry; [injection Hfirst as <- _; discriminate|].
  destruct (updateMercadoLibreStock (itemId mlp) (quantity_of mp1) st1') as [[[]|e|] st1''];
    try (injection Hfirst as <- _; discriminate); try discriminate.
  injection Hfirst as <- <-. simpl in Hsame. injection Hsame as Hsame.
  assert (Hsink : getMercadoLibreProductStockBySKU fuel sku (Some index) st2
                  = (Ok (Some mlp), st2))
    by (by rewrite lookup_in_given_index, Hindex).
  rewrite (syncProductStock_found _ _ _ _ _ _ _ _ _ Hsource Hsink).
  unfold decide_found.
  rewrite <- Hsame, Hcond, Hdry. rewrite <- Hsame in Hput. by rewrite Hput.
Qed.

(** ** Runs that return *)

Lemma finishes_ret {A} (a : A) : finishes (mret a).
Proof. by intros st. Qed.

Lemma finishes_throw {A} (e : Exn) : finishes (throw e : Comp A).
Proof. by intros st. Qed.

Lemma finishes_remote {A} ev (f : W -> A * W) : finishes (remote ev f).
Proof. intros st. unfold remote. by destruct (f (world st)). Qed.

Lemma finishes_bind {A B} (m : Comp A) (k : A -> Comp B) (Q : A -> Prop) :
  returns m Q -> finishes m -> (forall a, Q a -> finishes (k a)) ->
  finishes (m ≫= k).
Proof.
  intros HQ Hm Hk st. rewrite bind_run. specialize (Hm st). specialize (HQ st).
  destruct (m st) as [[a|e|] st1]; simpl in *; try done. by apply Hk.
Qed.

Lemma finishes_then {A B} (m : Comp A) (k : A -> Comp B) :
  finishes m -> (forall a, finishes (k a)) -> finishes (m ≫= k).
Proof.
  intros Hm Hk. apply finishes_bind with (Q := fun _ => True);
    [apply returns_any | done | auto].
Qed.

Lemma finishes_try_catch {A} (m : Comp A) (h : Exn -> Comp A) :
  finishes m -> (forall e, finishes (h e)) -> finishes (try_catch m h).
Proof.
  intros Hm Hh st. unfold try_catch. specialize (Hm st).
  destruct (m st) as [[a|e|] st1]; simpl in *; try done. apply Hh.
Qed.

Lemma finishes_foldM {A B} (f : B -> A -> Comp B) (l : list A) (acc : B) :
  (forall acc x, finishes (f acc x)) -> finishes (foldM f l acc).
Proof.
  intros Hf. revert acc. induction l as [|x l IH]; intros acc; simpl.
  - apply finishes_ret.
  - apply finishes_then; [apply Hf | intros acc'; apply IH].
Qed.

Lemma finishes_axios {A} ev (f : W -> (Exn + A) * W) : finishes (axios ev f).
Proof.
  apply finishes_then; [apply finishes_remote|].
  intros [e|a]; [apply finishes_throw | apply finishes_ret].
Qed.

Lemma finishes_collaborator {A} ev (f : W -> (string + A) * W) :
  finishes (collaborator ev f).
Proof.
  apply finishes_then; [apply finishes_remote|].
  intros [e|a]; [apply finishes_throw | apply finishes_ret].
Qed.

(** The same walk along the syntax as [frame], for [finishes]. *)
Ltac finish :=
  repeat first
    [ apply finishes_axios | apply finishes_collaborator
    | apply finishes_remote
    | apply finishes_ret | apply finishes_throw
    | apply finishes_then; [|intros]
    | apply finishes_try_catch; [|intros]
    | apply finishes_foldM; intros
    | match goal with
      | |- finishes (match ?x with _ => _ end) => destruct x
      | |- finishes (let '(_, _) := ?x in _) => destruct x
      end
    | by intros ? ].

Lemma getManagerProductBySKU_finishes sku : finishes (getManagerProductBySKU sku).
Proof.
  unfold getManagerProductBySKU, getERPAuthToken, authenticateWithERP. finish.
Qed.

Lemma updateMercadoLibreStock_finishes itemId quantity :
  finishes (updateMercadoLibreStock itemId quantity).
Proof. unfold updateMercadoLibreStock. finish. Qed.

(** With the index at hand the processor needs no fuel. *)
Lemma process_sku_finishes fuel options mlProductsMap s :
  finishes (process_sku fuel options mlProductsMap s).
Proof.
  intros st. unfold process_sku, try_catch. rewrite syncProductStock_run.
  pose proof (getManagerProductBySKU_finishes s st) as H1.
  destruct (getManagerProductBySKU s st) as [[[mp|]|e|] st1];
    cbn [fst] in *; try done.
  rewrite lookup_in_given_index.
  destruct (map_get s mlProductsMap) as [mlp|]; [|done].
  unfold decide_found.
  destruct (_ && _); [done|]. destruct (dryRun options); [done|].
  pose proof (updateMercadoLibreStock_finishes (itemId mlp) (quantity_of mp) st1) as H2.
  by destruct (updateMercadoLibreStock (itemId mlp) (quantity_of mp) st1)
    as [[[]|e|] st2].
Qed.

Lemma Promise_all_finishes {A} (processor : string -> Comp A) chunk :
  (forall s, finishes (processor s)) -> finishes (Promise_all processor chunk).
Proof.
  intros Hp. unfold Promise_all.
  apply finishes_then; [by intros st|]. intros st.
  apply finishes_then.
  - apply finishes_foldM. intros slots i. unfold settle.
    destruct (chunk !! i); [|apply finishes_ret].
    destruct (slots !! i) as [[r|]|]; try apply finishes_ret.
    apply finishes_then; [apply Hp | intros; apply finishes_ret].
  - intros slots. generalize (zip chunk slots). intros pending.
    induction pending as [|[s [r|]] pending IH]; simpl.
    + apply finishes_ret.
    + apply finishes_then; [exact IH | intros; apply finishes_ret].
    + apply finishes_then; [apply Hp|]. intros r.
      apply finishes_then; [exact IH | intros; apply finishes_ret].
Qed.

(** A positive step reaches the end of the array within as many
    iterations as it has elements left. *)
Lemma process_chunks_finishes fuel array processor c i results rateLimitErrors :
  (forall s, finishes (processor s)) ->
  0 < c -> 0 <= i ->
  (length array - Z.to_nat i <= fuel)%nat ->
  finishes (process_chunks fuel array processor c i results rateLimitErrors).
Proof.
  intros Hp Hc. revert i results rateLimitErrors.
  induction fuel as [|fuel IH]; intros i results rle Hi Hfuel; simpl;
    destruct (Z.ltb_spec i (Z.of_nat (length array))) as [Hlt|Hge];
    try apply finishes_ret; [lia|].
  apply finishes_then;
    [|intros [results' rle']; apply finishes_then;
        [by intros st | intros; apply IH; lia]].
  apply finishes_try_catch.
  - apply finishes_then; [by apply Promise_all_finishes|]. intros chunkResults.
    apply finishes_then; [|intros; apply finishes_ret].
    destruct (_ <=? _); [by intros st | apply finishes_ret].
  - intros e. destruct (_ && _); [|apply finishes_throw].
    apply finishes_then; [by intros st|]. intros _.
    apply finishes_then; [by intros st | intros; apply finishes_ret].
Qed.

Lemma retry_loop_finishes n inner options mlProductsMap concurrency maxRetries
    retryDelay retryAttempt remainingFailures results :
  (Z.to_nat (maxRetries + 1 - retryAttempt) <= n)%nat ->
  (length remainingFailures <= inner)%nat ->
  finishes (retry_loop n inner options mlProductsMap concurrency maxRetries
              retryDelay retryAttempt remainingFailures results).
Proof.
  revert retryAttempt remainingFailures results.
  induction n as [|n IH]; intros retryAttempt remaining results Hn Hinner; simpl;
    destruct (Z.leb_spec retryAttempt maxRetries) as [Hle|Hgt];
    rewrite ?andb_false_r; try apply finishes_ret;
    destruct (0 <? Z.of_nat (length remaining)); simpl;
    try apply finishes_ret; [lia|].
  apply finishes_bind
    with (Q := Forall2 result_for (sku <$> remaining)).
  - apply yields_returns, processInParallel_ok. intros s. apply process_sku_result.
  - apply process_chunks_finishes;
      [intros s; apply process_sku_finishes | lia | done
       | rewrite length_fmap; lia].
  - intros retried Hretried. apply Forall2_length in Hretried.
    rewrite length_fmap in Hretried.
    apply finishes_then; [destruct (_ && _); by intros st|]. intros _.
    apply IH; [lia|].
    pose proof (length_filter (fun r => retryable r = true) retried). lia.
Qed.

Lemma retry_loop_no_throw n inner options mlProductsMap concurrency maxRetries
    retryDelay retryAttempt remainingFailures results :
  yields (retry_loop n inner options mlProductsMap concurrency maxRetries
            retryDelay retryAttempt remainingFailures results)
         (fun _ => True).
Proof.
  revert retryAttempt remainingFailures results.
  induction n as [|n IH]; intros retryAttempt remaining results; simpl;
    destruct (_ && _); try (by intros st).
  eapply yields_bind.
  { apply processInParallel_ok with (Q := result_for).
    intros s. apply process_sku_result. }
  intros retried _. eapply yields_bind with (Q1 := fun _ => True).
  { destruct (_ && _); by intros st. }
  intros _ _. apply IH.
Qed.

(** With the catalog index loaded, the authentication granted and a
    positive concurrency, [syncMultipleProducts] returns a summary as
    soon as the fuel covers the batch and the retries. *)
Lemma syncMultipleProducts_returns fuel skus options st index user w1 :
  mlProductsCache st = Some index ->
  verifyMercadoLibreAuth env (world st) = (inr user, w1) ->
  0 < requested_concurrency options ->
  (length skus + Z.to_nat (default 3%Z (maxRetries options)) <= fuel)%nat ->
  exists results st',
    syncMultipleProducts fuel skus options st = (Ok results, st').
Proof.
  intros Hcache Hauth Hc Hfuel. unfold syncMultipleProducts.
  assert (Hpos : 0 < (limit_concurrency (requested_concurrency options)).1).
  { unfold limit_concurrency, ABSOLUTE_MAX_CONCURRENCY, MAX_RECOMMENDED_CONCURRENCY.
    destruct (_ <? _); [simpl; lia|]. by destruct (_ <? _). }
  destruct (limit_concurrency _) as [c warning]. simpl in Hpos.
  rewrite bind_run.
  set (st_w := (match warning with Some w => warn w | None => mret () end st).2).
  assert (Hstep : match warning with Some w => warn w | None => mret () end st
                  = (Ok (), st_w)) by (subst st_w; by destruct warning).
  assert (Hworld : world st_w = world st /\ mlProductsCache st_w = Some index).
  { subst st_w. by destruct warning. }
  destruct Hworld as [Hworld Hcache_w]. rewrite Hstep. clear Hstep.
  unfold try_catch. rewrite bind_run.
  unfold collaborator at 1. rewrite bind_run. unfold remote at 1.
  rewrite Hworld, Hauth. cbv beta iota. unfold mret at 1, M_ret at 1.
  cbv beta iota. rewrite bind_run.
  unfold loadAllMercadoLibreProducts at 1. rewrite bind_run.
  unfold get_state at 1. cbv beta iota. cbn [mlProductsCache]. rewrite Hcache_w.
  unfold mret at 1, M_ret at 1. cbv beta iota.
  match goal with
  | |- context [(processInParallel fuel skus ?p c ≫= ?k) ?s] =>
      assert (Hy : yields (processInParallel fuel skus p c ≫= k) (fun _ => True));
      [|assert (Hf : finishes (processInParallel fuel skus p c ≫= k));
        [|specialize (Hy s); specialize (Hf s);
          destruct ((processInParallel fuel skus p c ≫= k) s)
            as [[results|e|] st']; try done; by eexists _, _]]
  end.
  - eapply yields_bind.
    { apply processInParallel_ok with (Q := result_for).
      intros s. apply process_sku_result. }
    intros processed _. cbv zeta. destruct (_ && _); [|by intros s].
    eapply yields_bind with (Q1 := fun _ => True); [by intros s|].
    intros _ _. apply retry_loop_no_throw.
  - apply finishes_bind with (Q := Forall2 result_for skus).
    + apply yields_returns, processInParallel_ok. intros s. apply process_sku_result.
    + apply process_chunks_finishes;
        [intros s; apply process_sku_finishes | done | done | lia].
    + intros processed Hprocessed. apply Forall2_length in Hprocessed.
      cbv zeta. destruct (_ && _); [|apply finishes_ret].
      apply finishes_then; [by intros s|]. intros _.
      apply retry_loop_finishes; [lia|].
      match goal with
      | |- context [fold_left tally ?l ?r0] =>
          destruct (fold_tally_counts l r0) as (_ & Hd & _); rewrite Hd
      end.
      cbn [details].
      pose proof (length_filter (fun r => retryable r = true) processed). lia.
Qed.

(** ** Empty batches and an empty catalog *)

Lemma processInParallel_nil fuel processor c :
  processInParallel fuel [] processor c = mret [].
Proof. by destruct fuel. Qed.

(** C8, as the code has it: the handler of [POST /api/sync/stocks]
    answers 400 to a batch that is not an array or is empty, without
    calling [syncMultipleProducts] and without any event;
    [syncMultipleProducts] itself does not validate: on an empty batch it
    checks the authentication, and when it returns, it returns the
    summary with no details and every counter at 0. *)
Theorem empty_batch_rejected_by_handler fuel options st :
  (forall skus dryRun,
      batch_isArray skus = false \/ batch_items skus = [] ->
      post_sync_stocks fuel skus dryRun st = (Ok bad_request, st))
  /\ (forall results st',
        syncMultipleProducts fuel [] options st = (Ok results, st') ->
        results = empty_summary
        /\ exists t1 t2,
             trace st' = (trace st ++ t1 ++ EvVerifyAuth :: t2)%list).
Proof.
  split.
  - intros skus dry [Hna|Hempty]; unfold post_sync_stocks, try_catch.
    + by rewrite Hna, orb_true_r.
    + by rewrite Hempty, orb_true_r.
  - intros results st' Hrun. unfold syncMultipleProducts in Hrun.
    destruct (limit_concurrency _) as [c warning].
    rewrite bind_run in Hrun.
    set (st_w := (match warning with Some w => warn w | None => mret () end st).2).
    assert (Hw : exists t1, trace st_w = (trace st ++ t1)%list).
    { subst st_w. destruct warning; [by exists [EvWarn w] | exists []; simpl].
      by rewrite app_nil_r. }
    assert (Hstep : match warning with Some w => warn w | None => mret () end st
                    = (Ok (), st_w)) by (subst st_w; by destruct warning).
    rewrite Hstep in Hrun. clear Hstep.
    destruct Hw as (t1 & Ht1).
    unfold try_catch in Hrun. rewrite bind_run in Hrun.
    unfold collaborator at 1 in Hrun. rewrite bind_run in Hrun.
    unfold remote at 1 in Hrun.
    destruct (verifyMercadoLibreAuth env (world st_w)) as [[msg|user] w1];
      simpl in Hrun; [discriminate|].
    rewrite bind_run in Hrun.
    match type of Hrun with
    | context [loadAllMercadoLibreProducts fuel ?s] =>
        pose proof (loadAllMercadoLibreProducts_reads fuel s) as Hload;
        destruct (loadAllMercadoLibreProducts fuel s) as [[index|e|] st_l]
    end; try discriminate.
    rewrite processInParallel_nil in Hrun. simpl in Hrun.
    injection Hrun as <- <-. split; [done|].
    destruct Hload as (t2 & Ht2 & _). simpl in Ht2.
    exists t1, t2. rewrite Ht2, Ht1. by rewrite <- !app_assoc.
Qed.

(** C10: when the catalog index that [syncAllProducts] obtains has no
    SKU, [syncAllProducts] throws, in the state the index builder left:
    [syncMultipleProducts] is not started. *)
Theorem empty_catalog_is_fatal fuel options st index st1 :
  loadAllMercadoLibreProducts fuel st = (Ok index, st1) ->
  map_keys index = [] ->
  syncAllProducts fuel options st = (Throw (Error no_listing_message), st1).
Proof.
  intros Hload Hkeys. unfold syncAllProducts, try_catch.
  rewrite bind_run, Hload. cbv beta iota. by rewrite Hkeys.
Qed.

(** ** The identifier of a listing *)

Lemma truthy_str_Some (o : option string) :
  truthy_str o = true -> exists s, o = Some s /\ s <> "".
Proof.
  destruct o as [s|]; [|done]. simpl. intros H. exists s. split; [done|].
  intros ->. done.
Qed.

Lemma resolveSku_nonempty (item : MLItem) (s : string) :
  resolveSkuFromMLItem item = Some s -> s <> "".
Proof.
  unfold resolveSkuFromMLItem.
  destruct (truthy_str (seller_custom_field item)) eqn:Hcustom.
  - intros H. destruct (truthy_str_Some _ Hcustom) as (s' & Hs' & Hne).
    rewrite Hs' in H. by injection H as <-.
  - destruct (attributes item) as [attrs|]; [|done].
    destruct (List.find is_seller_sku attrs) as [attr|]; [|done].
    destruct (truthy_str (value_name attr)) eqn:Hvalue; [|done].
    intros H. destruct (truthy_str_Some _ Hvalue) as (s' & Hs' & Hne).
    rewrite Hs' in H. by injection H as <-.
Qed.

(** X1: an identifier the resolver returns is never empty, and it is
    the seller's custom field of the listing or, when that field is
    empty or missing, the value of the first attribute tagged
    [SELLER_SKU] or [SELLER_SKU_ID]; the resolver has no other source,
    the id of the listing in particular. *)
Theorem resolveSku_sound (item : MLItem) (s : string) :
  resolveSkuFromMLItem item = Some s ->
  s <> ""
  /\ (seller_custom_field item = Some s
      \/ (truthy_str (seller_custom_field item) = false
          /\ exists attrs attr,
               attributes item = Some attrs
               /\ List.find is_seller_sku attrs = Some attr
               /\ is_seller_sku attr = true
               /\ value_name attr = Some s)).
Proof.
  unfold resolveSkuFromMLItem.
  destruct (truthy_str (seller_custom_field item)) eqn:Hcustom.
  - intros H. destruct (truthy_str_Some _ Hcustom) as (s' & Hs' & Hne).
    rewrite Hs' in H. injection H as <-. split; [done | by left].
  - destruct (attributes item) as [attrs|]; [|done].
    destruct (List.find is_seller_sku attrs) as [attr|] eqn:Hfind; [|done].
    destruct (truthy_str (value_name attr)) eqn:Hvalue; [|done].
    intros H. destruct (truthy_str_Some _ Hvalue) as (s' & Hs' & Hne).
    rewrite Hs' in H. injection H as <-. split; [done|]. right.
    split; [done|]. exists attrs, attr.
    apply List.find_some in Hfind as Hattr. by destruct Hattr.
Qed.

(** X2: only the first attribute tagged as seller SKU is consulted: when
    the custom field is empty or missing and that attribute has no
    value, the listing has no identifier, whatever the attributes after
    it hold. *)
Theorem resolveSku_first_attribute_only (item : MLItem)
    (before after : list MLAttr) (attr : MLAttr) :
  truthy_str (seller_custom_field item) = false ->
  attributes item = Some (before ++ attr :: after)%list ->
  Forall (fun a => is_seller_sku a = false) before ->
  is_seller_sku attr = true ->
  truthy_str (value_name attr) = false ->
  resolveSkuFromMLItem item = None.
Proof.
  intros Hcustom Hattrs Hbefore Hattr Hvalue.
  unfold resolveSkuFromMLItem. rewrite Hcustom, Hattrs.
  assert (Hfind : List.find is_seller_sku (before ++ attr :: after) = Some attr).
  { clear Hattrs. induction Hbefore as [|a before Ha _ IH]; simpl;
      [by rewrite Hattr | by rewrite Ha]. }
  by rewrite Hfind, Hvalue.
Qed.

(** ** The catalog index *)

Lemma map_get_None (k : string) (m : Index) :
  map_get k m = None <-> k ∉ map_keys m.
Proof.
  induction m as [|[k' v] m IH]; simpl.
  - split; [intros _; apply not_elem_of_nil | done].
  - rewrite not_elem_of_cons. destruct (String.eqb_spec k k') as [->|Hne].
    + split; [done | by intros [? _]].
    + rewrite IH. tauto.
Qed.

Lemma map_set_absent (k : string) (v : MLProduct) (m : Index) :
  map_get k m = None -> map_set k v m = (m ++ [(k, v)])%list.
Proof.
  induction m as [|[k' v'] m IH]; simpl; [done|].
  destruct (String.eqb k k'); [done|]. intros H. by rewrite IH.
Qed.

Lemma map_get_app_l (k : string) (v : MLProduct) (m m' : Index) :
  map_get k m = Some v -> map_get k (m ++ m')%list = Some v.
Proof.
  induction m as [|[k' v'] m IH]; simpl; [done|].
  by destruct (String.eqb k k').
Qed.

Lemma index_extends_refl (m : Index) : index_extends m m.
Proof. by split. Qed.

Lemma index_extends_trans (m1 m2 m3 : Index) :
  index_extends m1 m2 -> index_extends m2 m3 -> index_extends m1 m3.
Proof. intros [H1 G1] [H2 G2]. split; auto. Qed.

(** Adding a listing under a new, non-empty SKU. *)
Lemma index_extends_set (m : Index) (k : string) (v : MLProduct) :
  map_has k m = false -> k <> "" -> p_sku v = k ->
  index_extends m (map_set k v m).
Proof.
  unfold map_has. intros Hhas Hne Hsku.
  destruct (map_get k m) eqn:Hget; [done|]. rewrite map_set_absent by done.
  split.
  - intros [Hnodup Hall]. split.
    + unfold map_keys. rewrite map_app. apply NoDup_app. split; [done|].
      split; [|apply NoDup_singleton].
      intros x Hx Hx'. apply list_elem_of_singleton in Hx'. simpl in Hx'. subst x.
      by apply map_get_None in Hget.
    + apply Forall_app. split; [done|]. by constructor.
  - intros k' v' Hk'. by apply map_get_app_l.
Qed.

Lemma returns_ret {A} (a : A) (Q : A -> Prop) : Q a -> returns (mret a) Q.
Proof. intros H st. exact H. Qed.

Lemma returns_try_catch {A} (m : Comp A) (h : Exn -> Comp A) (Q : A -> Prop) :
  returns m Q -> (forall e, returns (h e) Q) -> returns (try_catch m h) Q.
Proof.
  intros Hm Hh st. unfold try_catch. specialize (Hm st).
  destruct (m st) as [[a|e|] st1]; simpl in *; try done. apply Hh.
Qed.

Lemma returns_foldM {A B} (f : B -> A -> Comp B) (l : list A) (acc : B)
    (I : B -> Prop) :
  I acc -> (forall acc x, I acc -> returns (f acc x) I) ->
  returns (foldM f l acc) I.
Proof.
  intros Hacc Hf. revert acc Hacc.
  induction l as [|x l IH]; intros acc Hacc; simpl.
  - by apply returns_ret.
  - eapply returns_bind; [by apply Hf|]. intros acc' Hacc'. by apply IH.
Qed.

(** One listing of the scan: it never throws, and the index it leaves
    extends the one it found. *)
Lemma load_item_extends acc id :
  yields (load_item acc id) (fun acc' => index_extends acc.1 acc'.1).
Proof.
  destruct acc as [productMap itemsWithoutSKU]. intros st.
  unfold load_item, try_catch, axios, warn, emit. rewrite !bind_run.
  unfold remote. destruct (ml_item env id (world st)) as [[e|item] w1];
    cbv beta iota delta [fst snd mret M_ret throw];
    [apply index_extends_refl|].
  destruct (resolveSkuFromMLItem item) as [s|] eqn:Hresolve;
    cbv beta iota delta [fst snd mret M_ret]; [|apply index_extends_refl].
  destruct (map_has s productMap) eqn:Hhas;
    cbv beta iota delta [fst snd mret M_ret negb]; [apply index_extends_refl|].
  apply index_extends_set; [done | | done].
  exact (resolveSku_nonempty item s Hresolve).
Qed.

Lemma load_items_extend itemIds acc :
  yields (foldM load_item itemIds acc) (fun acc' => index_extends acc.1 acc'.1).
Proof.
  revert acc. induction itemIds as [|id itemIds IH]; intros acc; simpl.
  - apply yields_ret, index_extends_refl.
  - eapply yields_bind; [apply load_item_extends|]. intros acc1 H1.
    eapply yields_weaken; [|apply IH]. intros acc2 H2.
    exact (index_extends_trans _ _ _ H1 H2).
Qed.

Lemma load_pages_extend fuel userId offset acc :
  returns (load_pages fuel userId offset acc)
          (fun acc' => index_extends acc.1 acc'.1).
Proof.
  revert offset acc. induction fuel as [|fuel IH]; intros offset acc; simpl.
  - by intros st.
  - eapply returns_bind; [apply returns_any|]. intros page _.
    destruct (_ =? 0); [apply returns_ret, index_extends_refl|].
    eapply returns_bind; [apply yields_returns, load_items_extend|].
    intros acc1 H1. destruct (_ || _); [by apply returns_ret|].
    intros st. specialize (IH (offset + limit) acc1 st).
    destruct (load_pages fuel userId (offset + limit) acc1 st) as [[acc2|e|] st1];
      simpl in *; try done. exact (index_extends_trans _ _ _ H1 IH).
Qed.

(** X3: a catalog index built by the scan holds no SKU twice, stores
    every listing under its own SKU, and holds no empty SKU. *)
Theorem built_index_has_unique_skus fuel st index st' :
  mlProductsCache st = None ->
  loadAllMercadoLibreProducts fuel st = (Ok index, st') ->
  NoDup (map_keys index)
  /\ (forall k v, map_get k index = Some v -> p_sku v = k /\ k <> "").
Proof.
  intros Hcache Hload.
  assert (Hok : returns
    (try_catch
       (token ← collaborator EvAccessToken (getAccessToken env);
        userId ←
          (if truthy_str ML_USER_ID then mret (default "" ML_USER_ID)
           else collaborator EvVerifyAuth (verifyMercadoLibreAuth env));
        '(productMap, itemsWithoutSKU) ← load_pages fuel userId 0 ([], []);
        _ ← set_mlProductsCache productMap;
        _ ← (if 0 <? Z.of_nat (length itemsWithoutSKU)
             then warn (WarnItemsWithoutSKU (length itemsWithoutSKU))
             else mret tt);
        mret productMap)
       (fun error => throw error)) index_ok).
  { apply returns_try.
    eapply returns_bind; [apply returns_any|]. intros token _.
    eapply returns_bind; [apply returns_any|]. intros userId _.
    eapply returns_bind; [apply load_pages_extend|].
    intros [productMap itemsWithoutSKU] [Hext _].
    eapply returns_bind; [apply returns_any|]. intros _ _.
    eapply returns_bind; [apply returns_any|]. intros _ _.
    apply returns_ret. apply Hext. split; [constructor | constructor]. }
  unfold loadAllMercadoLibreProducts in Hload. rewrite bind_run in Hload.
  unfold get_state in Hload. cbv beta iota in Hload. rewrite Hcache in Hload.
  specialize (Hok st). rewrite Hload in Hok. simpl in Hok.
  destruct Hok as [Hnodup Hall]. split; [done|].
  intros k v Hget. clear Hnodup Hload.
  induction index as [|[k' v'] index IH]; [done|].
  apply Forall_cons in Hall as [[Hv Hk] Hall]. simpl in *.
  destruct (String.eqb_spec k k') as [->|Hne]; [|by apply IH].
  injection Hget as <-. by split.
Qed.

(** X4: the first listing seen for a SKU wins: an entry, once in the
    index, is still there, unchanged, when the scan of the following
    listings and pages returns. *)
Theorem first_listing_wins fuel userId offset productMap itemsWithoutSKU st
    productMap' itemsWithoutSKU' st' k v :
  load_pages fuel userId offset (productMap, itemsWithoutSKU) st
  = (Ok (productMap', itemsWithoutSKU'), st') ->
  map_get k productMap = Some v ->
  map_get k productMap' = Some v.
Proof.
  intros Hload Hget.
  pose proof (load_pages_extend fuel userId offset
                (productMap, itemsWithoutSKU) st) as H.
  rewrite Hload in H. simpl in H. destruct H as [_ H]. by apply H.
Qed.

(** X5: a listing that cannot be fetched does not abort the scan:
    [load_item] never throws, and on a failed request it leaves the
    index and the list of unlinked listings as they were and traces a
    warning after the request. *)
Theorem failed_listing_is_skipped acc id st :
  (exists acc' st', load_item acc id st = (Ok acc', st'))
  /\ (forall e w1,
        ml_item env id (world st) = (inl e, w1) ->
        load_item acc id st
        = (Ok acc,
           {| world := w1;
              trace := (trace st ++ [EvMlItem id]) ++
                       [EvWarn (WarnItemFetchFailed id (exn_message e))];
              erpAuthToken := erpAuthToken st;
              erpTokenExpirationTime := erpTokenExpirationTime st;
              mlProductsCache := mlProductsCache st |})).
Proof.
  destruct acc as [productMap itemsWithoutSKU].
  unfold load_item, try_catch, axios, warn, emit. rewrite !bind_run.
  unfold remote. destruct (ml_item env id (world st)) as [[e|item] w1];
    cbv beta iota delta [fst snd mret M_ret throw].
  - split; [by eexists _, _|]. by intros e' w' [= <- <-].
  - split; [|done].
    destruct (resolveSkuFromMLItem item) as [s|]; [|by eexists _, _].
    destruct (negb (map_has s productMap)); by eexists _, _.
Qed.

Lemma loadAll_cached fuel st index :
  mlProductsCache st = Some index ->
  loadAllMercadoLibreProducts fuel st = (Ok index, st).
Proof.
  intros H. unfold loadAllMercadoLibreProducts. rewrite bind_run.
  unfold get_state. cbv beta iota. by rewrite H.
Qed.

Lemma loadAll_caches fuel st index st' :
  loadAllMercadoLibreProducts fuel st = (Ok index, st') ->
  mlProductsCache st' = Some index.
Proof.
  unfold loadAllMercadoLibreProducts. rewrite bind_run.
  unfold get_state. cbv beta iota.
  destruct (mlProductsCache st) as [cached|] eqn:Hcache.
  { by intros [= <- <-]. }
  unfold try_catch. rewrite bind_run.
  destruct (collaborator EvAccessToken (getAccessToken env) st)
    as [[token|e|] s1]; try done.
  rewrite bind_run.
  destruct ((if truthy_str ML_USER_ID then mret (default "" ML_USER_ID)
             else collaborator EvVerifyAuth (verifyMercadoLibreAuth env)) s1)
    as [[userId|e|] s2]; try done.
  rewrite bind_run.
  destruct (load_pages fuel userId 0 ([], []) s2)
    as [[[productMap itemsWithoutSKU]|e|] s3]; try done.
  rewrite bind_run. unfold set_mlProductsCache at 1. cbv beta iota.
  rewrite bind_run. destruct (0 <? _); simpl; by intros [= <- <-].
Qed.

(** X6: the index is built once: when [loadAllMercadoLibreProducts] has
    returned an index, every later call from the state it left returns
    the same index, sends nothing and leaves the state as it is. *)
Theorem index_is_memoised fuel st index st' fuel' :
  loadAllMercadoLibreProducts fuel st = (Ok index, st') ->
  loadAllMercadoLibreProducts fuel' st' = (Ok index, st').
Proof. intros H. apply loadAll_cached. by eapply loadAll_caches. Qed.

(** ** The ERP side *)

Lemma authenticate_stores st token st1 :
  authenticateWithERP st = (Ok token, st1) ->
  erpAuthToken st1 = token
  /\ erpTokenExpirationTime st1 = Some (now env (world st1) + 60 * 60 * 1000)
  /\ trace st1 = (trace st ++ [EvErpAuth])%list.
Proof.
  unfold authenticateWithERP, try_catch, axios. rewrite !bind_run.
  unfold remote. destruct (erp_auth env (world st)) as [[e|t] w1];
    cbv beta iota delta [mret M_ret throw]; [done|].
  rewrite !bind_run. unfold Date_now, set_erp_token. cbv beta iota.
  by intros [= <- <-].
Qed.

(** X7: a token obtained from the ERP is kept for an hour: while the
    clock is before the expiry noted at authentication, and the token is
    a non-empty string, [getERPAuthToken] returns it without any
    request; from the expiry on it authenticates again. *)
Theorem erp_token_is_reused st token st1 st2 :
  authenticateWithERP st = (Ok (Some token), st1) ->
  token <> "" ->
  now env (world st1) + 60 * 60 * 1000 <> 0 ->
  erpAuthToken st2 = erpAuthToken st1 ->
  erpTokenExpirationTime st2 = erpTokenExpirationTime st1 ->
  (now env (world st2) < now env (world st1) + 60 * 60 * 1000 ->
   getERPAuthToken st2 = (Ok (Some token), st2))
  /\ (now env (world st1) + 60 * 60 * 1000 <= now env (world st2) ->
      getERPAuthToken st2 = authenticateWithERP st2).
Proof.
  intros Hauth Hne Hexp Htoken Htime.
  destruct (authenticate_stores _ _ _ Hauth) as (Ht & He & _).
  set (expiry := now env (world st1) + 60 * 60 * 1000) in *.
  assert (Hrun : getERPAuthToken st2
                 = if now env (world st2) <? expiry
                   then (Ok (Some token), st2)
                   else authenticateWithERP st2).
  { unfold getERPAuthToken. rewrite bind_run. unfold get_state at 1.
    cbv beta iota. rewrite bind_run. unfold Date_now at 1. cbv beta iota.
    rewrite Htoken, Htime, Ht, He. simpl.
    destruct (String.eqb_spec token "") as [->|_]; [done|].
    destruct (Z.eqb_spec expiry 0) as [E|_]; [done|].
    simpl. by destruct (_ <? _). }
  rewrite Hrun. split; intros H.
  - destruct (Z.ltb_spec (now env (world st2)) expiry); [reflexivity | lia].
  - destruct (Z.ltb_spec (now env (world st2)) expiry); [lia | reflexivity].
Qed.

(** The product lookup when the ERP refuses the request. *)
Lemma lookup_refused sku st token st1 e w1 :
  getERPAuthToken st = (Ok token, st1) ->
  erp_product env sku (world st1) = (inl e, w1) ->
  getManagerProductBySKU sku st
  = match exn_status e with
    | Some 404 => (Ok None, answered (EvErpProduct sku) w1 st1)
    | Some 429 =>
        (Throw (Error "Rate limit alcanzado en Manager+ (429). Reduce la concurrencia."),
         answered (EvErpProduct sku) w1 st1)
    | Some status =>
        if 500 <=? status
        then (Throw (Error ("Error del servidor Manager+ (" +:+ pretty status
                            +:+ "). Puede estar sobrecargado.")),
              answered (EvErpProduct sku) w1 st1)
        else (Throw e, answered (EvErpProduct sku) w1 st1)
    | None => (Throw e, answered (EvErpProduct sku) w1 st1)
    end.
Proof.
  intros Htoken Hproduct.
  unfold getManagerProductBySKU, try_catch. rewrite bind_run, Htoken.
  cbv beta iota. unfold axios. rewrite !bind_run. unfold remote.
  rewrite Hproduct. cbv beta iota delta [throw].
  fold (answered (EvErpProduct sku) w1 st1).
  destruct (exn_status e) as [status|]; [|done].
  destruct status as [|p|p]; try done;
    repeat (destruct p as [p|p|]; try done);
    try (by destruct (500 <=? _)).
Qed.

(** X8: a product the ERP does not know (404) is not an error: the
    decision is [skipped] with the message of the source, no request
    follows the refused one (the sink is not consulted), and the result
    is not retried. *)
Theorem unknown_product_is_skipped fuel sku options mlProductsMap st
    token st1 e w1 :
  getERPAuthToken st = (Ok token, st1) ->
  erp_product env sku (world st1) = (inl e, w1) ->
  exn_status e = Some 404 ->
  syncProductStock fuel sku options mlProductsMap st
  = (Ok (skipped_result sku "Producto no encontrado en Manager+"),
     answered (EvErpProduct sku) w1 st1)
  /\ retryable (skipped_result sku "Producto no encontrado en Manager+") = false.
Proof.
  intros Htoken Hproduct Hstatus. split; [|done].
  rewrite syncProductStock_run, (lookup_refused _ _ _ _ _ _ Htoken Hproduct).
  by rewrite Hstatus.
Qed.

(** X9: a throttled product request (429) becomes an [error] result
    with the engine's own message, which the executor counts as a
    rate-limit error and the retry controller selects for a retry; the
    sink is not consulted. *)
Theorem erp_throttling_is_retried fuel sku options mlProductsMap st
    token st1 e w1 :
  getERPAuthToken st = (Ok token, st1) ->
  erp_product env sku (world st1) = (inl e, w1) ->
  exn_status e = Some 429 ->
  syncProductStock fuel sku options mlProductsMap st
  = (Ok (error_result sku
           "Rate limit alcanzado en Manager+ (429). Reduce la concurrencia."),
     answered (EvErpProduct sku) w1 st1)
  /\ retryable (error_result sku
       "Rate limit alcanzado en Manager+ (429). Reduce la concurrencia.") = true
  /\ is_rate_limit_error (error_result sku
       "Rate limit alcanzado en Manager+ (429). Reduce la concurrencia.") = true.
Proof.
  intros Htoken Hproduct Hstatus. split; [|by split].
  rewrite syncProductStock_run, (lookup_refused _ _ _ _ _ _ Htoken Hproduct).
  by rewrite Hstatus.
Qed.

(** ** The decision for one SKU, continued *)

Lemma update_refused itemId quantity st token w1 e w2 :
  getAccessToken env (world st) = (inr token, w1) ->
  ml_put env itemId quantity w1 = (inl e, w2) ->
  exn_status e = Some 429 ->
  updateMercadoLibreStock itemId quantity st
  = (Throw (Error
       (if truthy_str (exn_retry_after e)
        then "Rate limit de Mercado Libre alcanzado. Espera " +:+
             default "" (exn_retry_after e) +:+
             " segundos antes de continuar."
        else "Rate limit de Mercado Libre alcanzado (429). Reduce la concurrencia o espera un momento.")),
     answered (EvMlPut itemId quantity) w2 (answered EvAccessToken w1 st)).
Proof.
  intros Htoken Hput Hstatus.
  unfold updateMercadoLibreStock, try_catch, collaborator, axios.
  rewrite !bind_run. unfold remote at 1. rewrite Htoken.
  cbv beta iota delta [mret M_ret]. rewrite bind_run. unfold remote at 1.
  cbn [world]. rewrite Hput. cbv beta iota delta [throw]. by rewrite Hstatus.
Qed.

(** X10: when Mercado Libre throttles the update (429), the decision is
    an [error] result that the executor counts as a rate-limit error,
    with or without a [retry-after] header; without the header the
    message is the engine's own and the result is selected for a
    retry. *)
Theorem sink_throttling_is_retried fuel sku options mlProductsMap st
    mp st1 mlp st2 token w1 e w2 :
  getManagerProductBySKU sku st = (Ok (Some mp), st1) ->
  getMercadoLibreProductStockBySKU fuel sku mlProductsMap st1
  = (Ok (Some mlp), st2) ->
  dryRun options = false ->
  quantity_of mp <> currentStock mlp \/ forceUpdate options = true ->
  getAccessToken env (world st2) = (inr token, w1) ->
  ml_put env (itemId mlp) (quantity_of mp) w1 = (inl e, w2) ->
  exn_status e = Some 429 ->
  exists result,
    syncProductStock fuel sku options mlProductsMap st
    = (Ok result,
       answered (EvMlPut (itemId mlp) (quantity_of mp)) w2
         (answered EvAccessToken w1 st2))
    /\ action result = error_action
    /\ is_rate_limit_error result = true
    /\ (truthy_str (exn_retry_after e) = false -> retryable result = true).
Proof.
  intros H1 H2 Hdry Hdiff Htoken Hput Hstatus.
  rewrite (syncProductStock_found _ _ _ _ _ _ _ _ _ H1 H2). unfold decide_found.
  assert (Hcond : (quantity_of mp =? currentStock mlp) && negb (forceUpdate options)
                  = false).
  { destruct Hdiff as [Hne|Hforce].
    - apply Z.eqb_neq in Hne. by rewrite Hne.
    - by rewrite Hforce, andb_false_r. }
  rewrite Hcond, Hdry, (update_refused _ _ _ _ _ _ _ Htoken Hput Hstatus).
  eexists. split; [reflexivity|]. split; [done|].
  destruct (truthy_str (exn_retry_after e)); [|by split].
  split; [reflexivity | done].
Qed.

(** X11: [syncProductStock] never throws: every failure of a lookup or
    of the update comes back as a result for the SKU asked.  A result
    is successful exactly when its action is [no_change], [would_update]
    or [updated], and carries an error message exactly when it is not;
    it is [would_update] only in a dry run and [updated] only outside
    one. *)
Theorem syncProductStock_never_throws fuel s options mlProductsMap :
  yields (syncProductStock fuel s options mlProductsMap)
    (fun r =>
       sku r = s
       /\ (success r = true <->
           action r = no_change \/ action r = would_update \/ action r = updated)
       /\ (success r = false <-> is_Some (error r))
       /\ (action r = would_update -> dryRun options = true)
       /\ (action r = updated -> dryRun options = false)).
Proof.
  intros st. rewrite syncProductStock_run.
  assert (Hfail : forall a msg,
    a = skipped \/ a = error_action ->
    let r := {| sku := s; success := false; action := a; error := Some msg;
                managerStock := None; mlStock := None; newStock := None;
                message := None |} in
    sku r = s
    /\ (success r = true <->
        action r = no_change \/ action r = would_update \/ action r = updated)
    /\ (success r = false <-> is_Some (error r))
    /\ (action r = would_update -> dryRun options = true)
    /\ (action r = updated -> dryRun options = false)).
  { intros a msg Ha. simpl. split; [done|].
    split; [split; [done | intros [-> | [-> | ->]]; by destruct Ha]|].
    split; [split; [by eexists | done]|].
    split; intros ->; by destruct Ha. }
  destruct (getManagerProductBySKU s st) as [[[mp|]|e|] st1];
    cbv beta iota delta [fst]; try done;
    try (apply Hfail; by auto).
  destruct (getMercadoLibreProductStockBySKU fuel s mlProductsMap st1)
    as [[[mlp|]|e|] st2];
    cbv beta iota delta [fst]; try done;
    try (apply Hfail; by auto).
  unfold decide_found.
  destruct ((quantity_of mp =? currentStock mlp) && negb (forceUpdate options)).
  { simpl. split; [done|]. split; [split; auto|].
    split; [split; [done | by intros [? ?]]|]. by split. }
  destruct (dryRun options) eqn:Hdry.
  { simpl. split; [done|]. split; [split; auto|].
    split; [split; [done | by intros [? ?]]|]. by split. }
  destruct (updateMercadoLibreStock (itemId mlp) (quantity_of mp) st2) as [[[]|e|] st3];
    cbv beta iota delta [fst]; try done; [|apply Hfail; by auto].
  simpl. split; [done|]. split; [split; auto|].
  split; [split; [done | by intros [? ?]]|]. by split.
Qed.

(** X12: the action of a result tells what was sent to the sink: an
    [updated] result means that exactly one update was sent, for the
    quantity the result reports as [newStock] and [managerStock];
    [no_change], [would_update] and [skipped] results mean that none
    was. *)
Theorem action_tells_what_was_sent fuel s options mlProductsMap st result st' :
  syncProductStock fuel s options mlProductsMap st = (Ok result, st') ->
  (action result = updated ->
   exists id quantity,
     newStock result = Some quantity
     /\ managerStock result = Some quantity
     /\ puts (trace st') = (puts (trace st) ++ [(id, quantity)])%list)
  /\ (action result = no_change \/ action result = would_update
      \/ action result = skipped ->
      puts (trace st') = puts (trace st)).
Proof.
  rewrite syncProductStock_run.
  pose proof (getManagerProductBySKU_reads s st) as E1.
  destruct (getManagerProductBySKU s st) as [[[mp|]|e|] st1];
    simpl in E1; try discriminate;
    try (intros [= <- <-]; split; [done|]; intros _; by apply extends_puts).
  pose proof (getMercadoLibreProductStockBySKU_reads fuel s mlProductsMap st1) as E2.
  destruct (getMercadoLibreProductStockBySKU fuel s mlProductsMap st1)
    as [[[mlp|]|e|] st2];
    simpl in E2; try discriminate;
    try (intros [= <- <-]; split; [done|]; intros _; apply extends_puts;
         by eapply extends_trans).
  assert (E : puts (trace st2) = puts (trace st)).
  { apply extends_puts. by eapply extends_trans. }
  unfold decide_found.
  destruct ((quantity_of mp =? currentStock mlp) && negb (forceUpdate options)).
  { intros [= <- <-]. by split. }
  destruct (dryRun options).
  { intros [= <- <-]. by split. }
  pose proof (updateMercadoLibreStock_trace (itemId mlp) (quantity_of mp) st2) as Hput.
  cbv zeta in Hput.
  destruct (updateMercadoLibreStock (itemId mlp) (quantity_of mp) st2) as [[[]|e|] st3];
    simpl in Hput; try discriminate.
  - intros [= <- <-]. split; [|simpl; by intros [?|[?|?]]].
    intros _. exists (itemId mlp), (quantity_of mp). split; [done|]. split; [done|].
    destruct Hput as [[_ Hno]|Ht]; [done|].
    rewrite Ht. unfold puts in *. rewrite omap_app. simpl. by rewrite E.
  - intros [= <- <-]. split; [done|]. simpl. by intros [?|[?|?]].
Qed.

(** ** Chunks, retries and the summary, continued *)

Lemma apply_retry_other results retryResult i d :
  details results !! i = Some d ->
  sku d <> sku retryResult ->
  details (apply_retry results retryResult) !! i = Some d.
Proof.
  intros Hi Hne. unfold apply_retry.
  destruct (list_find _ _) as [[j original]|] eqn:Hfind; [|done].
  apply list_find_Some in Hfind as (Hj & Hsame & _).
  assert (i <> j) by (intros ->; congruence).
  assert (Hins : <[j:=retryResult]> (details results) !! i = Some d)
    by (by rewrite list_lookup_insert_ne).
  destruct (success retryResult && _); [destruct (action retryResult)|];
    exact Hins.
Qed.

Lemma fold_apply_retry_other (retried : list SyncResult) results i d :
  details results !! i = Some d ->
  Forall (fun r => sku d <> sku r) retried ->
  details (fold_left apply_retry retried results) !! i = Some d.
Proof.
  intros Hi H. revert results Hi.
  induction H as [|r retried Hr _ IH]; intros results Hi; simpl; [done|].
  apply IH. by apply apply_retry_other.
Qed.

(** X14: the retries touch only what failed: a detail whose SKU is not
    among the results being retried is the same, at the same place,
    when the retry loop returns; and the loop never throws. *)
Theorem retries_leave_other_details n inner options mlProductsMap concurrency
    maxRetries retryDelay retryAttempt remainingFailures results i d :
  details results !! i = Some d ->
  sku d ∉ (sku <$> remainingFailures) ->
  yields (retry_loop n inner options mlProductsMap concurrency maxRetries
            retryDelay retryAttempt remainingFailures results)
         (fun results' => details results' !! i = Some d).
Proof.
  revert retryAttempt remainingFailures results.
  induction n as [|n IH]; intros retryAttempt remaining results Hi Hnot; simpl;
    destruct (_ && _); try (by apply yields_ret); [by intros st|].
  eapply yields_bind.
  { apply processInParallel_ok with (Q := result_for).
    intros s. apply process_sku_result. }
  intros retried Hretried.
  eapply yields_bind with (Q1 := fun _ => True).
  { destruct (_ && _); [apply yields_emit | by apply yields_ret]. }
  intros _ _.
  apply results_skus in Hretried.
  assert (Hsame : sku <$> retried = sku <$> remaining) by exact Hretried.
  assert (Hother : Forall (fun r => sku d <> sku r) retried).
  { apply Forall_forall. intros r Hr Heq. apply Hnot. rewrite <- Hsame, Heq.
    by apply list_elem_of_fmap_2. }
  apply IH; [by apply fold_apply_retry_other|].
  intros Hin. apply list_elem_of_fmap in Hin as (r & Heq & Hr).
  apply list_elem_of_filter in Hr as [_ Hr].
  rewrite Forall_forall in Hother. by apply (Hother r).
Qed.

Lemma results_settled (skus : list string) (rs : list SyncResult) :
  Forall2 result_for skus rs -> Forall settled rs.
Proof. apply results_good. Qed.

(** An invariant of the summary that the tally and the splice of a
    retried result keep is an invariant of the run. *)
Lemma retry_loop_invariant (J : RunResult -> Prop) n inner options mlProductsMap
    concurrency maxRetries retryDelay retryAttempt remainingFailures results :
  (forall r d, settled d -> J r -> J (apply_retry r d)) ->
  J results ->
  yields (retry_loop n inner options mlProductsMap concurrency maxRetries
            retryDelay retryAttempt remainingFailures results) J.
Proof.
  intros Hsplice. revert retryAttempt remainingFailures results.
  induction n as [|n IH]; intros retryAttempt remaining results HJ; simpl;
    destruct (_ && _); try (by apply yields_ret); [by intros st|].
  eapply yields_bind.
  { apply processInParallel_ok with (Q := result_for).
    intros s. apply process_sku_result. }
  intros retried Hretried.
  eapply yields_bind with (Q1 := fun _ => True).
  { destruct (_ && _); [apply yields_emit | by apply yields_ret]. }
  intros _ _. apply IH. apply results_settled in Hretried.
  clear IH. revert results HJ.
  induction Hretried as [|r retried Hr _ IH]; intros results HJ; simpl; [done|].
  apply IH. by apply Hsplice.
Qed.

Lemma run_invariant (J : RunResult -> Prop) fuel skus options :
  (forall processed,
      J {| total := Z.of_nat (length skus); updated_count := 0;
           skipped_count := 0; errors_count := 0; noChange_count := 0;
           details := processed |}) ->
  (forall r d, settled d -> J r -> J (tally r d)) ->
  (forall r d, settled d -> J r -> J (apply_retry r d)) ->
  returns (syncMultipleProducts fuel skus options) J.
Proof.
  intros Hstart Htally Hsplice. unfold syncMultipleProducts.
  destruct (limit_concurrency _) as [c warning].
  eapply returns_bind; [apply returns_any|]. intros _ _.
  apply returns_try.
  eapply returns_bind; [apply returns_any|]. intros _ _.
  eapply returns_bind; [apply returns_any|]. intros mlProductsMap _.
  eapply returns_bind.
  { apply yields_returns. apply processInParallel_ok with (Q := result_for).
    intros s. apply process_sku_result. }
  intros processed Hprocessed. cbv zeta. cbn [details total updated_count
    skipped_count errors_count noChange_count].
  apply results_settled in Hprocessed.
  assert (Htallied : forall r, J r -> J (fold_left tally processed r)).
  { clear Hstart. induction Hprocessed as [|d processed Hd _ IH]; intros r Hr;
      simpl; [done|]. apply IH. by apply Htally. }
  destruct (_ && _).
  - eapply returns_bind; [apply returns_any|]. intros _ _.
    apply yields_returns. apply retry_loop_invariant; [done|].
    apply Htallied, Hstart.
  - apply returns_ret. apply Htallied, Hstart.
Qed.

(** X15: the [skipped] counter of a summary is always 0: a skipped
    result carries [success: false], so the tally counts it under
    [errors], and the splice of a retried result never counts it
    either. *)
Theorem skipped_counter_stays_zero fuel skus options st results st' :
  syncMultipleProducts fuel skus options st = (Ok results, st') ->
  skipped_count results = 0.
Proof.
  intros Hrun.
  pose proof (run_invariant (fun r => skipped_count r = 0) fuel skus options) as H.
  specialize (H (fun _ => eq_refl)).
  assert (Ht : forall r d, settled d -> skipped_count r = 0 ->
                           skipped_count (tally r d) = 0).
  { intros r d Hd Hr. unfold tally, settled in *.
    destruct (success d); [|done].
    destruct (Hd eq_refl) as [Hns Hne].
    by destruct (action d). }
  assert (Hs : forall r d, settled d -> skipped_count r = 0 ->
                           skipped_count (apply_retry r d) = 0).
  { intros r d Hd Hr. unfold apply_retry, settled in *.
    destruct (list_find _ _) as [[j original]|]; [|done].
    destruct (success d); simpl; [|done].
    destruct (Hd eq_refl) as [Hns Hne].
    destruct (negb (success original) && _); [|done].
    by destruct (action d). }
  specialize (H Ht Hs st). by rewrite Hrun in H.
Qed.

(** ** Entry points *)

(** X16: when the authentication check fails, [syncMultipleProducts]
    throws its error at once: after the concurrency warning, if any, the
    check is the only request made - no catalog scan, no ERP request, no
    update. *)
Theorem failed_authentication_aborts_run fuel skus options st msg w1 :
  verifyMercadoLibreAuth env (world st) = (inl msg, w1) ->
  syncMultipleProducts fuel skus options st
  = (Throw (Error msg),
     answered EvVerifyAuth w1
       (match (limit_concurrency (requested_concurrency options)).2 with
        | Some w => (warn w st).2
        | None => st
        end)).
Proof.
  intros Hauth. unfold syncMultipleProducts.
  destruct (limit_concurrency _) as [c [w|]]; rewrite bind_run;
    cbv beta iota delta [warn emit mret M_ret fst snd];
    unfold try_catch; rewrite bind_run; unfold collaborator;
    rewrite bind_run; unfold remote; cbn [world trace];
    rewrite Hauth; reflexivity.
Qed.

Lemma try_rethrow {A} (m : Comp A) (st : St W) :
  try_catch m (fun error => throw error) st = m st.
Proof. unfold try_catch, throw. by destruct (m st) as [[a|e|] st1]. Qed.

(** X17: on a catalog with at least one SKU, [syncAllProducts] is
    [syncMultipleProducts] over the SKUs of the index in the order the
    index holds them, started in the state the index builder left; so
    the details of its summary follow that order and its total is the
    size of the index. *)
Theorem syncAll_follows_index fuel options st index st1 :
  loadAllMercadoLibreProducts fuel st = (Ok index, st1) ->
  map_keys index <> [] ->
  syncAllProducts fuel options st
  = syncMultipleProducts fuel (map_keys index) options st1
  /\ (forall results st',
        syncAllProducts fuel options st = (Ok results, st') ->
        sku <$> details results = map_keys index
        /\ total results = Z.of_nat (length index)).
Proof.
  intros Hload Hkeys.
  assert (Hrun : syncAllProducts fuel options st
                 = syncMultipleProducts fuel (map_keys index) options st1).
  { unfold syncAllProducts. rewrite try_rethrow, bind_run, Hload.
    cbv beta iota. destruct (map_keys index) eqn:E; [done|]. reflexivity. }
  split; [done|]. intros results st' Hok. rewrite Hrun in Hok.
  pose proof (syncMultipleProducts_consistent fuel (map_keys index) options st1)
    as H.
  rewrite Hok in H. destruct H as (Htotal & Hdetails & _).
  split; [done|]. rewrite Htotal. unfold map_keys. by rewrite length_map.
Qed.

(** X19: a POST with [dryRun: true] sends no update to Mercado Libre,
    whatever the batch and whatever the remote systems answer. *)
Theorem post_dry_run_sends_no_update fuel skus st :
  puts (trace (post_sync_stocks fuel skus true st).2) = puts (trace st).
Proof.
  apply extends_puts.
  assert (H : keeps not_put (post_sync_stocks fuel skus true)); [|apply H].
  unfold post_sync_stocks. apply keeps_try_catch.
  - destruct (_ || _); [apply keeps_ret|].
    apply keeps_bind; [by apply dry_run_reads | intros; apply keeps_ret].
  - intros e. apply keeps_ret.
Qed.

Lemma syncProductStock_result fuel s options mlProductsMap :
  yields (syncProductStock fuel s options mlProductsMap) (result_for s).
Proof.
  intros st. rewrite syncProductStock_run.
  assert (Hres : forall r, sku r = s ->
            (success r = false \/ action r = updated \/ action r = would_update
             \/ action r = no_change) -> result_for s r).
  { intros r Hs Hr. split; [done|]. intros Hok.
    destruct Hr as [Hr|[Hr|[Hr|Hr]]]; rewrite Hr in *; by split. }
  destruct (getManagerProductBySKU s st) as [[[mp|]|e|] st1];
    cbv beta iota delta [fst mret M_ret]; try done; try (apply Hres; simpl; by auto).
  destruct (getMercadoLibreProductStockBySKU fuel s mlProductsMap st1)
    as [[[mlp|]|e|] st2];
    cbv beta iota delta [fst mret M_ret]; try done; try (apply Hres; simpl; by auto).
  unfold decide_found.
  destruct ((quantity_of mp =? currentStock mlp) && negb (forceUpdate options));
    cbv beta iota delta [fst]; [apply Hres; simpl; by auto|].
  destruct (dryRun options); cbv beta iota delta [fst]; [apply Hres; simpl; by auto|].
  destruct (updateMercadoLibreStock (itemId mlp) (quantity_of mp) st2) as [[[]|e|] st3];
    cbv beta iota delta [fst mret M_ret]; try done; apply Hres; simpl; by auto.
Qed.

(** ** What each function requests *)

Lemma keeps_bind_returns (P : Event -> Prop) {A B} (m : Comp A)
    (k : A -> Comp B) (Q : A -> Prop) :
  keeps P m -> returns m Q -> (forall a, Q a -> keeps P (k a)) ->
  keeps P (m ≫= k).
Proof.
  intros Hm HQ Hk st. rewrite bind_run. specialize (Hm st). specialize (HQ st).
  destruct (m st) as [[a|e|] st1]; simpl in *; try done.
  eapply extends_trans; [exact Hm | by apply Hk].
Qed.

Lemma getERPAuthToken_footprint :
  keeps (fun ev => ev = EvErpAuth) getERPAuthToken.
Proof. unfold getERPAuthToken, authenticateWithERP. frame; done. Qed.

Lemma getManagerProductBySKU_footprint s :
  keeps (erp_event s) (getManagerProductBySKU s).
Proof.
  unfold getManagerProductBySKU. apply keeps_try_catch.
  - apply keeps_bind.
    { eapply keeps_weaken; [|apply getERPAuthToken_footprint].
      intros ev ->. by left. }
    intros token. apply keeps_bind; [apply keeps_axios; by right|].
    intros data. frame.
  - intros e. frame.
Qed.

Lemma load_item_footprint acc id : keeps scan_event (load_item acc id).
Proof. unfold load_item, warn. frame; done. Qed.

Lemma load_pages_footprint fuel userId offset acc :
  keeps scan_event (load_pages fuel userId offset acc).
Proof.
  revert offset acc. induction fuel as [|fuel IH]; intros offset acc; simpl.
  - apply keeps_no_fuel.
  - apply keeps_bind; [by apply keeps_axios|].
    intros page. destruct (_ =? 0); [apply keeps_ret|].
    apply keeps_bind; [apply keeps_foldM; intros; apply load_item_footprint|].
    intros acc'. destruct (_ || _); [apply keeps_ret | apply IH].
Qed.

Lemma loadAllMercadoLibreProducts_footprint fuel :
  keeps scan_event (loadAllMercadoLibreProducts fuel).
Proof.
  unfold loadAllMercadoLibreProducts, warn.
  apply keeps_bind; [apply keeps_get_state|]. intros st.
  destruct (mlProductsCache st); [apply keeps_ret|].
  apply keeps_try_catch; [|intros; apply keeps_throw].
  apply keeps_bind; [by apply keeps_collaborator|].
  intros token. apply keeps_bind.
  { destruct (truthy_str ML_USER_ID); [apply keeps_ret|].
    by apply keeps_collaborator. }
  intros userId. apply keeps_bind; [apply load_pages_footprint|].
  intros [productMap itemsWithoutSKU]. frame; done.
Qed.

(** X22: the catalog scan only reads Mercado Libre: whatever it is
    answered, it sends credential requests, searches, reads of listings
    and warnings - no ERP request, no update, no pause - and once the
    index is cached it sends nothing at all. *)
Theorem catalog_scan_only_reads_listings fuel st :
  extends scan_event st (loadAllMercadoLibreProducts fuel st).2
  /\ (is_Some (mlProductsCache st) ->
      trace (loadAllMercadoLibreProducts fuel st).2 = trace st).
Proof.
  split; [apply loadAllMercadoLibreProducts_footprint|].
  intros [index Hcache]. unfold loadAllMercadoLibreProducts.
  rewrite bind_run. cbn. by rewrite Hcache.
Qed.

Lemma getMercadoLibreProductStockBySKU_footprint fuel s productsMap :
  keeps scan_event (getMercadoLibreProductStockBySKU fuel s productsMap).
Proof.
  unfold getMercadoLibreProductStockBySKU.
  apply keeps_try_catch; [|intros; apply keeps_throw].
  apply keeps_bind; [|intros; apply keeps_ret].
  destruct productsMap;
    [apply keeps_ret | apply loadAllMercadoLibreProducts_footprint].
Qed.

Lemma updateMercadoLibreStock_footprint itemId quantity :
  keeps (fun ev => ev = EvAccessToken \/ ev = EvMlPut itemId quantity)
        (updateMercadoLibreStock itemId quantity).
Proof. unfold updateMercadoLibreStock. frame; auto. Qed.

Lemma lookup_returns_entry fuel s index :
  returns (getMercadoLibreProductStockBySKU fuel s (Some index))
          (fun r => r = map_get s index).
Proof. intros st. by rewrite lookup_in_given_index. Qed.

Lemma lookup_in_index_silent (P : Event -> Prop) fuel s index :
  keeps P (getMercadoLibreProductStockBySKU fuel s (Some index)).
Proof. intros st. rewrite lookup_in_given_index. apply extends_refl. Qed.

(** The decision for one SKU adds events of kind [P] when the ERP
    lookup does, the lookup in the index does and the update of the
    listing found, if it can be reached, does. *)
Lemma syncProductStock_frame (P : Event -> Prop) fuel s options mlProductsMap
    (Q : option MLProduct -> Prop) :
  keeps P (getManagerProductBySKU s) ->
  keeps P (getMercadoLibreProductStockBySKU fuel s mlProductsMap) ->
  returns (getMercadoLibreProductStockBySKU fuel s mlProductsMap) Q ->
  (forall mlp quantity,
      Q (Some mlp) -> dryRun options = false ->
      keeps P (updateMercadoLibreStock (itemId mlp) quantity)) ->
  keeps P (syncProductStock fuel s options mlProductsMap).
Proof.
  intros Herp Hml HQ Hupdate. unfold syncProductStock, attempt.
  apply keeps_try_catch; [|intros; apply keeps_ret].
  apply keeps_bind.
  { apply keeps_try_catch; [|intros; apply keeps_ret].
    apply keeps_bind; [exact Herp | intros; apply keeps_ret]. }
  intros [e|[mp|]]; try apply keeps_ret.
  eapply keeps_bind_returns; [exact Hml | exact HQ |].
  intros [mlp|] Hmlp; [|apply keeps_ret].
  destruct (_ && _); [apply keeps_ret|].
  destruct (dryRun options) eqn:Hdry; [apply keeps_ret|].
  apply keeps_bind; [by apply Hupdate | intros; apply keeps_ret].
Qed.

(** X23: with an index supplied, the decision for a SKU never scans the
    catalog.  Its requests are the ERP login and the ERP product request
    for that SKU and, only outside a dry run and only when the index has
    an entry for the SKU, the Mercado Libre credential and an update of
    the listing of that entry. *)
Theorem decision_with_index_never_scans fuel s options index :
  keeps (fun ev =>
           erp_event s ev
           \/ exists mlp,
                map_get s index = Some mlp /\ dryRun options = false
                /\ (ev = EvAccessToken
                    \/ exists quantity, ev = EvMlPut (itemId mlp) quantity))
        (syncProductStock fuel s options (Some index)).
Proof.
  apply syncProductStock_frame with (Q := fun r => r = map_get s index).
  - eapply keeps_weaken; [|apply getManagerProductBySKU_footprint].
    intros ev Hev. by left.
  - apply lookup_in_index_silent.
  - apply lookup_returns_entry.
  - intros mlp quantity Hmlp Hdry.
    eapply keeps_weaken; [|apply updateMercadoLibreStock_footprint].
    intros ev Hev. right. exists mlp. split; [done|]. split; [done|].
    destruct Hev as [-> | ->]; [by left | right; by eexists].
Qed.

(** ** Counting requests *)

Lemma count_events_app f t t' :
  count_events f (t ++ t') = (count_events f t + count_events f t')%nat.
Proof. unfold count_events. by rewrite List.filter_app, length_app. Qed.

Lemma puts_count t : length (puts t) = count_events is_update t.
Proof.
  unfold count_events, puts.
  induction t as [|ev t IH]; [done|]. destruct ev; simpl; try exact IH. f_equal. exact IH.
Qed.

Section Counting.

Variable f : Event -> bool.

Lemma sends_weaken {A} (n n' : nat) (m : Comp A) :
  (n <= n')%nat -> sends f n m -> sends f n' m.
Proof. intros Hn Hm st. specialize (Hm st). lia. Qed.

Lemma sends_ret {A} (a : A) : sends f 0 (mret a).
Proof. intros st. simpl. lia. Qed.

Lemma sends_throw {A} (e : Exn) : sends f 0 (throw e : Comp A).
Proof. intros st. simpl. lia. Qed.

Lemma sends_no_fuel {A} : sends f 0 (no_fuel : Comp A).
Proof. intros st. simpl. lia. Qed.

Lemma sends_bind_returns {A B} (n n' : nat) (m : Comp A) (k : A -> Comp B)
    (Q : A -> Prop) :
  returns m Q -> sends f n m -> (forall a, Q a -> sends f n' (k a)) ->
  sends f (n + n') (m ≫= k).
Proof.
  intros HQ Hm Hk st. rewrite bind_run. specialize (Hm st). specialize (HQ st).
  destruct (m st) as [[a|e|] st1]; simpl in *; try lia.
  specialize (Hk a HQ st1). lia.
Qed.

Lemma sends_bind {A B} (n n' : nat) (m : Comp A) (k : A -> Comp B) :
  sends f n m -> (forall a, sends f n' (k a)) -> sends f (n + n') (m ≫= k).
Proof.
  intros Hm Hk. apply sends_bind_returns with (Q := fun _ => True); auto.
  apply returns_any.
Qed.

Lemma sends_try_catch {A} (n n' : nat) (m : Comp A) (h : Exn -> Comp A) :
  sends f n m -> (forall e, sends f n' (h e)) -> sends f (n + n') (try_catch m h).
Proof.
  intros Hm Hh st. unfold try_catch. specialize (Hm st).
  destruct (m st) as [[a|e|] st1]; simpl in *; try lia.
  specialize (Hh e st1). lia.
Qed.

(** The handler of a [try] whose body never throws sends nothing. *)
Lemma sends_try_yields {A} (n : nat) (m : Comp A) (h : Exn -> Comp A)
    (Q : A -> Prop) :
  yields m Q -> sends f n m -> sends f n (try_catch m h).
Proof.
  intros HQ Hm st. unfold try_catch. specialize (Hm st). specialize (HQ st).
  by destruct (m st) as [[a|e|] st1].
Qed.

Lemma sends_keeps {A} (P : Event -> Prop) (m : Comp A) :
  (forall ev, P ev -> f ev = false) -> keeps P m -> sends f 0 m.
Proof.
  intros HP Hm st. destruct (Hm st) as (t & Ht & HPt).
  rewrite Ht, count_events_app.
  assert (count_events f t = O) as ->; [|lia].
  clear Ht. unfold count_events. induction HPt as [|ev t Hev _ IH]; [done|].
  simpl. by rewrite (HP ev Hev).
Qed.

Lemma sends_silent {A} (m : Comp A) : keeps (fun _ => False) m -> sends f 0 m.
Proof. apply sends_keeps. by intros ev []. Qed.

Lemma sends_emit ev : f ev = false -> sends f 0 (emit ev).
Proof.
  intros Hev. apply sends_keeps with (P := fun ev' => ev' = ev).
  - by intros ev' ->.
  - by apply keeps_emit.
Qed.

Lemma sends_axios {A} ev (g : W -> (Exn + A) * W) : sends f 1 (axios ev g).
Proof.
  intros st. unfold axios. rewrite bind_run. unfold remote.
  destruct (g (world st)) as [[e|a] w1]; simpl;
    rewrite count_events_app; unfold count_events; simpl;
    destruct (f ev); simpl; lia.
Qed.

Section PassRequests.

Variable k : nat.
Variable processor : string -> Comp SyncResult.
Hypothesis processor_sends : forall s, sends f k (processor s).
Hypothesis processor_ok : forall s, yields (processor s) (fun _ => True).
Hypothesis f_warn : forall w, f (EvWarn w) = false.
Hypothesis f_progress : forall p t, f (EvProgress p t) = false.

Lemma await_all_sends (pending : list (string * option SyncResult)) :
  sends f (k * free pending.*2) (await_all processor pending).
Proof.
  induction pending as [|[s [r|]] pending IH];
    [eapply sends_weaken; [|apply sends_ret]; apply Nat.le_0_l
    | rewrite fmap_cons; cbn [free snd await_all] ..].
  - eapply sends_weaken; cycle 1.
    + apply sends_bind; [exact IH | intros; apply sends_ret].
    + lia.
  - eapply sends_weaken; cycle 1.
    + apply sends_bind; [apply processor_sends|]. intros r.
      apply sends_bind; [exact IH | intros; apply sends_ret].
    + rewrite Nat.mul_succ_r. lia.
Qed.

Lemma settle_then_await_sends chunk (order : list nat)
    (slots : list (option SyncResult)) :
  sends f (k * free slots)
    (slots' ← foldM (settle processor chunk) order slots;
     await_all processor (zip chunk slots')).
Proof.
  revert slots. induction order as [|i order IH]; intros slots.
  - intros st. simpl. rewrite bind_run. simpl.
    pose proof (await_all_sends (zip chunk slots) st).
    pose proof (free_zip chunk slots).
    pose proof (Nat.mul_le_mono_l _ _ k H0). lia.
  - intros st. rewrite bind_run. simpl. rewrite bind_run. unfold settle at 1.
    destruct (chunk !! i) as [s|];
      [destruct (slots !! i) as [[r|]|] eqn:Hslot|];
      try (specialize (IH slots st); rewrite bind_run in IH; exact IH).
    rewrite bind_run. pose proof (processor_sends s st) as Hs.
    pose proof (free_pending slots i Hslot) as Hfree.
    destruct (processor s st) as [[r|e|] st1]; simpl in *.
    + specialize (IH (<[i:=Some r]> slots) st1). rewrite bind_run in IH.
      rewrite <- (free_settled slots i r Hslot), Nat.mul_succ_r. lia.
    + destruct (free slots) as [|n]; [lia|]. rewrite Nat.mul_succ_r. lia.
    + destruct (free slots) as [|n]; [lia|]. rewrite Nat.mul_succ_r. lia.
Qed.

Lemma Promise_all_sends chunk :
  sends f (k * length chunk) (Promise_all processor chunk).
Proof.
  intros st. unfold Promise_all. rewrite bind_run. simpl.
  pose proof (settle_then_await_sends chunk (completion_order env (world st))
                (replicate (length chunk) None) st) as H.
  by rewrite free_replicate in H.
Qed.

Lemma process_chunks_sends fuel array c i results rateLimitErrors :
  0 < c -> 0 <= i ->
  sends f (k * (length array - Z.to_nat i))
        (process_chunks fuel array processor c i results rateLimitErrors).
Proof.
  intros Hc. revert i results rateLimitErrors.
  induction fuel as [|fuel IH]; intros i results rle Hi; simpl;
    destruct (Z.ltb_spec i (Z.of_nat (length array))) as [Hlt|Hge];
    try (eapply sends_weaken; [|apply sends_ret]; apply Nat.le_0_l).
  - eapply sends_weaken; [|apply sends_no_fuel]. apply Nat.le_0_l.
  - eapply sends_weaken; [|apply sends_bind
      with (n := (k * length (js_slice array i (i + c)))%nat)
           (n' := (k * (length array - Z.to_nat (i + c)))%nat)].
    + rewrite <- Nat.mul_add_distr_l. apply Nat.mul_le_mono_l.
      rewrite js_slice_chunk by lia. rewrite length_take, length_drop. lia.
    + apply sends_try_yields with (Q := fun _ => True).
      * eapply yields_bind;
          [apply (Promise_all_ok processor (fun _ _ => True) processor_ok)|].
        intros chunkResults _.
        eapply yields_bind with (Q1 := fun _ => True);
          [destruct (_ <=? _); [apply yields_emit | by apply yields_ret]|].
        intros _ _. by apply yields_ret.
      * eapply sends_weaken; cycle 1.
        { apply sends_bind; [apply Promise_all_sends|]. intros chunkResults.
          apply sends_bind with (n := O) (n' := O); [|intros; apply sends_ret].
          destruct (_ <=? _); [apply sends_emit, f_warn | apply sends_ret]. }
        lia.
    + intros [results' rle'].
      apply (sends_bind O (k * (length array - Z.to_nat (i + c)))).
      * apply sends_emit, f_progress.
      * intros _. apply IH. lia.
Qed.

Lemma processInParallel_sends fuel array c :
  0 < c ->
  sends f (k * length array) (processInParallel fuel array processor c).
Proof.
  intros Hc. unfold processInParallel.
  eapply sends_weaken; [|apply process_chunks_sends; try done].
  apply Nat.mul_le_mono_l. simpl. lia.
Qed.

End PassRequests.

Section RunRequests.

Variable k : nat.
Variable fuel : nat.
Variable options : Options.
Hypothesis sku_sends :
  forall mlProductsMap s, sends f k (process_sku fuel options mlProductsMap s).
Hypothesis f_scan : forall ev, scan_event ev -> f ev = false.
Hypothesis f_pause : forall ms, f (EvSleep ms) = false.
Hypothesis f_progress : forall p t, f (EvProgress p t) = false.

Lemma pass_sends mlProductsMap array c :
  0 < c ->
  sends f (k * length array)
    (processInParallel fuel array (process_sku fuel options mlProductsMap) c).
Proof.
  intros Hc. apply processInParallel_sends; try done.
  - intros s. eapply yields_weaken; [|apply process_sku_result]. done.
  - intros w. by apply f_scan.
Qed.

Lemma retry_loop_sends n mlProductsMap concurrency maxRetries retryDelay
    retryAttempt remainingFailures results :
  sends f (k * (length remainingFailures
                * Z.to_nat (maxRetries + 1 - retryAttempt)))
    (retry_loop n fuel options mlProductsMap concurrency maxRetries
       retryDelay retryAttempt remainingFailures results).
Proof.
  revert retryAttempt remainingFailures results.
  induction n as [|n IH]; intros retryAttempt remaining results; simpl;
    destruct (Z.leb_spec retryAttempt maxRetries) as [Hle|Hgt];
    rewrite ?andb_false_r;
    try (eapply sends_weaken; [|apply sends_ret]; apply Nat.le_0_l);
    destruct (0 <? Z.of_nat (length remaining)); simpl;
    try (eapply sends_weaken; [|apply sends_ret]; apply Nat.le_0_l).
  - eapply sends_weaken; [|apply sends_no_fuel]. apply Nat.le_0_l.
  - set (T := Z.to_nat (maxRetries + 1 - (retryAttempt + 1))).
    replace (Z.to_nat (maxRetries + 1 - retryAttempt)) with (S T) by (unfold T; lia).
    eapply sends_weaken; [|apply sends_bind_returns
      with (Q := Forall2 result_for (map sku remaining))
           (n := (k * length remaining)%nat)
           (n' := (k * (length remaining * T))%nat)].
    + rewrite <- Nat.mul_add_distr_l. apply Nat.mul_le_mono_l.
      rewrite Nat.mul_succ_r. lia.
    + apply yields_returns. apply processInParallel_ok with (Q := result_for).
      intros s. apply process_sku_result.
    + rewrite <- (length_map sku remaining). apply pass_sends. lia.
    + intros retried Hretried.
      apply Forall2_length in Hretried. rewrite length_map in Hretried.
      eapply sends_weaken; cycle 1.
      { apply sends_bind with (n := O); [|intros; apply IH].
        destruct (_ && _); [apply sends_emit, f_pause | apply sends_ret]. }
      simpl. apply Nat.mul_le_mono_l, Nat.mul_le_mono_r.
      rewrite Hretried. apply length_filter.
Qed.

End RunRequests.

End Counting.

(** ** Requests of one SKU and of a whole run *)

Lemma getManagerProductBySKU_one_request s :
  sends is_erp_product 1 (getManagerProductBySKU s).
Proof.
  unfold getManagerProductBySKU.
  apply sends_try_catch with (n := 1%nat) (n' := O).
  - apply sends_bind with (n := O) (n' := 1%nat).
    { apply sends_keeps with (P := fun ev => ev = EvErpAuth);
        [by intros ev -> | apply getERPAuthToken_footprint]. }
    intros token. apply sends_bind with (n := 1%nat) (n' := O);
      [apply sends_axios|].
    intros data. apply sends_silent. frame.
  - intros e. apply sends_silent. frame.
Qed.

(** X21: whatever the ERP answers, and whether the lookup returns or
    throws, the only requests [getManagerProductBySKU] makes are the ERP
    login and the ERP product request for the SKU asked - it never
    contacts Mercado Libre - and it asks for the product once at most:
    the lookup itself never retries. *)
Theorem erp_lookup_requests_only_its_sku s :
  keeps (erp_event s) (getManagerProductBySKU s)
  /\ sends is_erp_product 1 (getManagerProductBySKU s).
Proof.
  split; [apply getManagerProductBySKU_footprint
         | apply getManagerProductBySKU_one_request].
Qed.

Lemma scan_not_erp_product ev : scan_event ev -> is_erp_product ev = false.
Proof. by destruct ev. Qed.

Lemma scan_not_update ev : scan_event ev -> is_update ev = false.
Proof. by destruct ev. Qed.

Lemma scan_not_pause ev : scan_event ev -> is_pause ev = false.
Proof. by destruct ev. Qed.

Lemma process_sku_one_lookup fuel options mlProductsMap s :
  sends is_erp_product 1 (process_sku fuel options mlProductsMap s).
Proof.
  unfold process_sku, syncProductStock, attempt.
  apply sends_try_catch with (n := 1%nat) (n' := O);
    [|intros; apply sends_ret].
  apply sends_try_catch with (n := 1%nat) (n' := O);
    [|intros; apply sends_ret].
  apply sends_bind with (n := 1%nat) (n' := O).
  { apply sends_try_catch with (n := 1%nat) (n' := O);
      [|intros; apply sends_ret].
    apply sends_bind with (n := 1%nat) (n' := O);
      [apply getManagerProductBySKU_one_request | intros; apply sends_ret]. }
  intros [e|[mp|]]; try apply sends_ret.
  apply sends_bind with (n := O) (n' := O).
  { apply sends_keeps with (P := scan_event);
      [apply scan_not_erp_product
      | apply getMercadoLibreProductStockBySKU_footprint]. }
  intros [mlp|]; [|apply sends_ret].
  destruct (_ && _); [apply sends_ret|].
  destruct (dryRun options); [apply sends_ret|].
  apply sends_bind with (n := O) (n' := O); [|intros; apply sends_ret].
  eapply sends_keeps; [|apply updateMercadoLibreStock_footprint].
  by intros ev [-> | ->].
Qed.

Lemma process_sku_one_update fuel options mlProductsMap s :
  sends is_update 1 (process_sku fuel options mlProductsMap s).
Proof.
  intros st. pose proof (process_sku_adds fuel options mlProductsMap s st) as H.
  by rewrite !puts_count in H.
Qed.

Lemma process_sku_dry_no_update fuel options mlProductsMap s :
  dryRun options = true ->
  sends is_update 0 (process_sku fuel options mlProductsMap s).
Proof.
  intros Hdry. eapply sends_keeps; [|by apply process_sku_dry_reads].
  intros ev Hev. destruct ev; try done. exfalso. by apply Hev.
Qed.

Lemma process_sku_no_pause fuel options mlProductsMap s :
  sends is_pause 0 (process_sku fuel options mlProductsMap s).
Proof.
  apply sends_keeps with (P := fun ev => is_pause ev = false); [done|].
  apply keeps_try_catch; [|intros; apply keeps_ret].
  apply syncProductStock_frame with (Q := fun _ => True).
  - eapply keeps_weaken; [|apply getManagerProductBySKU_footprint].
    by intros ev [-> | ->].
  - eapply keeps_weaken; [|apply getMercadoLibreProductStockBySKU_footprint].
    apply scan_not_pause.
  - apply returns_any.
  - intros mlp quantity _ _.
    eapply keeps_weaken; [|apply updateMercadoLibreStock_footprint].
    by intros ev [-> | ->].
Qed.

Lemma limit_positive requested :
  0 < requested -> 0 < (limit_concurrency requested).1.
Proof.
  intros H.
  unfold limit_concurrency, ABSOLUTE_MAX_CONCURRENCY, MAX_RECOMMENDED_CONCURRENCY.
  destruct (_ <? _); [simpl; lia|]. by destruct (_ <? _).
Qed.

Section WholeRun.

Variable f : Event -> bool.
Variable k : nat.
Variable fuel : nat.
Variable options : Options.
Hypothesis sku_sends :
  forall mlProductsMap s, sends f k (process_sku fuel options mlProductsMap s).
Hypothesis f_scan : forall ev, scan_event ev -> f ev = false.
Hypothesis f_pause : dryRun options = true \/ forall ms, f (EvSleep ms) = false.
Hypothesis f_progress : forall p t, f (EvProgress p t) = false.

(** One pass over the batch, then one pass for each retry round over at
    most as many items; a dry run has no retry round. *)
Lemma run_sends skus :
  0 < requested_concurrency options ->
  sends f (k * length skus
           + k * (length skus
                  * (if dryRun options then 0
                     else Z.to_nat (default 3 (maxRetries options)))))
        (syncMultipleProducts fuel skus options).
Proof.
  intros Hreq. unfold syncMultipleProducts.
  pose proof (limit_positive _ Hreq) as Hc.
  destruct (limit_concurrency _) as [c warning]. simpl in Hc.
  set (R := if dryRun options then O
            else Z.to_nat (default 3 (maxRetries options))).
  apply sends_bind with (n := O)
    (n' := (k * length skus + k * (length skus * R))%nat).
  { destruct warning; [by apply sends_emit, f_scan | apply sends_ret]. }
  intros _. eapply sends_weaken; [|apply sends_try_catch
    with (n := (k * length skus + k * (length skus * R))%nat) (n' := O);
    [|intros; apply sends_throw]]; [lia|].
  apply sends_bind with (n := O)
    (n' := (k * length skus + k * (length skus * R))%nat).
  { eapply sends_keeps; [exact f_scan | by apply keeps_collaborator]. }
  intros _. apply sends_bind with (n := O)
    (n' := (k * length skus + k * (length skus * R))%nat).
  { eapply sends_keeps;
      [exact f_scan | apply loadAllMercadoLibreProducts_footprint]. }
  intros mlProductsMap.
  apply sends_bind_returns with (Q := Forall2 result_for skus).
  { apply yields_returns. apply processInParallel_ok with (Q := result_for).
    intros s. apply process_sku_result. }
  { by apply pass_sends. }
  intros processed Hprocessed. cbv zeta. cbn [details total].
  match goal with
  | |- context [fold_left tally processed ?r0] =>
      pose proof (fold_tally_counts processed r0) as (_ & Hd & _);
      set (tallied := fold_left tally processed r0) in *
  end.
  cbn [details] in Hd.
  destruct (_ && _) eqn:Hcond;
    [|eapply sends_weaken; [|apply sends_ret]; apply Nat.le_0_l].
  apply andb_true_iff in Hcond as [_ Hdry].
  apply negb_true_iff in Hdry.
  destruct f_pause as [Hcontra|Hpause]; [congruence|].
  unfold R. rewrite Hdry.
  eapply sends_weaken; cycle 1.
  { apply sends_bind with (n := O); [by apply sends_emit|].
    intros _. by apply retry_loop_sends. }
  simpl. apply Nat.mul_le_mono_l.
  replace (default 3 (maxRetries options) + 1 - 1)
    with (default 3 (maxRetries options)) by lia.
  apply Nat.mul_le_mono_r.
  etrans; [apply length_filter|]. rewrite Hd.
  apply Forall2_length in Hprocessed. lia.
Qed.

End WholeRun.

(** X24: with a positive concurrency a run over a batch makes a bounded
    number of requests, whatever the remote systems answer and however
    it ends: at most one update and one ERP product request for each
    requested SKU in the first pass and in each of the [maxRetries]
    retry rounds (3 when not given). *)
Theorem run_requests_are_bounded fuel skus options :
  0 < requested_concurrency options ->
  let rounds := (1 + Z.to_nat (default 3%Z (maxRetries options)))%nat in
  sends is_update (length skus * rounds)
        (syncMultipleProducts fuel skus options)
  /\ sends is_erp_product (length skus * rounds)
           (syncMultipleProducts fuel skus options).
Proof.
  intros Hreq rounds.
  assert (Hbound : forall f,
    sends f (1 * length skus
             + 1 * (length skus
                    * (if dryRun options then 0
                       else Z.to_nat (default 3 (maxRetries options)))))
          (syncMultipleProducts fuel skus options) ->
    sends f (length skus * rounds) (syncMultipleProducts fuel skus options)).
  { intros f. apply sends_weaken. unfold rounds.
    rewrite !Nat.mul_1_l, Nat.mul_add_distr_l, Nat.mul_1_r.
    apply Nat.add_le_mono_l, Nat.mul_le_mono_l.
    destruct (dryRun options); lia. }
  split; apply Hbound; apply run_sends; try done.
  - intros. apply process_sku_one_update.
  - apply scan_not_update.
  - by right.
  - intros. apply process_sku_one_lookup.
  - apply scan_not_erp_product.
  - by right.
Qed.

(** X25: a dry run with a positive concurrency is a single pass: it
    never pauses - so no retry round and no rate-limit pause runs - it
    sends no update, and it asks the ERP for each requested SKU once at
    most. *)
Theorem dry_run_is_one_pass fuel skus options :
  dryRun options = true ->
  0 < requested_concurrency options ->
  sends is_pause 0 (syncMultipleProducts fuel skus options)
  /\ sends is_update 0 (syncMultipleProducts fuel skus options)
  /\ sends is_erp_product (length skus)
           (syncMultipleProducts fuel skus options).
Proof.
  intros Hdry Hreq.
  pose proof (fun f k => run_sends f k fuel options) as H.
  rewrite Hdry in H.
  split; [|split].
  - eapply sends_weaken; [|apply (H is_pause O); try done].
    + simpl. lia.
    + intros. apply process_sku_no_pause.
    + apply scan_not_pause.
    + by left.
  - eapply sends_weaken; [|apply (H is_update O); try done].
    + simpl. lia.
    + intros. by apply process_sku_dry_no_update.
    + apply scan_not_update.
    + by left.
  - eapply sends_weaken; [|apply (H is_erp_product 1%nat); try done].
    + lia.
    + intros. apply process_sku_one_lookup.
    + apply scan_not_erp_product.
    + by left.
Qed.

(** ** The command line *)

Lemma checked_spec accept v n :
  checked accept v = Some n -> accept n = true.
Proof.
  destruct v as [m|]; [|done]. simpl.
  destruct (accept m) eqn:E; [|done]. by intros [= <-].
Qed.

Lemma cli_concurrency_positive parseInt_str args :
  0 < requested_concurrency (cli_options parseInt_str args).
Proof.
  unfold requested_concurrency, cli_options. cbn [concurrency].
  destruct (checked _ _) as [n|] eqn:E; [|done].
  apply checked_spec in E. apply Z.ltb_lt in E. simpl.
  destruct (Z.eqb_spec n 0); simpl; lia.
Qed.

(** X26: whatever the arguments, the options the command line hands to
    the engine are valid: the concurrency is positive (5 when the flag
    is missing, not a number or not positive), the number of retries is
    not negative (3 when missing or invalid, 0 with [--no-retry]) and
    the delay is positive (2000 when missing or invalid). *)
Theorem cli_options_are_valid parseInt_str args :
  0 < requested_concurrency (cli_options parseInt_str args)
  /\ 0 <= default 3 (maxRetries (cli_options parseInt_str args))
  /\ 0 < default 2000 (retryDelay (cli_options parseInt_str args))
  /\ (has_flag "--no-retry" args = true ->
      maxRetries (cli_options parseInt_str args) = Some 0).
Proof.
  split; [apply cli_concurrency_positive|].
  unfold cli_options. cbn [maxRetries retryDelay]. repeat split.
  - destruct (has_flag "--no-retry" args); [done|].
    destruct (checked _ _) as [n|] eqn:E; [|done].
    apply checked_spec in E. apply Z.leb_le in E. exact E.
  - destruct (checked _ _) as [n|] eqn:E; [|done].
    apply checked_spec in E. apply Z.ltb_lt in E. exact E.
  - by intros ->.
Qed.

(** X27: with [--no-retry] and without [--all], a run of the script
    sends at most one update and one ERP product request for each SKU
    on the command line, whatever the remote systems answer. *)
Theorem cli_no_retry_is_one_pass parseInt_str fuel args :
  has_flag "--no-retry" args = true ->
  has_flag "--all" args = false ->
  sends is_update (length (cli_skus args)) (cli parseInt_str fuel args)
  /\ sends is_erp_product (length (cli_skus args)) (cli parseInt_str fuel args).
Proof.
  intros Hno Hall.
  assert (Hrounds : forall f,
    sends f (1 * length (cli_skus args)
             + 1 * (length (cli_skus args)
                    * (if dryRun (cli_options parseInt_str args) then 0
                       else Z.to_nat
                              (default 3 (maxRetries (cli_options parseInt_str args))))))
          (syncMultipleProducts fuel (cli_skus args) (cli_options parseInt_str args)) ->
    sends f (length (cli_skus args)) (cli parseInt_str fuel args)).
  { intros f H. unfold cli. rewrite Hall.
    destruct (_ && _);
      [eapply sends_weaken; [|apply sends_ret]; apply Nat.le_0_l|].
    eapply sends_weaken; [|apply sends_try_catch
      with (n := length (cli_skus args)) (n' := O);
      [|intros; apply sends_ret]]; [lia|].
    destruct (_ =? 0);
      [eapply sends_weaken; [|apply sends_ret]; apply Nat.le_0_l|].
    eapply sends_weaken; [|apply sends_bind with (n' := O);
      [exact H | intros; apply sends_ret]].
    unfold cli_options at 2. cbn [maxRetries]. rewrite Hno. simpl.
    destruct (has_flag "--dry-run" args); simpl; lia. }
  split; apply Hrounds; apply run_sends;
    try apply cli_concurrency_positive.
  - intros. apply process_sku_one_update.
  - apply scan_not_update.
  - by right.
  - done.
  - intros. apply process_sku_one_lookup.
  - apply scan_not_erp_product.
  - by right.
  - done.
Qed.

(** X28: a command line with no SKU and without [--all] makes no
    request at all: with at most one argument the script prints its help
    and exits with 0, with more it exits with 1. *)
Theorem cli_without_sku_requests_nothing parseInt_str fuel args st :
  has_flag "--all" args = false ->
  Forall (fun arg => startsWith arg "--" = true) args ->
  cli parseInt_str fuel args st = (Ok (if (length args <=? 1)%nat then 0 else 1), st).
Proof.
  intros Hall Hflags. unfold cli. rewrite Hall.
  assert (Hskus : cli_skus args = []).
  { unfold cli_skus. clear Hall.
    induction Hflags as [|arg args Harg _ IH]; [done|].
    rewrite filter_cons_False; [done|]. by rewrite Harg. }
  destruct Hflags as [|arg args Harg Hrest]; [done|].
  destruct Hrest as [|arg' args Harg' _].
  - simpl. by rewrite Harg.
  - cbn [only_options andb]. unfold try_catch. by rewrite Hskus.
Qed.

Lemma has_flag_without flag other args :
  flag <> other ->
  has_flag flag (filter (fun arg => arg <> other) args) = has_flag flag args.
Proof.
  intros Hne. unfold has_flag. apply bool_decide_ext.
  rewrite list_elem_of_filter. split; [by intros [_ Hin] | by intros Hin].
Qed.

Lemma find_without (p : string -> bool) other args :
  p other = false ->
  List.find p (filter (fun arg => arg <> other) args) = List.find p args.
Proof.
  intros Hp. induction args as [|arg args IH]; [done|].
  destruct (decide (arg = other)) as [->|Hne].
  - rewrite filter_cons_False by (intros E; by apply E).
    simpl. by rewrite Hp.
  - rewrite filter_cons_True by done. simpl. by rewrite IH.
Qed.

Lemma numeric_flag_without parseInt_str name other args :
  startsWith other name = false ->
  numeric_flag parseInt_str name (filter (fun arg => arg <> other) args)
  = numeric_flag parseInt_str name args.
Proof.
  intros H. unfold numeric_flag.
  by rewrite (find_without (fun arg => startsWith arg name)).
Qed.

Lemma cli_skus_without other args :
  startsWith other "--" = true ->
  cli_skus (filter (fun arg => arg <> other) args) = cli_skus args.
Proof.
  intros H. unfold cli_skus. induction args as [|arg args IH]; [done|].
  destruct (decide (arg = other)) as [->|Hne].
  - rewrite filter_cons_False by (intros E; by apply E).
    rewrite (filter_cons_False _ other) by (by rewrite H). exact IH.
  - rewrite (filter_cons_True (fun arg => arg <> other)) by done.
    destruct (startsWith arg "--") eqn:E.
    + rewrite !filter_cons_False by (by rewrite E). exact IH.
    + rewrite !filter_cons_True by done. by rewrite IH.
Qed.

Lemma only_options_with_sku args :
  cli_skus args <> [] -> only_options args = false.
Proof.
  destruct args as [|arg [|arg' args]]; [done| |done].
  intros H. simpl. destruct (startsWith arg "--") eqn:E; [|done].
  exfalso. apply H. unfold cli_skus. rewrite filter_cons_False; [done|].
  by rewrite E.
Qed.

(** X29: [--force] changes nothing.  The options the engine receives
    never have [forceUpdate] set, and a command line that names a SKU or
    has [--all] runs exactly as the same command line without
    [--force]. *)
Theorem cli_force_changes_nothing parseInt_str fuel args :
  has_flag "--all" args = true \/ cli_skus args <> [] ->
  forceUpdate (cli_options parseInt_str args) = false
  /\ cli parseInt_str fuel args = cli parseInt_str fuel (filter (fun arg => arg <> "--force") args).
Proof.
  intros Hrun. split; [done|].
  set (args' := filter (fun arg => arg <> "--force") args).
  assert (Hoptions : cli_options parseInt_str args' = cli_options parseInt_str args).
  { unfold cli_options, args'.
    by rewrite !has_flag_without, !numeric_flag_without. }
  assert (Hall : has_flag "--all" args' = has_flag "--all" args)
    by (by apply has_flag_without).
  assert (Hskus : cli_skus args' = cli_skus args)
    by (by apply cli_skus_without).
  unfold cli. rewrite Hoptions, Hall, Hskus.
  destruct Hrun as [Hyes|Hsome].
  - rewrite Hyes. by rewrite !andb_false_r.
  - rewrite !only_options_with_sku; [done | by rewrite Hskus | done].
Qed.

(** ** Chunks and the concurrency limit *)


















(** ** Updates of one listing in one pass *)

Section Weighted.

Variable f : Event -> bool.
Variable w : string -> nat.
Variable processor : string -> Comp SyncResult.
Hypothesis processor_sends : forall s, sends f (w s) (processor s).
Hypothesis processor_ok : forall s, yields (processor s) (fun _ => True).
Hypothesis f_warn : forall x, f (EvWarn x) = false.
Hypothesis f_progress : forall p t, f (EvProgress p t) = false.

Lemma await_all_owed (pending : list (string * option SyncResult)) :
  sends f (owed w pending) (await_all processor pending).
Proof.
  induction pending as [|[s [r|]] pending IH]; cbn [owed await_all].
  - apply sends_ret.
  - eapply sends_weaken;
      [|apply sends_bind; [exact IH | intros; apply sends_ret]].
    lia.
  - eapply sends_weaken;
      [|apply sends_bind; [apply processor_sends|]; intros r;
        apply sends_bind; [exact IH | intros; apply sends_ret]].
    lia.
Qed.

Lemma owed_settled (chunk : list string) (slots : list (option SyncResult))
    (i : nat) (s : string) (r : SyncResult) :
  chunk !! i = Some s -> slots !! i = Some None ->
  owed w (zip chunk slots)
  = (w s + owed w (zip chunk (<[i:=Some r]> slots)))%nat.
Proof.
  revert slots i.
  induction chunk as [|s' chunk IH]; intros [|slot slots] [|i] Hc Hs;
    try done; simpl in *.
  - injection Hc as ->. by injection Hs as ->.
  - rewrite (IH slots i Hc Hs). destruct slot; simpl; lia.
Qed.

Lemma settle_then_await_owed chunk (order : list nat)
    (slots : list (option SyncResult)) :
  sends f (owed w (zip chunk slots))
    (slots' ← foldM (settle processor chunk) order slots;
     await_all processor (zip chunk slots')).
Proof.
  revert slots. induction order as [|i order IH]; intros slots.
  - intros st. simpl. rewrite bind_run. simpl. apply await_all_owed.
  - intros st. rewrite bind_run. simpl. rewrite bind_run. unfold settle at 1.
    destruct (chunk !! i) as [s|] eqn:Hc;
      [destruct (slots !! i) as [[r|]|] eqn:Hslot|];
      try (specialize (IH slots st); rewrite bind_run in IH; exact IH).
    rewrite bind_run. pose proof (processor_sends s st) as Hs.
    destruct (processor s st) as [[r|e|] st1]; simpl in *.
    + specialize (IH (<[i:=Some r]> slots) st1). rewrite bind_run in IH.
      rewrite (owed_settled chunk slots i s r Hc Hslot). lia.
    + rewrite (owed_settled chunk slots i s (error_result "" "") Hc Hslot).
      lia.
    + rewrite (owed_settled chunk slots i s (error_result "" "") Hc Hslot).
      lia.
Qed.

Lemma owed_fresh (chunk : list string) :
  owed w (zip chunk (replicate (length chunk) (@None SyncResult)))
  = total_weight w chunk.
Proof. induction chunk as [|s chunk IH]; simpl; [done | by rewrite IH]. Qed.

Lemma Promise_all_owed chunk :
  sends f (total_weight w chunk) (Promise_all processor chunk).
Proof.
  intros st. unfold Promise_all. rewrite bind_run. simpl.
  pose proof (settle_then_await_owed chunk (completion_order env (world st))
                (replicate (length chunk) None) st) as H.
  by rewrite owed_fresh in H.
Qed.

Lemma total_weight_app (l k : list string) :
  total_weight w (l ++ k) = (total_weight w l + total_weight w k)%nat.
Proof. induction l as [|s l IH]; simpl; [done | rewrite IH; lia]. Qed.

Lemma process_chunks_weighted fuel array c i results rateLimitErrors :
  0 < c -> 0 <= i ->
  sends f (total_weight w (drop (Z.to_nat i) array))
        (process_chunks fuel array processor c i results rateLimitErrors).
Proof.
  intros Hc. revert i results rateLimitErrors.
  induction fuel as [|fuel IH]; intros i results rle Hi; simpl;
    destruct (Z.ltb_spec i (Z.of_nat (length array))) as [Hlt|Hge];
    try (eapply sends_weaken; [|apply sends_ret]; apply Nat.le_0_l).
  - eapply sends_weaken; [|apply sends_no_fuel]. apply Nat.le_0_l.
  - eapply sends_weaken; [|apply sends_bind
      with (n := total_weight w (js_slice array i (i + c)))
           (n' := total_weight w (drop (Z.to_nat (i + c)) array))].
    + rewrite js_slice_chunk by lia.
      pose proof (take_drop (Z.to_nat c) (drop (Z.to_nat i) array)) as Hsplit.
      rewrite drop_drop in Hsplit.
      replace (Z.to_nat i + Z.to_nat c)%nat with (Z.to_nat (i + c)) in Hsplit
        by lia.
      apply (f_equal (total_weight w)) in Hsplit.
      rewrite total_weight_app in Hsplit. lia.
    + apply sends_try_yields with (Q := fun _ => True).
      * eapply yields_bind;
          [apply (Promise_all_ok processor (fun _ _ => True) processor_ok)|].
        intros chunkResults _.
        eapply yields_bind with (Q1 := fun _ => True);
          [destruct (_ <=? _); [apply yields_emit | by apply yields_ret]|].
        intros _ _. by apply yields_ret.
      * eapply sends_weaken; cycle 1.
        { apply sends_bind; [apply Promise_all_owed|]. intros chunkResults.
          apply sends_bind with (n := O) (n' := O); [|intros; apply sends_ret].
          destruct (_ <=? _); [apply sends_emit, f_warn | apply sends_ret]. }
        lia.
    + intros [results' rle'].
      apply (sends_bind f O (total_weight w (drop (Z.to_nat (i + c)) array))).
      * apply sends_emit, f_progress.
      * intros _. apply IH. lia.
Qed.

Lemma processInParallel_weighted fuel array c :
  0 < c ->
  sends f (total_weight w array) (processInParallel fuel array processor c).
Proof.
  intros Hc. unfold processInParallel.
  exact (process_chunks_weighted fuel array c 0 [] 0 Hc ltac:(lia)).
Qed.

End Weighted.

Lemma sends_mono {A} (f g : Event -> bool) (n : nat) (m : Comp A) :
  (forall ev, f ev = true -> g ev = true) ->
  keeps any_event m -> sends g n m -> sends f n m.
Proof.
  intros Hfg Hm Hg st. destruct (Hm st) as (t & Ht & _). specialize (Hg st).
  rewrite Ht in *. rewrite !count_events_app in *.
  assert (H : (count_events f t <= count_events g t)%nat); [|lia].
  clear Ht Hg. unfold count_events.
  induction t as [|ev t IH]; simpl; [done|].
  destruct (f ev) eqn:Hf; [rewrite (Hfg ev Hf); simpl; lia|].
  destruct (g ev); simpl; lia.
Qed.

Lemma process_sku_footprint fuel options index s :
  keeps (fun ev =>
           erp_event s ev
           \/ exists mlp,
                map_get s index = Some mlp
                /\ (ev = EvAccessToken
                    \/ exists quantity, ev = EvMlPut (itemId mlp) quantity))
        (process_sku fuel options index s).
Proof.
  apply keeps_try_catch; [|intros; apply keeps_ret].
  apply syncProductStock_frame with (Q := fun r => r = map_get s index).
  - eapply keeps_weaken; [|apply getManagerProductBySKU_footprint].
    intros ev Hev. by left.
  - apply lookup_in_index_silent.
  - apply lookup_returns_entry.
  - intros mlp quantity Hmlp _.
    eapply keeps_weaken; [|apply updateMercadoLibreStock_footprint].
    intros ev Hev. right. exists mlp. split; [done|].
    destruct Hev as [-> | ->]; [by left | right; by eexists].
Qed.

(** One call for a SKU sends at most one update, to the listing the
    index holds for that SKU and to no other. *)
Lemma process_sku_updates_listing fuel options index id s :
  sends (is_update_of id) (updates_listing index id s)
        (process_sku fuel options index s).
Proof.
  assert (Hother : (forall mlp, map_get s index = Some mlp -> itemId mlp <> id) ->
                   sends (is_update_of id) 0 (process_sku fuel options index s)).
  { intros Hne. eapply sends_keeps; [|apply process_sku_footprint].
    intros ev [[-> | ->]|(mlp & Hget & [->|[quantity ->]])]; try done.
    simpl. apply String.eqb_neq. by apply Hne. }
  unfold updates_listing. destruct (map_get s index) as [mlp|] eqn:Hget.
  - destruct (String.eqb_spec (itemId mlp) id) as [Heq|Hne].
    + apply sends_mono with (g := is_update);
        [|apply process_sku_grows | apply process_sku_one_update].
      by intros [].
    + apply Hother. by intros mlp' [= <-].
  - by apply Hother.
Qed.

Lemma total_weight_occurrences index s mlp array :
  map_get s index = Some mlp ->
  (forall s' mlp', s' <> s -> map_get s' index = Some mlp' ->
                   itemId mlp' <> itemId mlp) ->
  total_weight (updates_listing index (itemId mlp)) array
  = length (filter (fun s' => s' = s) array).
Proof.
  intros Hget Hothers. induction array as [|s' array IH]; [done|].
  cbn [total_weight foldr]. fold (total_weight (updates_listing index (itemId mlp)) array).
  rewrite IH. unfold updates_listing at 1.
  destruct (decide (s' = s)) as [->|Hne].
  - rewrite Hget, String.eqb_refl, filter_cons_True by done. done.
  - rewrite filter_cons_False by done.
    destruct (map_get s' index) as [mlp'|] eqn:Hget'; [|done].
    destruct (String.eqb_spec (itemId mlp') (itemId mlp)) as [Heq|]; [|done].
    by destruct (Hothers s' mlp' Hne Hget').
Qed.

Lemma no_occurrence (s : string) (array : list string) :
  s ∉ array -> filter (fun s' => s' = s) array = [].
Proof.
  induction array as [|s' array IH]; [done|]. intros Hnot.
  apply not_elem_of_cons in Hnot as [Hne Hnot].
  rewrite filter_cons_False by (intros Heq; by apply Hne). by apply IH.
Qed.

Lemma occurrences_NoDup (s : string) (array : list string) :
  NoDup array -> (length (filter (fun s' => s' = s) array) <= 1)%nat.
Proof.
  induction 1 as [|s' array Hnot _ IH]; [simpl; lia|].
  destruct (decide (s' = s)) as [->|Hne].
  - rewrite filter_cons_True by done. by rewrite no_occurrence.
  - by rewrite filter_cons_False.
Qed.

(** C2, as the code has it.  In a dry run an identifier whose
    quantities differ, or whose update is forced, gets the
    [would_update] decision, and neither the call nor a whole run sends
    anything to the sink.  Whatever the options, one call of
    [syncProductStock] sends at most one update, and only outside a dry
    run, for a product found on both sides whose quantities differ or
    whose update is forced.  A pass over a batch sends at most one
    update for each entry of the batch and, to the listing of an
    identifier, at most as many updates as the batch lists the
    identifier: at most one when the batch lists nothing twice.  The
    quantity of the source is the one the engine reads,
    [parseInt(stock) || 0]: the stock itself when it is an integer
    below 10^21 in absolute value. *)
Theorem dry_run_sends_no_update fuel sku options mlProductsMap st :
  (forall mp st1 mlp st2,
      dryRun options = true ->
      getManagerProductBySKU sku st = (Ok (Some mp), st1) ->
      getMercadoLibreProductStockBySKU fuel sku mlProductsMap st1
      = (Ok (Some mlp), st2) ->
      quantity_of mp <> currentStock mlp \/ forceUpdate options = true ->
      syncProductStock fuel sku options mlProductsMap st
      = (Ok (would_update_result sku (quantity_of mp) (currentStock mlp)), st2)
      /\ action (would_update_result sku (quantity_of mp) (currentStock mlp))
         = would_update)
  /\ (forall mp q,
        integer_value (stock mp) = Some q -> Z.abs q < 10 ^ 21 ->
        quantity_of mp = q)
  /\ (dryRun options = true ->
      puts (trace (syncProductStock fuel sku options mlProductsMap st).2)
      = puts (trace st))
  /\ (dryRun options = true ->
      forall skus,
        puts (trace (syncMultipleProducts fuel skus options st).2)
        = puts (trace st))
  /\ (puts (trace (syncProductStock fuel sku options mlProductsMap st).2)
      = puts (trace st)
      \/ (dryRun options = false
          /\ exists mp st1 mlp st2,
               getManagerProductBySKU sku st = (Ok (Some mp), st1)
               /\ getMercadoLibreProductStockBySKU fuel sku mlProductsMap st1
                  = (Ok (Some mlp), st2)
               /\ (quantity_of mp <> currentStock mlp \/ forceUpdate options = true)
               /\ puts (trace (syncProductStock fuel sku options mlProductsMap st).2)
                  = (puts (trace st) ++ [(itemId mlp, quantity_of mp)])%list))
  /\ (forall array index c,
        0 < c ->
        (length (puts (trace (processInParallel fuel array
                                (process_sku fuel options index) c st).2))
         <= length (puts (trace st)) + length array)%nat)
  /\ (forall array index c s mlp,
        0 < c ->
        map_get s index = Some mlp ->
        (forall s' mlp', s' <> s -> map_get s' index = Some mlp' ->
                         itemId mlp' <> itemId mlp) ->
        let pass :=
          processInParallel fuel array (process_sku fuel options index) c st in
        (count_events (is_update_of (itemId mlp)) (trace pass.2)
         <= count_events (is_update_of (itemId mlp)) (trace st)
            + length (filter (fun s' => s' = s) array))%nat
        /\ (NoDup array ->
            (count_events (is_update_of (itemId mlp)) (trace pass.2)
             <= count_events (is_update_of (itemId mlp)) (trace st) + 1)%nat)).
Proof.
  split; [|split; [|split; [|split; [|split; [|split]]]]].
  - intros mp st1 mlp st2 Hdry H1 H2 Hdiff.
    rewrite (syncProductStock_found _ _ _ _ _ _ _ _ _ H1 H2). unfold decide_found.
    rewrite Hdry. split; [|done].
    destruct Hdiff as [Hne|Hforce].
    + apply Z.eqb_neq in Hne. by rewrite Hne.
    + by rewrite Hforce, andb_false_r.
  - apply quantity_of_integer.
  - intros Hdry.
    destruct (syncProductStock_puts fuel sku options mlProductsMap st)
      as [E|[Hno _]]; [done | congruence].
  - intros Hdry skus. apply extends_puts. by apply dry_run_reads.
  - apply syncProductStock_puts.
  - intros array index c Hc. by apply processInParallel_adds.
  - intros array index c s mlp Hc Hget Hothers pass.
    assert (Hpass : (count_events (is_update_of (itemId mlp)) (trace pass.2)
                     <= count_events (is_update_of (itemId mlp)) (trace st)
                        + length (filter (fun s' => s' = s) array))%nat).
    { rewrite <- (total_weight_occurrences index s mlp array Hget Hothers).
      apply (processInParallel_weighted (is_update_of (itemId mlp))
               (updates_listing index (itemId mlp))); try done.
      - intros s'. apply process_sku_updates_listing.
      - intros s'. eapply yields_weaken; [|apply process_sku_result]. done. }
    split; [exact Hpass|]. intros Hnodup.
    pose proof (occurrences_NoDup s array Hnodup). lia.
Qed.

(** ** When the handlers answer *)

Lemma keeps_cache_ret {A} (a : A) : keeps_cache (mret a).
Proof. by intros st. Qed.

Lemma keeps_cache_throw {A} (e : Exn) : keeps_cache (throw e : Comp A).
Proof. by intros st. Qed.

Lemma keeps_cache_remote {A} ev (f : W -> A * W) : keeps_cache (remote ev f).
Proof. intros st. unfold remote. by destruct (f (world st)). Qed.

Lemma keeps_cache_bind {A B} (m : Comp A) (k : A -> Comp B) :
  keeps_cache m -> (forall a, keeps_cache (k a)) -> keeps_cache (m ≫= k).
Proof.
  intros Hm Hk st. rewrite bind_run. specialize (Hm st).
  destruct (m st) as [[a|e|] st1]; cbn in *; try done.
  by rewrite Hk.
Qed.

Lemma keeps_cache_try_catch {A} (m : Comp A) (h : Exn -> Comp A) :
  keeps_cache m -> (forall e, keeps_cache (h e)) -> keeps_cache (try_catch m h).
Proof.
  intros Hm Hh st. unfold try_catch. specialize (Hm st).
  destruct (m st) as [[a|e|] st1]; cbn in *; try done.
  by rewrite Hh.
Qed.

Lemma keeps_cache_axios {A} ev (f : W -> (Exn + A) * W) :
  keeps_cache (axios ev f).
Proof.
  apply keeps_cache_bind; [apply keeps_cache_remote|].
  intros [e|a]; [apply keeps_cache_throw | apply keeps_cache_ret].
Qed.

Lemma getManagerProductBySKU_keeps_cache sku :
  keeps_cache (getManagerProductBySKU sku).
Proof.
  unfold getManagerProductBySKU, getERPAuthToken, authenticateWithERP.
  repeat first
    [ apply keeps_cache_axios | apply keeps_cache_remote
    | apply keeps_cache_ret | apply keeps_cache_throw
    | apply keeps_cache_bind; [|intros]
    | apply keeps_cache_try_catch; [|intros]
    | match goal with
      | |- keeps_cache (match ?x with _ => _ end) => destruct x
      end
    | by intros ? ].
Qed.

Lemma syncProductStock_settles fuel sku options st index :
  mlProductsCache st = Some index ->
  (syncProductStock fuel sku options None st).1 <> NoFuel.
Proof.
  intros Hcache. rewrite syncProductStock_run.
  pose proof (getManagerProductBySKU_finishes sku st) as Hfin.
  pose proof (getManagerProductBySKU_keeps_cache sku st) as Hkept.
  destruct (getManagerProductBySKU sku st) as [[[mp|]|e|] st1];
    cbn in *; try done.
  rewrite Hcache in Hkept.
  unfold getMercadoLibreProductStockBySKU.
  rewrite try_rethrow, bind_run, (loadAll_cached fuel st1 index Hkept).
  cbv beta iota delta [mret M_ret].
  destruct (map_get sku index) as [mlp|]; [|done].
  unfold decide_found.
  destruct (_ && _); [done|]. destruct (dryRun options); [done|].
  pose proof (updateMercadoLibreStock_finishes (itemId mlp) (quantity_of mp) st1)
    as Hput.
  by destruct (updateMercadoLibreStock _ _ st1) as [[[]|e|] st2].
Qed.

Lemma syncMultipleProducts_settles fuel skus options st index :
  mlProductsCache st = Some index ->
  0 < requested_concurrency options ->
  (length skus + Z.to_nat (default 3%Z (maxRetries options)) <= fuel)%nat ->
  (syncMultipleProducts fuel skus options st).1 <> NoFuel.
Proof.
  intros Hcache Hpos Hfuel.
  destruct (verifyMercadoLibreAuth env
              (world (match (limit_concurrency (requested_concurrency options)).2 with
                      | Some w => (warn w st).2
                      | None => st
                      end))) as [[msg|user] w1] eqn:Hauth.
  - unfold syncMultipleProducts.
    destruct (limit_concurrency _) as [c [w|]]; rewrite bind_run;
      cbv beta iota delta [warn emit mret M_ret fst snd];
      unfold try_catch; rewrite bind_run; unfold collaborator;
      rewrite bind_run; unfold remote; cbn [world trace];
      cbn in Hauth; rewrite Hauth; discriminate.
  - assert (Hworld : world (match (limit_concurrency (requested_concurrency options)).2 with
                      | Some w => (warn w st).2
                      | None => st
                      end) = world st) by (by destruct (limit_concurrency _).2).
    rewrite Hworld in Hauth.
    destruct (syncMultipleProducts_returns fuel skus options st index user w1
                Hcache Hauth Hpos Hfuel) as (results & st' & ->).
    discriminate.
Qed.

(** X18: the answer of [POST /api/sync/stocks].  Whenever the handler
    settles it answers - it never throws - with status 200, 400 or 500;
    [success] is true exactly on 200, a summary is attached exactly on
    200 - and then it lists the requested SKUs in order - and an error
    message exactly otherwise.  It does settle once the catalog index is
    cached: the retry rounds are bounded, so the only wait without a
    bound is the scan of the catalog. *)
Theorem post_reply_is_well_formed fuel skus dryRun :
  yields (post_sync_stocks fuel skus dryRun)
    (fun reply =>
       (http_status reply = 200 \/ http_status reply = 400
        \/ http_status reply = 500)
       /\ (reply_success reply = true <-> http_status reply = 200)
       /\ (reply_error reply = None <-> http_status reply = 200)
       /\ match reply_results reply with
          | Some results =>
              http_status reply = 200
              /\ sku <$> details results = batch_items skus
          | None => http_status reply <> 200
          end)
  /\ (forall st index,
        mlProductsCache st = Some index ->
        (length (batch_items skus) + 3 <= fuel)%nat ->
        exists reply st',
          post_sync_stocks fuel skus dryRun st = (Ok reply, st')).
Proof.
  split.
  - intros st. unfold post_sync_stocks, try_catch.
    destruct (_ || _).
    + cbn. repeat split; try done; auto.
    + rewrite bind_run.
      pose proof (syncMultipleProducts_consistent fuel (batch_items skus)
        {| dryRun := dryRun; forceUpdate := false; concurrency := None;
           maxRetries := None; retryDelay := None |} st) as H.
      destruct (syncMultipleProducts _ _ _ st) as [[results|e|] st1]; cbn in *.
      * destruct H as (_ & Hdetails & _). repeat split; try done; auto.
      * repeat split; try done; auto.
      * done.
  - intros st index Hcache Hfuel. unfold post_sync_stocks, try_catch.
    destruct (_ || _); [by eexists _, _|].
    rewrite bind_run.
    pose proof (syncMultipleProducts_settles fuel (batch_items skus)
      {| dryRun := dryRun; forceUpdate := false; concurrency := None;
         maxRetries := None; retryDelay := None |} st index Hcache) as H.
    destruct (syncMultipleProducts _ _ _ st) as [[results|e|] st1];
      cbn in *; [by eexists _, _ | by eexists _, _ |].
    exfalso. apply H; [done | exact Hfuel | done].
Qed.

(** X20: the answer of [GET /api/sync/stocks].  Whenever the handler
    settles it answers, with 200, 400 or 500.  It answers 400 exactly
    when [all] is not ['true'] and [sku] is missing or empty.
    [all=true] wins over [sku].  For a single SKU the answer is always
    200: a failed synchronisation is reported in the body, with
    [success] copied from the result for that SKU, never as an HTTP
    error; so a 500 can only come from [all=true].  The handler does
    settle once the catalog index is cached. *)
Theorem get_reply_is_well_formed fuel skuParam all dryRun :
  yields (get_sync_stocks fuel skuParam all dryRun)
    (fun reply =>
       (get_status reply = 200 \/ get_status reply = 400
        \/ get_status reply = 500)
       /\ (get_status reply = 400 <->
           query_is_true all = false /\ truthy_str skuParam = false)
       /\ (get_status reply = 500 -> query_is_true all = true)
       /\ (query_is_true all = true -> get_result reply = None)
       /\ (query_is_true all = false -> truthy_str skuParam = true ->
           get_status reply = 200
           /\ exists result,
                get_result reply = Some result
                /\ get_success reply = success result
                /\ Some (sku result) = skuParam))
  /\ (forall st index,
        mlProductsCache st = Some index ->
        (length index + 3 <= fuel)%nat ->
        exists reply st',
          get_sync_stocks fuel skuParam all dryRun st = (Ok reply, st')).
Proof.
  split.
  - intros st. unfold get_sync_stocks, try_catch.
    destruct (query_is_true all).
    + rewrite bind_run.
      destruct (syncAllProducts _ _ st) as [[results|e|] st1]; cbn; [| |done];
        repeat split; try done; auto; intros H; try lia; by destruct H.
    + destruct (truthy_str skuParam) eqn:Hsku.
      * rewrite bind_run.
        pose proof (syncProductStock_result fuel (default "" skuParam)
          {| dryRun := query_is_true dryRun; forceUpdate := false;
             concurrency := None; maxRetries := None; retryDelay := None |}
          None st) as H.
        destruct (syncProductStock _ _ _ None st) as [[result|e|] st1]; cbn in *;
          [|done|done].
        destruct H as [Hs _].
        repeat split; try done; auto; try (intros H; try lia; by destruct H).
        exists result. repeat split; try done.
        rewrite Hs. destruct skuParam; [done|discriminate].
      * cbn. repeat split; try done; auto; intros H; try lia; by destruct H.
  - intros st index Hcache Hfuel. unfold get_sync_stocks, try_catch.
    destruct (query_is_true all).
    + rewrite bind_run. unfold syncAllProducts.
      rewrite try_rethrow, bind_run, (loadAll_cached fuel st index Hcache).
      destruct (_ =? 0); [by eexists _, _|].
      pose proof (syncMultipleProducts_settles fuel (map_keys index)
        {| dryRun := query_is_true dryRun; forceUpdate := false;
           concurrency := None; maxRetries := None; retryDelay := None |}
        st index Hcache) as H.
      destruct (syncMultipleProducts _ _ _ st) as [[results|e|] st1];
        cbn in *; [by eexists _, _ | by eexists _, _ |].
      exfalso. apply H; [done | | done].
      unfold map_keys. by rewrite length_map.
    + destruct (truthy_str skuParam); [|by eexists _, _].
      rewrite bind_run.
      pose proof (syncProductStock_settles fuel (default "" skuParam)
        {| dryRun := query_is_true dryRun; forceUpdate := false;
           concurrency := None; maxRetries := None; retryDelay := None |}
        st index Hcache) as H.
      by destruct (syncProductStock _ _ _ None st) as [[result|e|] st1];
        cbn in *; [eexists _, _ | eexists _, _ |].
Qed.


End Engine.

(** ** Quantity extraction *)

Section ExtractStock.

Variable js : Runtime.















End ExtractStock.

(** ** The engine on scripted worlds *)



Lemma equal_quantities_no_change_witness :
  syncProductStock scripted_runtime (steady_world 7 []) None 1 "A"
    default_options (Some catalog_A) (start None)
  = (Ok (no_change_result "A" 7 7), after_lookup)
  /\ action (no_change_result "A" 7 7) = no_change
  /\ puts (trace after_lookup) = puts (trace (start None)).
Proof.
  apply (equal_quantities_no_change scripted_runtime (steady_world 7 []) None
           1 "A" default_options (Some catalog_A) (start None)
           (product_A 7) after_lookup (listing "A" "MLA1" 7) after_lookup).
  - reflexivity.
  - vm_compute. reflexivity.
  - vm_compute. reflexivity.
  - right. split; vm_compute; reflexivity.
Defined.

(** C1 as stated fails from 10^21 on: the ERP and the listing both hold
    10^21 units, the engine reads the stock as 1 ([parseInt] of
    [1e+21]) and overwrites the listing with 1. *)
Lemma huge_equal_quantities_are_updated :
  let run :=
    syncProductStock scripted_runtime (steady_world (10 ^ 21) []) None 1 "A"
      default_options (Some huge_catalog) (start None) in
  extractStockFromProduct scripted_runtime
    (JObj [("stock", JArr [JArr [balance (JNum (num (10 ^ 21)))]])])
  = num (10 ^ 21)
  /\ integer_value (num (10 ^ 21)) = Some (10 ^ 21)
  /\ map_get "A" huge_catalog = Some (listing "A" "MLA1" (10 ^ 21))
  /\ run.1 = Ok (updated_result "A" 1 (10 ^ 21))
  /\ action (updated_result "A" 1 (10 ^ 21)) <> no_change
  /\ puts (trace run.2) = [("MLA1", 1)].
Proof. vm_compute. repeat split; discriminate. Qed.

Lemma dry_run_sends_no_update_witness :
  syncProductStock scripted_runtime (steady_world 10 []) None 1 "A"
    dry_run_options (Some catalog_A) (start None)
  = (Ok (would_update_result "A" 10 7), after_lookup)
  /\ action (would_update_result "A" 10 7) = would_update.
Proof.
  apply (proj1 (dry_run_sends_no_update scripted_runtime (steady_world 10 []) None
                  1 "A" dry_run_options (Some catalog_A) (start None))
           (product_A 10) after_lookup (listing "A" "MLA1" 7) after_lookup).
  - reflexivity.
  - vm_compute. reflexivity.
  - vm_compute. reflexivity.
  - left. vm_compute. discriminate.
Defined.

Lemma details_follow_input_order_witness :
  exists results st',
    syncMultipleProducts scripted_runtime (steady_world 10 [1; 0]%nat) None 5
      ["A"; "B"] default_options (start (Some catalog_A)) = (Ok results, st')
    /\ length (details results) = length ["A"; "B"]
    /\ sku <$> details results = ["A"; "B"].
Proof.
  eexists _, _. split; [vm_compute; reflexivity|].
  eapply (details_follow_input_order scripted_runtime (steady_world 10 [1; 0]%nat)
            None 5 ["A"; "B"] default_options (start (Some catalog_A))).
  vm_compute. reflexivity.
Defined.

Lemma counters_sum_to_total_witness :
  exists results st',
    syncMultipleProducts scripted_runtime throttled_then_found None 5
      ["A"; "B"] default_options (start (Some catalog_A)) = (Ok results, st')
    /\ updated_count results + noChange_count results
       + skipped_count results + errors_count results = total results
    /\ total results = Z.of_nat (length ["A"; "B"]).
Proof.
  eexists _, _. split; [vm_compute; reflexivity|].
  eapply (counters_sum_to_total scripted_runtime throttled_then_found
            None 5 ["A"; "B"] default_options (start (Some catalog_A))).
  vm_compute. reflexivity.
Defined.

(** C6 on a concrete run: the ERP throttles the only product of the
    batch on the first pass and reports it missing on the retry.  The
    detail flips from error to skipped, the counters stay as they were. *)
Theorem retried_skip_keeps_error_count :
  exists st',
    syncMultipleProducts scripted_runtime throttled_then_missing None 5
      ["A"] default_options (start (Some catalog_A))
    = (Ok {| total := 1; updated_count := 0; skipped_count := 0;
             errors_count := 1; noChange_count := 0;
             details := [skipped_result "A" "Producto no encontrado en Manager+"] |},
       st').
Proof. eexists. vm_compute. reflexivity. Qed.

(** C7 as stated fails: with the same prebuilt index the second call
    sends the same update again. *)
Lemma second_sync_updates_again :
  let first :=
    syncProductStock scripted_runtime (steady_world 10 []) None 1 "A"
      default_options (Some catalog_A) (start None) in
  let second :=
    syncProductStock scripted_runtime (steady_world 10 []) None 1 "A"
      default_options (Some catalog_A) first.2 in
  first.1 = Ok (updated_result "A" 10 7)
  /\ second.1 = Ok (updated_result "A" 10 7)
  /\ action (updated_result "A" 10 7) <> no_change
  /\ puts (trace second.2) = [("MLA1", 10); ("MLA1", 10)].
Proof. vm_compute. repeat split; discriminate. Qed.

Lemma repeated_sync_updates_again_witness :
  exists st1 st3,
    syncProductStock scripted_runtime (steady_world 10 []) None 1 "A"
      default_options (Some catalog_A) (start None)
    = (Ok (updated_result "A" 10 7), st1)
    /\ (syncProductStock scripted_runtime (steady_world 10 []) None 1 "A"
          default_options (Some catalog_A) st1
        = (Ok (updated_result "A" 10 7), st3)
        /\ action (updated_result "A" 10 7) <> no_change).
Proof.
  eexists _, _. split; [vm_compute; reflexivity|].
  eapply (repeated_sync_updates_again scripted_runtime (steady_world 10 []) None
            1 "A" default_options catalog_A (start None)
            (updated_result "A" 10 7) _ (product_A 10) _ (listing "A" "MLA1" 7)).
  - vm_compute. reflexivity.
  - reflexivity.
  - vm_compute. reflexivity.
  - reflexivity.
  - reflexivity.
  - vm_compute. reflexivity.
Defined.

(** C8 as stated fails: given an empty batch, [syncMultipleProducts]
    checks the authentication, scans the catalog and returns a summary. *)
Lemma empty_batch_reaches_the_remote :
  syncMultipleProducts scripted_runtime (steady_world 10 []) None 1 []
    default_options (start None)
  = (Ok empty_summary,
     {| world := O;
        trace := [EvVerifyAuth; EvAccessToken; EvVerifyAuth; EvMlSearch "seller" 0];
        erpAuthToken := None; erpTokenExpirationTime := None;
        mlProductsCache := Some [] |}).
Proof. vm_compute. reflexivity. Qed.

Lemma empty_batch_rejected_by_handler_witness :
  post_sync_stocks scripted_runtime (steady_world 10 []) None 1 (SkuArray [])
    false (start None)
  = (Ok bad_request, start None).
Proof.
  apply (proj1 (empty_batch_rejected_by_handler scripted_runtime
                  (steady_world 10 []) None 1 default_options (start None))).
  right. reflexivity.
Defined.


Lemma empty_catalog_is_fatal_witness :
  exists st1,
    loadAllMercadoLibreProducts (steady_world 10 []) None 1 (start None)
    = (Ok [], st1)
    /\ syncAllProducts scripted_runtime (steady_world 10 []) None 1
         default_options (start None)
       = (Throw (Error no_listing_message), st1).
Proof.
  eexists. split; [vm_compute; reflexivity|].
  eapply (empty_catalog_is_fatal scripted_runtime (steady_world 10 []) None 1
            default_options (start None) []).
  - vm_compute. reflexivity.
  - reflexivity.
Defined.

(** ** The added properties on scripted worlds *)

Lemma resolveSku_sound_witness :
  resolveSkuFromMLItem tagged_item = Some "A" /\ "A" <> "".
Proof.
  split; [reflexivity|].
  apply (resolveSku_sound tagged_item "A"). reflexivity.
Defined.

Lemma resolveSku_first_attribute_only_witness :
  resolveSkuFromMLItem twice_tagged_item = None.
Proof.
  apply (resolveSku_first_attribute_only twice_tagged_item
           [ {| attr_id := Some "BRAND"; value_name := Some "Acme" |} ]
           [ {| attr_id := Some "SELLER_SKU_ID"; value_name := Some "B" |} ]
           {| attr_id := Some "SELLER_SKU"; value_name := None |}).
  - reflexivity.
  - reflexivity.
  - repeat constructor.
  - reflexivity.
  - reflexivity.
Defined.

Lemma built_index_has_unique_skus_witness :
  exists index st',
    loadAllMercadoLibreProducts catalog_world None 2 (start None)
    = (Ok index, st')
    /\ NoDup (map_keys index).
Proof.
  eexists _, _. split; [vm_compute; reflexivity|].
  eapply proj1.
  eapply (built_index_has_unique_skus catalog_world None 2
            (start None)).
  - reflexivity.
  - vm_compute. reflexivity.
Defined.

Lemma first_listing_wins_witness :
  exists productMap' itemsWithoutSKU' st',
    load_pages catalog_world 2 "seller" 0
      ([("A", listing "A" "MLA0" 1)], []) (start None)
    = (Ok (productMap', itemsWithoutSKU'), st')
    /\ map_get "A" productMap' = Some (listing "A" "MLA0" 1).
Proof.
  eexists _, _, _. split; [vm_compute; reflexivity|].
  eapply (first_listing_wins catalog_world 2 "seller" 0
            [("A", listing "A" "MLA0" 1)] [] (start None)).
  - vm_compute. reflexivity.
  - reflexivity.
Defined.

Lemma failed_listing_is_skipped_witness :
  exists st',
    load_item catalog_world ([("A", listing "A" "MLA0" 1)], []) "MLA3"
      (start None)
    = (Ok ([("A", listing "A" "MLA0" 1)], []), st').
Proof.
  eexists.
  apply (proj2 (failed_listing_is_skipped catalog_world
                  ([("A", listing "A" "MLA0" 1)], []) "MLA3" (start None))
           (http_error 500) O).
  reflexivity.
Defined.

Lemma index_is_memoised_witness :
  exists index st',
    loadAllMercadoLibreProducts catalog_world None 2 (start None)
    = (Ok index, st')
    /\ loadAllMercadoLibreProducts catalog_world None 0 st' = (Ok index, st').
Proof.
  eexists _, _. split; [vm_compute; reflexivity|].
  eapply (index_is_memoised catalog_world None 2 (start None)).
  vm_compute. reflexivity.
Defined.

Lemma erp_token_is_reused_witness :
  authenticateWithERP (steady_world 7 []) (start None)
  = (Ok (Some "erp-token"), after_login)
  /\ getERPAuthToken (steady_world 7 []) after_login
     = (Ok (Some "erp-token"), after_login).
Proof.
  split; [reflexivity|].
  apply (erp_token_is_reused (steady_world 7 []) (start None) "erp-token"
           after_login after_login).
  - reflexivity.
  - discriminate.
  - vm_compute. discriminate.
  - reflexivity.
  - reflexivity.
  - vm_compute. reflexivity.
Defined.

Lemma unknown_product_is_skipped_witness :
  exists st',
    syncProductStock scripted_runtime missing_world None 1 "A"
      default_options (Some catalog_A) (start None)
    = (Ok (skipped_result "A" "Producto no encontrado en Manager+"), st').
Proof.
  eexists. eapply proj1.
  eapply (unknown_product_is_skipped scripted_runtime missing_world None 1
            "A" default_options (Some catalog_A) (start None)
            (Some "erp-token") after_login (http_error 404) 1%nat).
  - reflexivity.
  - reflexivity.
  - reflexivity.
Defined.

Lemma erp_throttling_is_retried_witness :
  exists st',
    syncProductStock scripted_runtime throttled_then_missing None 1 "A"
      default_options (Some catalog_A) (start None)
    = (Ok (error_result "A"
             "Rate limit alcanzado en Manager+ (429). Reduce la concurrencia."),
       st').
Proof.
  eexists. eapply proj1.
  eapply (erp_throttling_is_retried scripted_runtime throttled_then_missing
            None 1 "A" default_options (Some catalog_A) (start None)
            (Some "erp-token") after_login (http_error 429) 1%nat).
  - reflexivity.
  - reflexivity.
  - reflexivity.
Defined.

Lemma sink_throttling_is_retried_witness :
  exists result st',
    syncProductStock scripted_runtime throttling_sink None 1 "A"
      default_options (Some catalog_A) (start None)
    = (Ok result, st')
    /\ action result = error_action
    /\ is_rate_limit_error result = true.
Proof.
  destruct (sink_throttling_is_retried scripted_runtime throttling_sink None
              1 "A" default_options (Some catalog_A) (start None)
              (product_A 10) after_lookup (listing "A" "MLA1" 7) after_lookup
              "ml-token" 1%nat (http_error 429) 1%nat)
    as (result & Hrun & Haction & Hrate & _).
  - vm_compute. reflexivity.
  - reflexivity.
  - reflexivity.
  - left. vm_compute. discriminate.
  - reflexivity.
  - reflexivity.
  - reflexivity.
  - exists result. eexists. split; [exact Hrun|]. by split.
Defined.

Lemma action_tells_what_was_sent_witness :
  exists result st',
    syncProductStock scripted_runtime (steady_world 10 []) None 1 "A"
      default_options (Some catalog_A) (start None)
    = (Ok result, st')
    /\ (action result = no_change \/ action result = would_update
        \/ action result = skipped ->
        puts (trace st') = puts (trace (start None))).
Proof.
  eexists _, _. split; [vm_compute; reflexivity|].
  eapply proj2.
  eapply (action_tells_what_was_sent scripted_runtime (steady_world 10 [])
            None 1 "A" default_options (Some catalog_A) (start None)).
  vm_compute. reflexivity.
Defined.

Lemma retries_leave_other_details_witness :
  yields
    (retry_loop scripted_runtime throttled_then_found None 2 2
       default_options catalog_A 5 3 2000 1
       (filter (fun r => retryable r = true) (details first_pass_summary))
       first_pass_summary)
    (fun results' =>
       details results' !! O = details first_pass_summary !! O).
Proof.
  apply (retries_leave_other_details scripted_runtime throttled_then_found
           None 2 2 default_options catalog_A 5 3 2000 1
           (filter (fun r => retryable r = true) (details first_pass_summary))
           first_pass_summary O).
  - reflexivity.
  - apply (bool_decide_unpack _). vm_compute. exact I.
Defined.

Lemma skipped_counter_stays_zero_witness :
  exists results st',
    syncMultipleProducts scripted_runtime throttled_then_missing None 5
      ["A"; "B"] default_options (start (Some catalog_A)) = (Ok results, st')
    /\ skipped_count results = 0.
Proof.
  eexists _, _. split; [vm_compute; reflexivity|].
  eapply (skipped_counter_stays_zero scripted_runtime throttled_then_missing
            None 5 ["A"; "B"] default_options (start (Some catalog_A))).
  vm_compute. reflexivity.
Defined.

Lemma failed_authentication_aborts_run_witness :
  exists st',
    syncMultipleProducts scripted_runtime locked_out None 5 ["A"; "B"]
      default_options (start None)
    = (Throw (Error "No autorizado"), st')
    /\ trace st' = [EvVerifyAuth].
Proof.
  eexists. split.
  - apply (failed_authentication_aborts_run scripted_runtime locked_out None
             5 ["A"; "B"] default_options (start None) "No autorizado" O).
    reflexivity.
  - reflexivity.
Defined.

Lemma syncAll_follows_index_witness :
  exists index st1,
    loadAllMercadoLibreProducts catalog_world None 2 (start None)
    = (Ok index, st1)
    /\ syncAllProducts scripted_runtime catalog_world None 2 default_options
         (start None)
       = syncMultipleProducts scripted_runtime catalog_world None 2
           (map_keys index) default_options st1.
Proof.
  eexists _, _. split; [vm_compute; reflexivity|].
  eapply proj1.
  eapply (syncAll_follows_index scripted_runtime catalog_world None 2
            default_options (start None)).
  - vm_compute. reflexivity.
  - vm_compute. discriminate.
Defined.

Lemma run_requests_are_bounded_witness :
  sends is_update 8
    (syncMultipleProducts scripted_runtime catalog_world None 5 ["A"; "B"]
       default_options)
  /\ sends is_erp_product 8
       (syncMultipleProducts scripted_runtime catalog_world None 5
          ["A"; "B"] default_options).
Proof.
  apply (run_requests_are_bounded scripted_runtime catalog_world None 5
           ["A"; "B"] default_options).
  vm_compute. reflexivity.
Defined.

Lemma dry_run_is_one_pass_witness :
  sends is_pause 0
    (syncMultipleProducts scripted_runtime throttled_then_found None 5
       ["A"; "B"] dry_run_options)
  /\ sends is_update 0
       (syncMultipleProducts scripted_runtime throttled_then_found None 5
          ["A"; "B"] dry_run_options)
  /\ sends is_erp_product 2
       (syncMultipleProducts scripted_runtime throttled_then_found None 5
          ["A"; "B"] dry_run_options).
Proof.
  apply (dry_run_is_one_pass scripted_runtime throttled_then_found None 5
           ["A"; "B"] dry_run_options).
  - reflexivity.
  - vm_compute. reflexivity.
Defined.

Lemma cli_no_retry_is_one_pass_witness :
  sends is_update 2
    (cli scripted_runtime catalog_world None no_numbers 5
       ["A"; "--no-retry"; "B"])
  /\ sends is_erp_product 2
       (cli scripted_runtime catalog_world None no_numbers 5
          ["A"; "--no-retry"; "B"]).
Proof.
  apply (cli_no_retry_is_one_pass scripted_runtime catalog_world None
           no_numbers 5 ["A"; "--no-retry"; "B"]).
  - vm_compute. reflexivity.
  - vm_compute. reflexivity.
Defined.

Lemma cli_without_sku_requests_nothing_witness :
  cli scripted_runtime catalog_world None no_numbers 5
    ["--dry-run"; "--force"] (start None)
  = (Ok 1, start None).
Proof.
  apply (cli_without_sku_requests_nothing scripted_runtime catalog_world
           None no_numbers 5 ["--dry-run"; "--force"] (start None)).
  - vm_compute. reflexivity.
  - repeat constructor.
Defined.

Lemma cli_force_changes_nothing_witness :
  cli scripted_runtime catalog_world None no_numbers 5 ["A"; "--force"]
  = cli scripted_runtime catalog_world None no_numbers 5
      (filter (fun arg => arg <> "--force") ["A"; "--force"]).
Proof.
  apply (cli_force_changes_nothing scripted_runtime catalog_world None
           no_numbers 5 ["A"; "--force"]).
  right. vm_compute. discriminate.
Defined.

Lemma syncProductStock_never_throws_witness :
  exists result st',
    syncProductStock scripted_runtime missing_world None 1 "A"
      default_options (Some catalog_A) (start None)
    = (Ok result, st')
    /\ sku result = "A"
    /\ (success result = false <-> is_Some (error result)).
Proof.
  eexists _, _. split; [vm_compute; reflexivity|].
  pose proof (syncProductStock_never_throws scripted_runtime missing_world
                None 1 "A" default_options (Some catalog_A) (start None)) as H.
  destruct H as (Hsku & _ & Herror & _). split; [exact Hsku | exact Herror].
Defined.

Lemma post_reply_is_well_formed_witness :
  exists reply st',
    post_sync_stocks scripted_runtime (steady_world 10 []) None 5
      (SkuArray ["A"]) false (start (Some catalog_A))
    = (Ok reply, st')
    /\ http_status reply = 200
    /\ (reply_success reply = true <-> http_status reply = 200).
Proof.
  destruct (post_reply_is_well_formed scripted_runtime (steady_world 10 [])
              None 5 (SkuArray ["A"]) false) as [Hshape Hsettles].
  destruct (Hsettles (start (Some catalog_A)) catalog_A)
    as (reply & st' & Hrun); [reflexivity | simpl; lia |].
  exists reply, st'. split; [exact Hrun|].
  specialize (Hshape (start (Some catalog_A))). rewrite Hrun in Hshape.
  destruct Hshape as (_ & Hsuccess & _). split; [|exact Hsuccess].
  revert Hrun. vm_compute. intros Hrun. injection Hrun as <- _. reflexivity.
Defined.

Lemma get_reply_is_well_formed_witness :
  exists reply st',
    get_sync_stocks scripted_runtime missing_world None 5 (Some "A") None
      (Some "true") (start (Some catalog_A))
    = (Ok reply, st')
    /\ get_status reply = 200
    /\ get_success reply = false.
Proof.
  destruct (get_reply_is_well_formed scripted_runtime missing_world None 5
              (Some "A") None (Some "true")) as [Hshape Hsettles].
  destruct (Hsettles (start (Some catalog_A)) catalog_A)
    as (reply & st' & Hrun); [reflexivity | simpl; lia |].
  exists reply, st'. split; [exact Hrun|].
  specialize (Hshape (start (Some catalog_A))). rewrite Hrun in Hshape.
  destruct Hshape as (_ & _ & _ & _ & H).
  destruct (H eq_refl eq_refl) as (Hstatus & result & Hresult & Hsuccess & _).
  split; [exact Hstatus|].
  rewrite Hsuccess. revert Hrun Hresult. vm_compute.
  intros Hrun Hresult. injection Hrun as <- _. injection Hresult as <-.
  reflexivity.
Defined.

(** C2 as stated fails on a batch that lists an identifier twice: one
    pass over [['A', 'A']] sends the update of the listing of ["A"]
    twice. *)
Lemma duplicate_identifier_updated_twice :
  let run :=
    syncMultipleProducts scripted_runtime (steady_world 10 []) None 5
      ["A"; "A"] default_options (start (Some catalog_A)) in
  map_get "A" catalog_A = Some (listing "A" "MLA1" 7)
  /\ (action <$> default [] (match run.1 with
                             | Ok results => Some (details results)
                             | _ => None
                             end)) = [updated; updated]
  /\ puts (trace run.2) = [("MLA1", 10); ("MLA1", 10)]
  /\ progress_lines (trace run.2) = [(2, 2)]
  /\ count_events (is_update_of "MLA1") (trace run.2) = 2%nat.
Proof. vm_compute. repeat split. Qed.

